(** * people_motion_zones: zones, occupancy and telemetry

    A shallow embedding of [people_motion_zones.py]: the ray-casting
    point-in-polygon test, the zone store (save and load), the motion
    percentage of a detection, the per-frame occupancy tally and the
    key-driven control loop of [main] with its zone editor and CSV log.

    Python integers are [Z].  Python floats are IEEE 754 binary64 values,
    taken from the Standard Library's [SpecFloat] with [prec = 53] and
    [emax = 1024]; the conversions between integers and floats raise where
    CPython raises.  A call either returns or raises: [result]. *)

From Stdlib Require Import ZArith SpecFloat Bool Ascii.
From stdpp Require Import gmap strings list fin_maps pretty.

Open Scope Z_scope.

(** ** Exceptions and results *)

Inductive exn : Set :=
  | OverflowError
  | ZeroDivisionError
  | ValueError
  | IndexError
  | KeyError
  | TypeError
  | AttributeError
  | JSONDecodeError
  | OSError.

Inductive result (A : Type) : Type :=
  | Ok (a : A)
  | Raise (e : exn).

Arguments Ok {A} a.
Arguments Raise {A} e.

#[global] Instance result_ret : MRet result := λ A a, Ok a.
#[global] Instance result_bind : MBind result := λ A B f m,
  match m with
  | Ok a => f a
  | Raise e => Raise e
  end.

Definition returns {A} (m : result A) : bool :=
  match m with Ok _ => true | Raise _ => false end.

(** [for x in xs: body], the loop state threaded through the body; the
    first exception leaves the loop. *)
Fixpoint for_each {S A} (body : S → A → result S) (s : S) (xs : list A)
  : result S :=
  match xs with
  | [] => Ok s
  | x :: xs' => s' ← body s x; for_each body s' xs'
  end.

(** [l[i]] for a non-negative index. *)
Definition index {A} (l : list A) (i : nat) : result A :=
  match l !! i with
  | Some a => Ok a
  | None => Raise IndexError
  end.

(** ** Binary64 *)

Module F64.

Definition prec : Z := 53.
Definition emax : Z := 1024.

Definition add : spec_float → spec_float → spec_float := SFadd prec emax.
Definition mul : spec_float → spec_float → spec_float := SFmul prec emax.
Definition div : spec_float → spec_float → spec_float := SFdiv prec emax.

(** The integer [n] rounded to the nearest double, ties to even. *)
Definition of_Z (n : Z) : spec_float := binary_normalize prec emax n 0 false.

(** An integer as an unrounded significand with exponent 0. *)
Definition raw (n : Z) : spec_float :=
  match n with
  | Z0 => S754_zero false
  | Zpos p => S754_finite false p 0
  | Zneg p => S754_finite true p 0
  end.

Definition is_zero (f : spec_float) : bool :=
  match f with S754_zero _ => true | _ => false end.

Definition zero : spec_float := S754_zero false.

(** The literal [1e-9]: 0x1.12e0be826d695p-30. *)
Definition lit_1e_9 : spec_float := S754_finite false 4835703278458517 (-82).

(** The literal [100.0]. *)
Definition lit_100 : spec_float := S754_finite false 7036874417766400 (-46).

(** The signed significand of a finite, non-zero double. *)
Definition signed (s : bool) (m : positive) : Z :=
  if s then Zneg m else Zpos m.

(** The number of binary digits of [q]. *)
Definition dig (q : positive) : Z := Zpos (digits2_pos q).

(** The normal double of sign [s] with the leading digits of [q] as its
    significand and a value in [2^(E-1), 2^E), for [q] of at most 53
    digits. *)
Definition norm (s : bool) (q : positive) (E : Z) : spec_float :=
  S754_finite s (Pos.shiftl_nat q (Z.to_nat (prec - dig q))) (E - prec).

(** The double of value [v / 2], for [|v| < 2^53]. *)
Definition half (v : Z) : spec_float :=
  match v with
  | Z0 => S754_zero false
  | Zpos q => norm false q (dig q - 1)
  | Zneg q => norm true q (dig q - 1)
  end.

End F64.

(** ** Python's numeric operations, as far as the program uses them *)

(** [float(n)] as done implicitly when an int meets a float. *)
Definition float_of_int (n : Z) : result spec_float :=
  match F64.of_Z n with
  | S754_infinity _ => Raise OverflowError
  | f => Ok f
  end.

(** [a / b] on floats. *)
Definition float_truediv (a b : spec_float) : result spec_float :=
  if F64.is_zero b then Raise ZeroDivisionError else Ok (F64.div a b).

(** [a / b] on ints: the correctly rounded quotient. *)
Definition int_truediv (a b : Z) : result spec_float :=
  if b =? 0 then Raise ZeroDivisionError
  else match F64.div (F64.raw a) (F64.raw b) with
       | S754_infinity _ => Raise OverflowError
       | f => Ok f
       end.

(** [x < f] for an int [x] and a float [f]: compared exactly. *)
Definition int_lt_float (x : Z) (f : spec_float) : bool :=
  match f with
  | S754_nan => false
  | S754_infinity s => negb s
  | S754_zero _ => x <? 0
  | S754_finite s m e =>
      if 0 <=? e then x <? F64.signed s m * 2 ^ e
      else x * 2 ^ (- e) <? F64.signed s m
  end.

(** [int(f)]: truncation towards zero. *)
Definition int_of_float (f : spec_float) : result Z :=
  match f with
  | S754_nan => Raise ValueError
  | S754_infinity _ => Raise OverflowError
  | S754_zero _ => Ok 0
  | S754_finite s m e =>
      Ok (if 0 <=? e then F64.signed s m * 2 ^ e
          else Z.quot (F64.signed s m) (2 ^ (- e)))
  end.

(** ** Points, polygons, zones *)

Abbreviation Point := (Z * Z)%type (only parsing).
Abbreviation Polygon := (list (Z * Z)) (only parsing).

Record Zone : Type := { name : string; points : Polygon }.

(** ** [inside_polygon] *)

(** [(x2 - x1) * (y - y1) / (y2 - y1 + 1e-9) + x1] *)
Definition xinters_of (x1 y1 x2 y2 y : Z) : result spec_float :=
  let num := (x2 - x1) * (y - y1) in
  dy ← float_of_int (y2 - y1);
  let den := F64.add dy F64.lit_1e_9 in
  fnum ← float_of_int num;
  q ← float_truediv fnum den;
  fx1 ← float_of_int x1;
  Ok (F64.add q fx1).

(** The body of the [for i in range(n)] loop. *)
Definition edge_body (pt : Point) (poly : Polygon) (n : nat)
    (inside : bool) (i : nat) : result bool :=
  let '(x, y) := pt in
  '(x1, y1) ← index poly i;
  '(x2, y2) ← index poly ((i + 1) mod n)%nat;
  if xorb (y1 >? y) (y2 >? y) then
    xinters ← xinters_of x1 y1 x2 y2 y;
    if int_lt_float x xinters then Ok (negb inside) else Ok inside
  else Ok inside.

Definition inside_polygon (pt : Point) (poly : Polygon) : result bool :=
  let n := length poly in
  if (n <? 3)%nat then Ok false
  else for_each (edge_body pt poly n) false (seq 0 n).

(** The ray-casting rule read edge by edge: the polygon's edges in order,
    the last one joining the last point to the first. *)
Definition edges (poly : Polygon) : list (Point * Point) :=
  zip poly (rotate 1 poly).

(** Does the edge toggle the flag for the query point? *)
Definition crosses (pt : Point) (e : Point * Point) : result bool :=
  let '(x, y) := pt in
  let '((x1, y1), (x2, y2)) := e in
  if xorb (y1 >? y) (y2 >? y) then
    xinters ← xinters_of x1 y1 x2 y2 y;
    Ok (int_lt_float x xinters)
  else Ok false.

Definition ray_casting (pt : Point) (poly : Polygon) : result bool :=
  for_each (λ inside e, t ← crosses pt e; Ok (xorb inside t)) false
    (edges poly).

Definition square10 : Polygon := [(0, 0); (10, 0); (10, 10); (0, 10)].

(** ** Detections and the occupancy tally *)

(** A detection is the tuple [(x, y, w, h, conf)].  The detectors hand out
    boxes of Python ints (YOLO) or of NumPy 32-bit ints (HOG); both are
    taken as Python ints, with which NumPy's arithmetic agrees as long as
    no result leaves the 32-bit range.  The sums [x + w] and [y + h] of
    [compute_motion_percent] can leave it, and wrap around in NumPy:
    [motion_value_int32] below. *)
Record Detection : Type :=
  { det_x : Z; det_y : Z; det_w : Z; det_h : Z; det_conf : spec_float }.

(** [(int(x + w / 2), int(y + h / 2))] *)
Definition centroid_of_bbox (x y w h : Z) : result Point :=
  half_w ← int_truediv w 2;
  fx ← float_of_int x;
  cx ← int_of_float (F64.add fx half_w);
  half_h ← int_truediv h 2;
  fy ← float_of_int y;
  cy ← int_of_float (F64.add fy half_h);
  Ok (cx, cy).

(** [{z.name: 0 for z in zones}] *)
Definition zero_counts (zones : list Zone) : gmap string Z :=
  foldl (λ counts z, <[name z := 0]> counts) ∅ zones.

(** [counts[k] += 1] *)
Definition increment (counts : gmap string Z) (k : string)
  : result (gmap string Z) :=
  match counts !! k with
  | Some c => Ok (<[k := c + 1]> counts)
  | None => Raise KeyError
  end.

(** The body of [for z in zones]. *)
Definition tally_zone (c : Point) (counts : gmap string Z) (z : Zone)
  : result (gmap string Z) :=
  b ← inside_polygon c (points z);
  if (b : bool) then increment counts (name z) else Ok counts.

(** The body of [for (x, y, w, h, conf) in detections]. *)
Definition tally_detection (zones : list Zone) (counts : gmap string Z)
    (d : Detection) : result (gmap string Z) :=
  c ← centroid_of_bbox (det_x d) (det_y d) (det_w d) (det_h d);
  for_each (tally_zone c) counts zones.

(** The "Zone counts" block of [main]. *)
Definition zone_counts (detections : list Detection) (zones : list Zone)
  : result (gmap string Z) :=
  for_each (tally_detection zones) (zero_counts zones) detections.

Definition square20 : Polygon := [(0, 0); (20, 0); (20, 20); (0, 20)].

(** The double 0.9 = 0x1.ccccccccccccdp-1. *)
Definition conf_0_9 : spec_float := S754_finite false 8106479329266893 (-53).

(** ** Motion percentage *)

(** The bound [i] of a slice over a sequence of length [n]: a negative
    bound counts from the end, and both are clamped to the sequence. *)
Definition slice_bound (n i : Z) : Z :=
  if i <? 0 then Z.max (i + n) 0 else Z.min i n.

(** [l[lo:hi]] *)
Definition slice {A} (lo hi : Z) (l : list A) : list A :=
  let n := Z.of_nat (length l) in
  let lo' := slice_bound n lo in
  let hi' := slice_bound n hi in
  take (Z.to_nat (hi' - lo')) (drop (Z.to_nat lo') l).

(** A single-channel 8-bit image, row by row. *)
Abbreviation Mask := (list (list Z)) (only parsing).

(** [mask[y1:y2, x1:x2]] *)
Definition slice2 (y1 y2 x1 x2 : Z) (mask : Mask) : Mask :=
  slice x1 x2 <$> slice y1 y2 mask.

(** [roi.size] *)
Definition size_of (roi : Mask) : Z := Z.of_nat (length (concat roi)).

(** [cv2.threshold(roi, thresh, maxval, cv2.THRESH_BINARY)] *)
Definition threshold_binary (thresh maxval : Z) (roi : Mask) : Mask :=
  (λ row : list Z, (λ v, if thresh <? v then maxval else 0) <$> row) <$> roi.

(** [np.count_nonzero(a)] *)
Definition count_nonzero (a : Mask) : Z :=
  Z.of_nat (length (filter (λ v, v ≠ 0) (concat a))).

(** The frame as the collaborators deliver it: [frame_gray.shape], the
    foreground mask returned by [bfg.apply(frame_gray)], and the detector's
    output. *)
Record Frame : Type :=
  { shape : Z * Z; fgmask : list (list Z); detections : list Detection }.

Section Motion.

(** [np.mean] on a non-empty list of floats. *)
Variable np_mean : list spec_float → spec_float.

(** The body of [for (x, y, w, h, _) in detections]: the value appended
    to [motion_values]. *)
Definition motion_value (shape : Z * Z) (fgmask : Mask) (motion_thresh : Z)
    (d : Detection) : result spec_float :=
  let x := det_x d in
  let y := det_y d in
  let w := det_w d in
  let h := det_h d in
  let x1 := Z.max 0 x in
  let y1 := Z.max 0 y in
  let x2 := Z.min (shape.2) (x + w) in
  let y2 := Z.min (shape.1) (y + h) in
  let roi := slice2 y1 y2 x1 x2 fgmask in
  if size_of roi =? 0 then Ok F64.zero
  else
    let thr := threshold_binary motion_thresh 255 roi in
    moving ← float_of_int (count_nonzero thr);
    total ← float_of_int (size_of roi);
    if int_lt_float 0 total
    then float_truediv (F64.mul F64.lit_100 moving) total
    else Ok F64.zero.

Definition compute_motion_percent (shape : Z * Z) (fgmask : Mask)
    (detections : list Detection) (motion_thresh : Z)
  : result (spec_float * list spec_float * Mask) :=
  motion_values ←
    for_each (λ vs d, v ← motion_value shape fgmask motion_thresh d;
                      Ok (vs ++ [v])) [] detections;
  let avg_motion :=
    match motion_values with
    | [] => F64.zero
    | _ => np_mean motion_values
    end in
  Ok (avg_motion, motion_values, fgmask).

End Motion.

(** ** Text *)

(** [str(n)] *)
Definition str (n : Z) : string := pretty n.

(** The nearest integer to [n / d], ties to even, for [0 < d]. *)
Definition round_half_even (n d : Z) : Z :=
  let q := n `div` d in
  let r := n `mod` d in
  match 2 * r ?= d with
  | Lt => q
  | Gt => q + 1
  | Eq => if Z.even q then q else q + 1
  end.

(** [f"{v:.2f}"] *)
Definition format_2f (v : spec_float) : string :=
  match v with
  | S754_nan => "nan"
  | S754_infinity s => if s then "-inf" else "inf"
  | S754_zero s => if s then "-0.00" else "0.00"
  | S754_finite s m e =>
      let hundredths :=
        if 0 <=? e then Zpos m * 100 * 2 ^ e
        else round_half_even (Zpos m * 100) (2 ^ (- e)) in
      let frac := hundredths `mod` 100 in
      (if s then "-" else EmptyString) +:+ str (hundredths `div` 100) +:+ "." +:+
      (if frac <? 10 then "0" else EmptyString) +:+ str frac
  end.

(** [",".join(fields) + "\n"]; a line is kept without its newline. *)
Definition join_comma (fields : list string) : string :=
  match fields with
  | [] => EmptyString
  | f :: fs => foldl (λ acc g, acc +:+ "," +:+ g) f fs
  end.

(** ** JSON documents and the file store *)

#[local] Unset Elimination Schemes.
Inductive json : Type :=
  | JNull
  | JBool (b : bool)
  | JInt (n : Z)
  | JFloat (f : spec_float)
  | JString (s : string)
  | JArray (items : list json)
  | JObject (fields : list (string * json)).
#[local] Set Elimination Schemes.

(** What a file holds as [json.load] reads it: the document that its text
    denotes, or text that is no JSON document.  [json.dump] writes the text
    of a document; the text layer itself belongs to the [json] module. *)
Inductive content : Type :=
  | Document (j : json)
  | NotJson.

(** The files by path, and the paths that [open(path, 'w')] refuses. *)
Record FS : Type :=
  { files : gmap string content; unwritable : gset string }.

Definition write_file (path : string) (c : content) (fs : FS) : FS :=
  {| files := <[path := c]> (files fs); unwritable := unwritable fs |}.

(** [d.get(k)] on the dict of a JSON object: the last binding of a
    repeated key is the one kept. *)
Definition dict_get (k : string) (fields : list (string * json))
  : option json :=
  snd <$> last (filter (λ kv, kv.1 = k) fields).

(** The keys of that dict, in insertion order. *)
Definition dict_keys (fields : list (string * json)) : list string :=
  reverse (remove_dups (reverse (fst <$> fields))).

(** [for v in j] on a loaded value: a list gives its items, a dict its
    keys, a string its characters; nothing else is iterable. *)
Definition iterate (j : json) : result (list json) :=
  match j with
  | JArray items => Ok items
  | JObject fields => Ok (JString <$> dict_keys fields)
  | JString s =>
      Ok ((λ c, JString (String c EmptyString)) <$> String.list_ascii_of_string s)
  | _ => Raise TypeError
  end.

(** [[f(i, x) for i, x in enumerate(xs)]], counting from [i]. *)
Fixpoint map_enumerate {A B} (f : Z → A → result B) (i : Z) (xs : list A)
  : result (list B) :=
  match xs with
  | [] => Ok []
  | x :: xs' => y ← f i x; ys ← map_enumerate f (i + 1) xs'; Ok (y :: ys)
  end.

(** [[f(x) for x in xs]] *)
Definition map_result {A B} (f : A → result B) (xs : list A)
  : result (list B) :=
  map_enumerate (λ _, f) 0 xs.

(** ** [save_zones] and [load_zones] *)

Definition json_of_point (p : Point) : json := JArray [JInt p.1; JInt p.2].

(** [{"name": z.name, "points": z.points}] *)
Definition json_of_zone (z : Zone) : json :=
  JObject [("name", JString (name z));
           ("points", JArray (json_of_point <$> points z))].

Definition save_zones (path : string) (zones : list Zone) (fs : FS)
  : result FS :=
  let data := JArray (json_of_zone <$> zones) in
  if decide (path ∈ unwritable fs) then Raise OSError
  else Ok (write_file path (Document data) fs).

(** The [Zone] object that [load_zones] builds: its fields hold what the
    document held, whatever that was. *)
Record LoadedZone : Type :=
  { loaded_name : json; loaded_points : list (list json) }.

(** [Zone(d.get("name", f"Zone {i+1}"), [tuple(p) for p in d["points"]])] *)
Definition load_zone (i : Z) (d : json) : result LoadedZone :=
  match d with
  | JObject fields =>
      let nm := default (JString ("Zone " +:+ pretty (i + 1)))
                        (dict_get "name" fields) in
      match dict_get "points" fields with
      | None => Raise KeyError
      | Some ps =>
          items ← iterate ps;
          tuples ← map_result iterate items;
          Ok {| loaded_name := nm; loaded_points := tuples |}
      end
  | _ => Raise AttributeError
  end.

Definition load_zones (path : string) (fs : FS) : result (list LoadedZone) :=
  match files fs !! path with
  | None => Ok []
  | Some NotJson => Raise JSONDecodeError
  | Some (Document data) =>
      ds ← iterate data;
      map_enumerate load_zone 0 ds
  end.

(** A loaded zone that is a [Zone] as declared: a [str] name and points
    that are pairs of ints. *)
Definition point_of (t : list json) : option Point :=
  match t with
  | [JInt x; JInt y] => Some (x, y)
  | _ => None
  end.

Definition zone_of (z : LoadedZone) : option Zone :=
  match loaded_name z with
  | JString s =>
      pts ← mapM point_of (loaded_points z);
      Some {| name := s; points := pts |}
  | _ => None
  end.

(** The persisted zone format in the specification's words: an ordered
    list of records, each with a string name (when it has one) and a list
    of [[x, y]] integer pairs. *)
Definition is_xy (j : json) : bool :=
  match j with
  | JArray [JInt _; JInt _] => true
  | _ => false
  end.

Definition is_zone_record (j : json) : bool :=
  match j with
  | JObject fields =>
      match dict_get "name" fields with
      | None | Some (JString _) => true
      | Some _ => false
      end
      && match dict_get "points" fields with
         | Some (JArray pts) => forallb is_xy pts
         | _ => false
         end
  | _ => false
  end.

Definition conforms (j : json) : bool :=
  match j with
  | JArray records => forallb is_zone_record records
  | _ => false
  end.

(** ** The control loop of [main] *)

(** The list objects that hold points live in a heap, by address: the list
    bound to [state["active"]] is mutated in place, and a zone keeps the
    address of its own list. *)
Record ZoneObj : Type := { zone_name : string; zone_points : nat }.

Record Args : Type :=
  { args_source : string;
    args_zones : string;
    args_csv : option string;
    args_bs_thresh : Z }.

Record State : Type :=
  { heap : list (list (Z * Z));
    zones : list ZoneObj;
    active : nat;
    zone_counter : Z;
    help_on : bool;
    paused : bool;
    frame_idx : Z;
    cap : list Frame;
    csv_f : option (list string);
    fs : FS;
    stdout : list string }.

Definition set_heap (h : list (list (Z * Z))) (st : State) : State :=
  {| heap := h; zones := zones st; active := active st;
     zone_counter := zone_counter st; help_on := help_on st;
     paused := paused st; frame_idx := frame_idx st; cap := cap st;
     csv_f := csv_f st; fs := fs st; stdout := stdout st |}.

Definition set_zones (zs : list ZoneObj) (st : State) : State :=
  {| heap := heap st; zones := zs; active := active st;
     zone_counter := zone_counter st; help_on := help_on st;
     paused := paused st; frame_idx := frame_idx st; cap := cap st;
     csv_f := csv_f st; fs := fs st; stdout := stdout st |}.

Definition set_zone_counter (n : Z) (st : State) : State :=
  {| heap := heap st; zones := zones st; active := active st;
     zone_counter := n; help_on := help_on st;
     paused := paused st; frame_idx := frame_idx st; cap := cap st;
     csv_f := csv_f st; fs := fs st; stdout := stdout st |}.

Definition set_help_on (b : bool) (st : State) : State :=
  {| heap := heap st; zones := zones st; active := active st;
     zone_counter := zone_counter st; help_on := b;
     paused := paused st; frame_idx := frame_idx st; cap := cap st;
     csv_f := csv_f st; fs := fs st; stdout := stdout st |}.

Definition set_paused (b : bool) (st : State) : State :=
  {| heap := heap st; zones := zones st; active := active st;
     zone_counter := zone_counter st; help_on := help_on st;
     paused := b; frame_idx := frame_idx st; cap := cap st;
     csv_f := csv_f st; fs := fs st; stdout := stdout st |}.

(** The end of a processed frame: the frame is consumed, the row (if any)
    is written, and [frame_idx += 1]. *)
Definition set_frame_done (rest : list Frame) (log : option (list string))
    (st : State) : State :=
  {| heap := heap st; zones := zones st; active := active st;
     zone_counter := zone_counter st; help_on := help_on st;
     paused := paused st; frame_idx := frame_idx st + 1; cap := rest;
     csv_f := log; fs := fs st; stdout := stdout st |}.

Definition set_fs (f : FS) (st : State) : State :=
  {| heap := heap st; zones := zones st; active := active st;
     zone_counter := zone_counter st; help_on := help_on st;
     paused := paused st; frame_idx := frame_idx st; cap := cap st;
     csv_f := csv_f st; fs := f; stdout := stdout st |}.

(** [print(...)] *)
Definition print (line : string) (st : State) : State :=
  {| heap := heap st; zones := zones st; active := active st;
     zone_counter := zone_counter st; help_on := help_on st;
     paused := paused st; frame_idx := frame_idx st; cap := cap st;
     csv_f := csv_f st; fs := fs st; stdout := stdout st ++ [line] |}.

(** How one step of [main] ends: the loop goes on, the loop was left and
    [main] returned, an exception left [main], or a zone file was loaded
    whose zones are not [Zone]s as declared (no exception is raised there;
    what follows is outside this model). *)
Inductive outcome : Type :=
  | Running (st : State)
  | Finished (st : State)
  | Crashed (e : exn)
  | IllTyped.

(** The zone as the program reads it through the object's fields. *)
Definition zone_at (h : list (list (Z * Z))) (z : ZoneObj) : Zone :=
  {| name := zone_name z; points := h !!! zone_points z |}.

Definition zones_of (st : State) : list Zone := zone_at (heap st) <$> zones st.

(** [state["active"]] *)
Definition active_poly (st : State) : list (Z * Z) := heap st !!! active st.

(** New [Zone] objects, each with a list of its own. *)
Definition alloc_zones (h : list (list (Z * Z))) (zs : list Zone)
  : list (list (Z * Z)) * list ZoneObj :=
  (h ++ (points <$> zs),
   imap (λ i z, {| zone_name := name z; zone_points := length h + i |}) zs).

(** A mouse event [(event, x, y)] handed to the callback. *)
Record MouseEvent : Type := { mouse_event : Z; mouse_x : Z; mouse_y : Z }.

Definition EVENT_LBUTTONDOWN : Z := 1.

Definition on_mouse (st : State) (m : MouseEvent) : State :=
  if mouse_event m =? EVENT_LBUTTONDOWN
  then set_heap (<[active st := active_poly st ++ [(mouse_x m, mouse_y m)]]>
                   (heap st)) st
  else st.

Definition ord (c : Ascii.ascii) : Z := Z.of_N (Ascii.N_of_ascii c).
Arguments ord c%_char.

(** The header line and a row of the CSV log. *)
Definition csv_header (zs : list Zone) : string :=
  join_comma (["frame"; "count_total"; "avg_motion"] ++ (name <$> zs)).

Definition csv_row (frame_idx n_detections : Z) (avg_motion : spec_float)
    (counts : gmap string Z) (zs : list Zone) : string :=
  join_comma ([str frame_idx; str n_detections; format_2f avg_motion] ++
              ((λ z, str (default 0 (counts !! name z))) <$> zs)).

Section Main.

Variable np_mean : list spec_float → spec_float.

(** The [if not paused:] block without its drawing calls, which leave the
    state alone; [process_frame_drawn] below has them, and an exception of
    theirs leaves [main].  The OSC sends leave the state alone too, and a
    failed send is swallowed. *)
Definition process_frame (args : Args) (st : State) : outcome :=
  match cap st with
  | [] => Finished st
  | frame :: rest =>
      match compute_motion_percent np_mean (shape frame) (fgmask frame)
              (detections frame) (args_bs_thresh args) with
      | Raise e => Crashed e
      | Ok (avg_motion, _, _) =>
          match zone_counts (detections frame) (zones_of st) with
          | Raise e => Crashed e
          | Ok counts_per_zone =>
              let row := csv_row (frame_idx st)
                           (Z.of_nat (length (detections frame)))
                           avg_motion counts_per_zone (zones_of st) in
              Running (set_frame_done rest
                         ((λ lines, lines ++ [row]) <$> csv_f st) st)
          end
      end
  end.

(** The [if key ... elif ...] chain. *)
Definition handle_key (args : Args) (st : State) (key : Z) : outcome :=
  if (key =? ord "q") || (key =? 27) then Finished st
  else if key =? ord "h" then Running (set_help_on (negb (help_on st)) st)
  else if key =? ord "p" then Running (set_paused (negb (paused st)) st)
  else if key =? ord "z" then
    if (0 <? length (active_poly st))%nat
    then Running (set_heap (<[active st := removelast (active_poly st)]>
                              (heap st)) st)
    else Running st
  else if key =? ord "n" then
    let st :=
      if (3 <=? length (active_poly st))%nat then
        let n := zone_counter st + 1 in
        let copy := length (heap st) in
        set_zones (zones st ++ [{| zone_name := "Zone " +:+ pretty n;
                                   zone_points := copy |}])
          (set_heap (heap st ++ [active_poly st])
             (set_zone_counter n st))
      else st in
    Running (set_heap (<[active st := []]> (heap st)) st)
  else if key =? ord "s" then
    match save_zones (args_zones args) (zones_of st) (fs st) with
    | Raise e => Crashed e
    | Ok fs' =>
        Running (print ("Saved zones to " +:+ args_zones args)
                   (set_fs fs' st))
    end
  else if key =? ord "l" then
    match load_zones (args_zones args) (fs st) with
    | Raise e => Crashed e
    | Ok loaded =>
        match mapM zone_of loaded with
        | None => IllTyped
        | Some zs =>
            let '(h, objs) := alloc_zones (heap st) zs in
            Running (print ("Loaded " +:+ str (Z.of_nat (length zs)) +:+
                            " zones from " +:+ args_zones args)
                       (set_zones objs (set_heap h st)))
        end
    end
  else Running st.

(** What one pass of [while True] meets: the mouse events delivered while
    [cv2.waitKey(1)] runs, and its return value. *)
Record Poll : Type := { mouse : list MouseEvent; wait_key : Z }.

Definition iteration (args : Args) (st : State) (p : Poll) : outcome :=
  match (if paused st then Running st else process_frame args st) with
  | Running st =>
      handle_key args (foldl on_mouse st (mouse p))
        (Z.land (wait_key p) 255)
  | o => o
  end.

Fixpoint main_loop (args : Args) (st : State) (polls : list Poll)
  : outcome :=
  match polls with
  | [] => Running st
  | p :: polls' =>
      match iteration args st p with
      | Running st' => main_loop args st' polls'
      | o => o
      end
  end.

End Main.

(** [main] up to the loop: [opened] is [cap.isOpened()], [frames] what the
    source will deliver.  [if args.csv:] skips an empty path. *)
Definition start (args : Args) (opened : bool) (frames : list Frame)
    (fs0 : FS) : outcome :=
  let st0 :=
    {| heap := [[]]; zones := []; active := 0%nat; zone_counter := 0;
       help_on := true; paused := false; frame_idx := 0; cap := frames;
       csv_f := None; fs := fs0; stdout := [] |} in
  if negb opened
  then Finished (print ("Failed to open source " +:+ args_source args) st0)
  else
    match load_zones (args_zones args) fs0 with
    | Raise e => Crashed e
    | Ok loaded =>
        match mapM zone_of loaded with
        | None => IllTyped
        | Some zs =>
            let '(h, objs) := alloc_zones [] zs in
            let st :=
              {| heap := h ++ [[]]; zones := objs; active := length h;
                 zone_counter := Z.of_nat (length zs);
                 help_on := true; paused := false; frame_idx := 0;
                 cap := frames; csv_f := None; fs := fs0; stdout := [] |} in
            match args_csv args with
            | None | Some EmptyString => Running st
            | Some path =>
                if decide (path ∈ unwritable fs0) then Crashed OSError
                else
                  Running
                    {| heap := heap st; zones := zones st;
                       active := active st;
                       zone_counter := zone_counter st;
                       help_on := help_on st; paused := paused st;
                       frame_idx := frame_idx st; cap := cap st;
                       csv_f := Some [csv_header zs];
                       fs := fs st; stdout := stdout st |}
            end
        end
    end.

(** ** Relations used in the statements *)

(** Two calls end alike: both return, with related values, or both raise
    the same exception. *)
Definition alike {A} (R : A → A → Prop) (r1 r2 : result A) : Prop :=
  match r1, r2 with
  | Ok a1, Ok a2 => R a1 a2
  | Raise e1, Raise e2 => e1 = e2
  | _, _ => False
  end.

(** Two tallies agree on the names of [zs]. *)
Definition agree_on (zs : list Zone) (m1 m2 : gmap string Z) : Prop :=
  ∀ z, z ∈ zs → m1 !! name z = m2 !! name z.

(** Two tallies agree away from the key [k], which the second one has. *)
Definition agree_off (k : string) (m1 m2 : gmap string Z) : Prop :=
  (∀ n, n ≠ k → m1 !! n = m2 !! n) ∧ is_Some (m2 !! k).

(** The point-in-polygon test of zone [z] returns on the centroid of every
    detection. *)
Definition test_returns (z : Zone) (d : Detection) : Prop :=
  match centroid_of_bbox (det_x d) (det_y d) (det_w d) (det_h d) with
  | Ok c => returns (inside_polygon c (points z)) = true
  | Raise _ => True
  end.

Definition tests_return (detections : list Detection) (z : Zone) : Prop :=
  Forall (test_returns z) detections.

(** Coordinates in the range of pixels: points below 2^25 and boxes below
    2^24 in absolute value. *)
Definition pixel_point (p : Z * Z) : Prop :=
  Z.abs p.1 < 2 ^ 25 ∧ Z.abs p.2 < 2 ^ 25.

Definition pixel_box (d : Detection) : Prop :=
  Z.abs (det_x d) < 2 ^ 24 ∧ Z.abs (det_y d) < 2 ^ 24
  ∧ Z.abs (det_w d) < 2 ^ 24 ∧ Z.abs (det_h d) < 2 ^ 24.

(** Appending [z] leaves the count of every zone of [zones] as it was. *)
Definition count_unchanged (detections : list Detection)
    (zones : list Zone) (z : Zone) : Prop :=
  ∀ m m', zone_counts detections zones = Ok m →
          zone_counts detections (zones ++ [z]) = Ok m' →
          agree_on zones m m'.

(** ** Inputs of the worked examples *)

Definition det_0_0_10_10 : Detection :=
  {| det_x := 0; det_y := 0; det_w := 10; det_h := 10; det_conf := conf_0_9 |}.

Definition zone_A : Zone := {| name := "A"; points := square20 |}.
Definition zone_A' : Zone := {| name := "A"; points := square10 |}.
Definition zone_B : Zone := {| name := "B"; points := square10 |}.

(** A 4 x 4 mask with every pixel moving, and a box left of the frame. *)
Definition mask_4x4 : list (list Z) := replicate 4 (replicate 4 255).

Definition det_left_of_frame : Detection :=
  {| det_x := -3; det_y := 0; det_w := 2; det_h := 2; det_conf := conf_0_9 |}.

(** The [Zone] object that [load_zones] builds from the record that
    [save_zones] wrote for [z]. *)
Definition loaded_of (z : Zone) : LoadedZone :=
  {| loaded_name := JString (name z);
     loaded_points := (λ p : Z * Z, [JInt p.1; JInt p.2]) <$> points z |}.

Definition fs_empty : FS := {| files := ∅; unwritable := ∅ |}.

(** ** The zone editor, in the specification's terms *)

(** The heap is well formed: the active list and the zones' lists are
    allocated, and no zone holds the active list. *)
Definition wf (st : State) : Prop :=
  (active st < length (heap st))%nat
  ∧ Forall (λ z, (zone_points z < length (heap st))%nat
                 ∧ zone_points z ≠ active st) (zones st).

(** [AddPoint(p)]: a left click at [p]. *)
Definition add_point (st : State) (p : Z * Z) : State :=
  on_mouse st {| mouse_event := EVENT_LBUTTONDOWN;
                 mouse_x := p.1; mouse_y := p.2 |}.

(** The name a zone gets when it is finalized in state [st]. *)
Definition default_name (st : State) : string :=
  "Zone " +:+ pretty (zone_counter st + 1).

(** A run without a zone file and without a CSV log, right after start. *)
Definition args_plain : Args :=
  {| args_source := "0"; args_zones := "zones.json"; args_csv := None;
     args_bs_thresh := 25 |}.

Definition st_plain : State :=
  {| heap := [[]]; zones := []; active := 0%nat; zone_counter := 0;
     help_on := true; paused := false; frame_idx := 0; cap := [];
     csv_f := None; fs := fs_empty; stdout := [] |}.

(** ** Loading, in the specification's terms *)

(** A zone file that does not parse, or that breaks the persisted format. *)
Definition malformed (path : string) (fs0 : FS) : Prop :=
  files fs0 !! path = Some NotJson
  ∨ ∃ j, files fs0 !! path = Some (Document j) ∧ conforms j = false.

(** Loading a malformed file fails. *)
Definition load_rejects (path : string) (fs0 : FS) : Prop :=
  malformed path fs0 → ∃ e, load_zones path fs0 = Raise e.

(** At the [l] key a malformed file leaves the loop running, with no zone. *)
Definition load_tolerated (args : Args) (st : State) : Prop :=
  malformed (args_zones args) (fs st) →
  ∃ st', handle_key args st (ord "l") = Running st' ∧ zones st' = [].

(** A file that is no JSON document, and a file whose only record has a
    number for a name. *)
Definition fs_not_json : FS :=
  {| files := {[ "zones.json" := NotJson ]}; unwritable := ∅ |}.

Definition numbered_record : json :=
  JObject [("name", JInt 5);
           ("points", JArray [JArray [JInt 0; JInt 0]; JArray [JInt 4; JInt 0];
                              JArray [JInt 4; JInt 4]])].

Definition fs_numbered : FS :=
  {| files := {[ "zones.json" := Document (JArray [numbered_record]) ]};
     unwritable := ∅ |}.

(** A file whose record has no point list. *)
Definition fs_no_points : FS :=
  {| files := {[ "zones.json" :=
                   Document (JArray [JObject [("name", JString "A")]]) ]};
     unwritable := ∅ |}.

Definition with_fs (fs0 : FS) : State := set_fs fs0 st_plain.

(** A zone file whose only zone is named "Zone 2". *)
Definition fs_zone_2 : FS :=
  {| files := {[ "zones.json" :=
       Document (JArray [json_of_zone {| name := "Zone 2";
                                         points := square10 |}]) ]};
     unwritable := ∅ |}.

Definition file_of (j : json) : FS :=
  {| files := {[ "zones.json" := Document j ]}; unwritable := ∅ |}.

(** ** The CSV log, in the specification's terms *)

(** The state in which a step left [main], when no exception did. *)
Definition state_of (o : outcome) : option State :=
  match o with
  | Running st | Finished st => Some st
  | _ => None
  end.

Definition log_of (o : outcome) : option (list string) :=
  st ← state_of o; csv_f st.

(** The mean of runs in which no frame has a detection: never called. *)
Definition mean_unused : list spec_float → spec_float := λ _, F64.zero.

(** The number of comma-separated columns of a line. *)
Definition columns (line : string) : nat :=
  S (length (filter (λ c, c = ","%char) (String.list_ascii_of_string line))).

(** Every line of the log has the columns of the header written when the
    log was opened. *)
Definition log_columns_fixed (np_mean : list spec_float → spec_float)
    (args : Args) (frames : list Frame) (fs0 : FS) (polls : list Poll)
  : Prop :=
  ∀ st0 lines,
    start args true frames fs0 = Running st0 →
    log_of (main_loop np_mean args st0 polls) = Some lines →
    Forall (λ line, columns line = columns (csv_header (zones_of st0))) lines.

(** A run that logs to [log.csv], two frames without detections, and a
    zone drawn after the first frame. *)
Definition args_logging : Args :=
  {| args_source := "0"; args_zones := "zones.json";
     args_csv := Some "log.csv"; args_bs_thresh := 25 |}.

Definition empty_frame : Frame :=
  {| shape := (4, 4); fgmask := mask_4x4; detections := [] |}.

Definition st_logging : State :=
  {| heap := [[]]; zones := []; active := 0%nat; zone_counter := 0;
     help_on := true; paused := false; frame_idx := 0;
     cap := [empty_frame; empty_frame];
     csv_f := Some ["frame,count_total,avg_motion"];
     fs := fs_empty; stdout := [] |}.

Definition click (x y : Z) : MouseEvent :=
  {| mouse_event := EVENT_LBUTTONDOWN; mouse_x := x; mouse_y := y |}.

Definition polls_draw_zone : list Poll :=
  [ {| mouse := [click 0 0; click 4 0; click 4 4]; wait_key := ord "n" |};
    {| mouse := []; wait_key := -1 |} ].

(** ** The detectors *)

(** The literal [1.0]. *)
Definition lit_1 : spec_float := S754_finite false 4503599627370496 (-52).

(** [detect_people_hog], from what [hog.detectMultiScale] returned: the
    rectangles and their weights.  [i] counts the rectangles already
    seen. *)
Fixpoint hog_picks (weights : list spec_float) (i : nat)
    (rects : list (Z * Z * Z * Z)) (picks : list Detection)
  : result (list Detection) :=
  match rects with
  | [] => Ok picks
  | (x, y, w, h) :: rects' =>
      conf ← (if (i <? length weights)%nat then index weights i
              else Ok lit_1);
      hog_picks weights (S i) rects'
        (picks ++ [{| det_x := x; det_y := y; det_w := w; det_h := h;
                      det_conf := conf |}])
  end.

Definition detect_people_hog (rects : list (Z * Z * Z * Z))
    (weights : list spec_float) : result (list Detection) :=
  hog_picks weights 0 rects [].

(** Binary32, the element type of the arrays that YOLO hands out. *)
Module F32.

Definition prec : Z := 24.
Definition emax : Z := 128.

(** [a - b] *)
Definition sub : spec_float → spec_float → spec_float := SFsub prec emax.

(** [float(c)]: the same number as a double. *)
Definition widen (c : spec_float) : spec_float :=
  match c with
  | S754_finite s m e =>
      binary_normalize F64.prec F64.emax (cond_Zopp s (Zpos m)) e false
  | _ => c
  end.

End F32.

(** [r.boxes] of a YOLO result: the attributes [xyxy], [conf] and [cls],
    each of which may be missing. *)
Record Boxes : Type :=
  { xyxy : option (list (spec_float * spec_float * spec_float * spec_float));
    conf : option (list spec_float);
    cls : option (list spec_float) }.

Record YoloResult : Type := { boxes : option Boxes }.

(** The body of the loop over the zipped rows: [None] stands for
    [continue]. *)
Definition yolo_row
    (row : spec_float * spec_float * spec_float * spec_float
           * spec_float * spec_float) : result (option Detection) :=
  let '(x1, y1, x2, y2, c, k) := row in
  k' ← int_of_float k;
  if negb (k' =? 0) then Ok None
  else
    x ← int_of_float x1;
    y ← int_of_float y1;
    w ← int_of_float (F32.sub x2 x1);
    h ← int_of_float (F32.sub y2 y1);
    Ok (Some {| det_x := x; det_y := y; det_w := w; det_h := h;
                det_conf := F32.widen c |}).

(** [zip(xyxy, confs, clss)] *)
Definition yolo_rows (b : Boxes)
  : list (spec_float * spec_float * spec_float * spec_float
          * spec_float * spec_float) :=
  zip_with (λ '(xy, c) k, (xy, c, k))
    (zip (default [] (xyxy b)) (default [] (conf b)))
    (default [] (cls b)).

(** [detect_people_yolo], from what [model.predict] returned. *)
Definition detect_people_yolo (results : list YoloResult)
  : result (list Detection) :=
  match results with
  | [] => Ok []
  | r :: _ =>
      match boxes r with
      | None => Ok []
      | Some b =>
          for_each (λ dets row,
                      d ← yolo_row row;
                      Ok (match d with
                          | Some d => dets ++ [d]
                          | None => dets
                          end)) [] (yolo_rows b)
      end
  end.

(** ** [main] as a whole *)

(** [main]: the set-up, then the loop over what the polls deliver. *)
Definition main (np_mean : list spec_float → spec_float) (args : Args)
    (opened : bool) (frames : list Frame) (fs0 : FS) (polls : list Poll)
  : outcome :=
  match start args opened frames fs0 with
  | Running st0 => main_loop np_mean args st0 polls
  | o => o
  end.

(** [cv2.waitKey(1) & 0xFF] *)
Definition key_of (p : Poll) : Z := Z.land (wait_key p) 255.

(** ** Notions used in the further properties *)

(** Doubles that are not numbers, and those that are zero or finite. *)
Definition is_nan (f : spec_float) : bool :=
  match f with S754_nan => true | _ => false end.

Definition is_number (f : spec_float) : bool :=
  match f with S754_zero _ | S754_finite _ _ _ => true | _ => false end.

(** How a call ends: with a value that satisfies [P], or with an exception
    that satisfies [Q]. *)
Definition ends {A} (P : A → Prop) (Q : exn → Prop) (r : result A) : Prop :=
  match r with Ok a => P a | Raise e => Q e end.

(** The tally has a count for every zone name, all along. *)
Definition counts_all (zones : list Zone) (counts : gmap string Z) : Prop :=
  ∀ n, is_Some (counts !! n) ↔ n ∈ name <$> zones.

(** A mask of [h] rows of [w] pixels each. *)
Definition well_shaped (sh : Z * Z) (mask : list (list Z)) : Prop :=
  Z.of_nat (length mask) = sh.1
  ∧ Forall (λ row, Z.of_nat (length row) = sh.2) mask.

(** [mask[i][j]] *)
Definition pixel (mask : list (list Z)) (i j : nat) : option Z :=
  row ← mask !! i; row !! j.

(** No pixel of the mask is above the threshold. *)
Definition still (thresh : Z) (mask : list (list Z)) : Prop :=
  Forall (Forall (λ v, v ≤ thresh)) mask.

(** The centroid of a detection's box. *)
Definition centroid (d : Detection) : result (Z * Z) :=
  centroid_of_bbox (det_x d) (det_y d) (det_w d) (det_h d).

(** The zone holds the point: its test returns [True]. *)
Definition holds (c : Z * Z) (z : Zone) : bool :=
  match inside_polygon c (points z) with Ok b => b | Raise _ => false end.

(** The number of zones named [n] that hold the point. *)
Definition hits (n : string) (zones : list Zone) (c : Z * Z) : Z :=
  Z.of_nat (length (filter (λ z, name z = n ∧ holds c z = true) zones)).

(** The number of pairs of a detection and a zone named [n] that holds the
    detection's centroid. *)
Definition occupancy (n : string) (detections : list Detection)
    (zones : list Zone) : Z :=
  foldr (λ d acc, match centroid d with
                  | Ok c => hits n zones c + acc
                  | Raise _ => acc
                  end) 0 detections.

(** Every centroid is computed and every test on it returns. *)
Definition all_return (detections : list Detection) (zones : list Zone)
  : Prop :=
  ∀ d, d ∈ detections →
    ∃ c, centroid d = Ok c
         ∧ ∀ z, z ∈ zones → ∃ b, inside_polygon c (points z) = Ok b.

(** The box of a detection, without its confidence. *)
Definition box (d : Detection) : Z * Z * Z * Z :=
  (det_x d, det_y d, det_w d, det_h d).

(** The axis-aligned rectangle with corners [(a, b)] and [(c, d)], as the
    editor stores it when its corners are clicked in turn. *)
Definition rectangle (a b c d : Z) : list (Z * Z) :=
  [(a, b); (c, b); (c, d); (a, d)].

(** The edge toggles the flag: its test returns [True]. *)
Definition toggles (pt : Z * Z) (e : (Z * Z) * (Z * Z)) : bool :=
  match crosses pt e with Ok t => t | Raise _ => false end.

(** The rows of class 0 (person). *)
Definition person_row
    (row : spec_float * spec_float * spec_float * spec_float
           * spec_float * spec_float) : bool :=
  match int_of_float row.2 with Ok k => k =? 0 | Raise _ => false end.

(** The points that the left clicks among the events append. *)
Definition clicked (ms : list MouseEvent) : list (Z * Z) :=
  (λ m, (mouse_x m, mouse_y m))
    <$> filter (λ m, mouse_event m = EVENT_LBUTTONDOWN) ms.

(** Frames, zones and clicks in the range of pixels. *)
Definition pixel_frame (f : Frame) : Prop :=
  size_of (fgmask f) < 2 ^ 52 ∧ Forall pixel_box (detections f).

Definition pixel_zone (z : Zone) : Prop := Forall pixel_point (points z).

Definition pixel_state (st : State) : Prop :=
  Forall pixel_point (active_poly st)
  ∧ Forall pixel_zone (zones_of st)
  ∧ Forall pixel_frame (cap st).

Definition pixel_poll (p : Poll) : Prop := Forall pixel_point (clicked (mouse p)).

(** A record of the zone file without a name. *)
Definition nameless_record (pts : list (Z * Z)) : json :=
  JObject [("points", JArray (json_of_point <$> pts))].

(** The tally gives every zone name its occupancy. *)
Definition tallies_occupancy (detections : list Detection)
    (zones : list Zone) : Prop :=
  ∃ m, zone_counts detections zones = Ok m
       ∧ ∀ n, m !! n = if decide (n ∈ name <$> zones)
                       then Some (occupancy n detections zones) else None.

(** ** Inputs of further examples *)

(** A triangle with a vertex too far away for a float, and a box there. *)
Definition far_polygon : list (Z * Z) := [(0, -1); (0, 2 ^ 1024); (1, 0)].

Definition det_far : Detection :=
  {| det_x := 2 ^ 1024; det_y := 0; det_w := 10; det_h := 10;
     det_conf := conf_0_9 |}.

(** A box inside the 4 x 4 frame, and a mask without motion. *)
Definition det_1_1_2_2 : Detection :=
  {| det_x := 1; det_y := 1; det_w := 2; det_h := 2; det_conf := conf_0_9 |}.

Definition mask_still : list (list Z) := replicate 4 (replicate 4 0).

(** Binary32 values: 10.0, 50.5, 1.0 and 0.9 rounded to single
    precision. *)
Definition f32_10 : spec_float := S754_finite false 10485760 (-20).
Definition f32_50_5 : spec_float := S754_finite false 13238272 (-18).
Definition f32_1 : spec_float := S754_finite false 8388608 (-23).
Definition f32_0_9 : spec_float := S754_finite false 15099494 (-24).

(** A result with a person box (class 0) and a box of class 1, and with
    one confidence more than there are boxes. *)
Definition yolo_example : YoloResult :=
  {| boxes := Some
       {| xyxy := Some [(f32_10, f32_10, f32_50_5, f32_50_5);
                        (F64.zero, F64.zero, f32_10, f32_10)];
          conf := Some [f32_0_9; f32_0_9; f32_0_9];
          cls := Some [F64.zero; f32_1] |} |}.

(** ** The ray-casting rule, with its formula written out *)

(** The ray-casting rule with the intersection written out, in doubles:
    [(x2 - x1) * (y - y1) / (y2 - y1 + 1e-9) + x1], each operation rounded
    to nearest. *)
Definition xinters_formula (x1 y1 x2 y2 y : Z) : spec_float :=
  F64.add (F64.div (F64.of_Z ((x2 - x1) * (y - y1)))
                   (F64.add (F64.of_Z (y2 - y1)) F64.lit_1e_9))
          (F64.of_Z x1).

(** The edge is considered, [(y1 > y) != (y2 > y)], and [x] is strictly
    below the intersection. *)
Definition toggles_by_rule (pt : Z * Z) (e : (Z * Z) * (Z * Z)) : bool :=
  let '(x, y) := pt in
  let '((x1, y1), (x2, y2)) := e in
  xorb (y1 >? y) (y2 >? y) && int_lt_float x (xinters_formula x1 y1 x2 y2 y).

Definition ray_casting_rule (pt : Z * Z) (poly : list (Z * Z)) : bool :=
  foldl (λ inside e, if toggles_by_rule pt e then negb inside else inside)
    false (edges poly).

(** A triangle with a slanted edge, from (10,0) to (0,10). *)
Definition triangle10 : list (Z * Z) := [(10, 0); (0, 10); (10, 10)].

(** The double 0x1.4000000089706p+2, the intersection of that edge with
    the line [y = 5]: 5.0000000005 to ten places. *)
Definition xinters_slanted : spec_float :=
  S754_finite false 5629499534776070 (-50).

(** ** NumPy's 32-bit integers *)

(** The value that NumPy's [int32] arithmetic gives for the integer [n]:
    it wraps around. *)
Definition int32 (n : Z) : Z := (n + 2 ^ 31) `mod` 2 ^ 32 - 2 ^ 31.

(** [motion_value] on a box of HOG, whose fields are NumPy [int32]: the
    sums [x + w] and [y + h] wrap around; everything else is as for Python
    ints. *)
Definition motion_value_int32 (shape : Z * Z) (fgmask : list (list Z))
    (motion_thresh : Z) (d : Detection) : result spec_float :=
  let x := det_x d in
  let y := det_y d in
  let w := det_w d in
  let h := det_h d in
  let x1 := Z.max 0 x in
  let y1 := Z.max 0 y in
  let x2 := Z.min (shape.2) (int32 (x + w)) in
  let y2 := Z.min (shape.1) (int32 (y + h)) in
  let roi := slice2 y1 y2 x1 x2 fgmask in
  if size_of roi =? 0 then Ok F64.zero
  else
    let thr := threshold_binary motion_thresh 255 roi in
    moving ← float_of_int (count_nonzero thr);
    total ← float_of_int (size_of roi);
    if int_lt_float 0 total
    then float_truediv (F64.mul F64.lit_100 moving) total
    else Ok F64.zero.

(** A box whose sum [x + w] leaves the 32-bit range. *)
Definition det_wrapping : Detection :=
  {| det_x := 1; det_y := 0; det_w := 2 ^ 31 - 1; det_h := 2;
     det_conf := conf_0_9 |}.

(** ** Drawing *)

(** The OpenCV calls that draw, by the arguments that the program hands
    them: [cv2.polylines] on [np.array(points, dtype=np.int32)] with its
    [isClosed] flag, [cv2.circle] by its centre, [cv2.putText] by its text
    and position, [cv2.rectangle] by its corners.  What they raise, if
    anything, is theirs; the image they draw on is not modelled, nor are
    the calls that act on the image alone ([copy], [addWeighted],
    [imshow]). *)
Record Canvas : Type :=
  { cv2_polylines : list (Z * Z) → bool → result unit;
    cv2_circle : Z * Z → result unit;
    cv2_putText : string → Z * Z → result unit;
    cv2_rectangle : Z * Z → Z * Z → result unit }.

(** [f"{v:.1f}"] *)
Definition format_1f (v : spec_float) : string :=
  match v with
  | S754_nan => "nan"
  | S754_infinity s => if s then "-inf" else "inf"
  | S754_zero s => if s then "-0.0" else "0.0"
  | S754_finite s m e =>
      let tenths :=
        if 0 <=? e then Zpos m * 10 * 2 ^ e
        else round_half_even (Zpos m * 10) (2 ^ (- e)) in
      (if s then "-" else EmptyString) +:+ str (tenths `div` 10) +:+ "." +:+
      str (tenths `mod` 10)
  end.

(** [enumerate(xs)] *)
Definition enumerate {A} (xs : list A) : list (nat * A) :=
  imap (λ i x, (i, x)) xs.

(** [z.points[0] if z.points else (10, 20 + 20*idx)] *)
Definition label_pos (z : Zone) (idx : nat) : Z * Z :=
  match points z with
  | p :: _ => p
  | [] => (10, 20 + 20 * Z.of_nat idx)
  end.

(** [for p in points: cv2.circle(overlay, p, 3, color, -1)] *)
Definition draw_circles (cv : Canvas) (pts : list (Z * Z)) : result unit :=
  for_each (λ _ p, cv2_circle cv p) tt pts.

(** The body of [for idx, z in enumerate(zones)] in [draw_zones]. *)
Definition draw_zone (cv : Canvas) (idx : nat) (z : Zone) : result unit :=
  _ ← (if (2 <=? length (points z))%nat
       then cv2_polylines cv (points z) true else Ok tt);
  _ ← draw_circles cv (points z);
  cv2_putText cv (name z) (label_pos z idx).

Definition draw_zones (cv : Canvas) (zones : list Zone)
    (active : option (list (Z * Z))) : result unit :=
  _ ← for_each (λ _ iz, draw_zone cv iz.1 iz.2) tt (enumerate zones);
  match active with
  | Some pts =>
      if (0 <? length pts)%nat
      then _ ← cv2_polylines cv pts false; draw_circles cv pts
      else Ok tt
  | None => Ok tt
  end.

Definition help_lines : list string :=
  ["Keys:"; "h: toggle help"; "mouse: add point"; "n: new zone";
   "z: undo point"; "s: save zones"; "l: load zones"; "p: pause";
   "q/ESC: quit"].

Definition overlay_info (cv : Canvas) (detections : list Detection)
    (avg_motion : spec_float) (zones : list Zone)
    (counts_per_zone : gmap string Z) (help_on : bool) : result unit :=
  _ ← for_each (λ _ d,
        _ ← cv2_rectangle cv (det_x d, det_y d)
              (det_x d + det_w d, det_y d + det_h d);
        cv2_putText cv (format_2f (det_conf d)) (det_x d, det_y d - 5))
      tt detections;
  _ ← draw_zones cv zones None;
  _ ← for_each (λ _ iz,
        let cnt := default 0 (counts_per_zone !! name iz.2) in
        cv2_putText cv (name iz.2 +:+ ": " +:+ str cnt) (label_pos iz.2 iz.1))
      tt (enumerate zones);
  _ ← cv2_putText cv ("Avg motion: " +:+ format_1f avg_motion +:+ "%") (10, 25);
  if help_on then
    _ ← for_each (λ y ln, _ ← cv2_putText cv ln (10, y); Ok (y + 22))
          50 help_lines;
    Ok tt
  else Ok tt.

(** The drawing calls of a pass of [main]: [overlay_info], then
    [draw_zones] on the active polygon when it has a point. *)
Definition draw_frame (cv : Canvas) (detections : list Detection)
    (avg_motion : spec_float) (counts_per_zone : gmap string Z)
    (st : State) : result unit :=
  _ ← overlay_info cv detections avg_motion (zones_of st) counts_per_zone
        (help_on st);
  if (0 <? length (active_poly st))%nat
  then draw_zones cv [] (Some (active_poly st))
  else Ok tt.

Section Drawn.

Variable np_mean : list spec_float → spec_float.
Variable cv : Canvas.

(** The [if not paused:] block with its drawing calls: an exception of
    theirs leaves [main] before the row is written. *)
Definition process_frame_drawn (args : Args) (st : State) : outcome :=
  match cap st with
  | [] => Finished st
  | frame :: rest =>
      match compute_motion_percent np_mean (shape frame) (fgmask frame)
              (detections frame) (args_bs_thresh args) with
      | Raise e => Crashed e
      | Ok (avg_motion, _, _) =>
          match zone_counts (detections frame) (zones_of st) with
          | Raise e => Crashed e
          | Ok counts_per_zone =>
              match draw_frame cv (detections frame) avg_motion
                      counts_per_zone st with
              | Raise e => Crashed e
              | Ok _ =>
                  let row := csv_row (frame_idx st)
                               (Z.of_nat (length (detections frame)))
                               avg_motion counts_per_zone (zones_of st) in
                  Running (set_frame_done rest
                             ((λ lines, lines ++ [row]) <$> csv_f st) st)
              end
          end
      end
  end.

Definition iteration_drawn (args : Args) (st : State) (p : Poll) : outcome :=
  match (if paused st then Running st else process_frame_drawn args st) with
  | Running st =>
      handle_key args (foldl on_mouse st (mouse p))
        (Z.land (wait_key p) 255)
  | o => o
  end.

Fixpoint main_loop_drawn (args : Args) (st : State) (polls : list Poll)
  : outcome :=
  match polls with
  | [] => Running st
  | p :: polls' =>
      match iteration_drawn args st p with
      | Running st' => main_loop_drawn args st' polls'
      | o => o
      end
  end.

(** [main] with its drawing calls. *)
Definition main_drawn (args : Args) (opened : bool) (frames : list Frame)
    (fs0 : FS) (polls : list Poll) : outcome :=
  match start args opened frames fs0 with
  | Running st0 => main_loop_drawn args st0 polls
  | o => o
  end.

End Drawn.

(** The exception was raised by one of the drawing calls. *)
Definition raised_by (cv : Canvas) (e : exn) : Prop :=
  (∃ pts closed, cv2_polylines cv pts closed = Raise e)
  ∨ (∃ p, cv2_circle cv p = Raise e)
  ∨ (∃ s p, cv2_putText cv s p = Raise e)
  ∨ (∃ p q, cv2_rectangle cv p q = Raise e).

(** The drawing calls take every geometry in the range of pixels. *)
Definition accepts_pixels (cv : Canvas) : Prop :=
  (∀ pts closed, Forall pixel_point pts → cv2_polylines cv pts closed = Ok tt)
  ∧ (∀ p, pixel_point p → cv2_circle cv p = Ok tt)
  ∧ (∀ s p, pixel_point p → cv2_putText cv s p = Ok tt)
  ∧ (∀ p q, pixel_point p → pixel_point q → cv2_rectangle cv p q = Ok tt).

(** A canvas that takes everything, and one whose [cv2_polylines] refuses the
    points that do not fit 32 bits, as [np.array(..., dtype=np.int32)] does
    where it checks the range. *)
Definition canvas_blank : Canvas :=
  {| cv2_polylines := λ _ _, Ok tt; cv2_circle := λ _, Ok tt;
     cv2_putText := λ _ _, Ok tt; cv2_rectangle := λ _ _, Ok tt |}.

Definition fits_int32 (n : Z) : bool := (- 2 ^ 31 <=? n) && (n <? 2 ^ 31).

Definition canvas_int32 : Canvas :=
  {| cv2_polylines := λ pts _,
       if forallb (λ p : Z * Z, fits_int32 p.1 && fits_int32 p.2) pts
       then Ok tt else Raise OverflowError;
     cv2_circle := λ _, Ok tt;
     cv2_putText := λ _ _, Ok tt; cv2_rectangle := λ _ _, Ok tt |}.

(** A running state with one frame to read and a zone with a vertex at
    2^31, as a conforming zone file can hold it. *)
Definition st_far_zone : State :=
  {| heap := [[(0, 0); (2 ^ 31, 0); (0, 10)]; []];
     zones := [{| zone_name := "Zone 1"; zone_points := 0%nat |}];
     active := 1%nat; zone_counter := 1;
     help_on := true; paused := false; frame_idx := 0;
     cap := [empty_frame]; csv_f := None; fs := fs_empty; stdout := [] |}.

(** Boxes whose sums [x + w], [y + h] and [y - 5], the ones the program
    takes of a box's fields, stay within 32 bits: there the NumPy ints of
    HOG and the Python ints of YOLO give the same values. *)
Definition box_in_int32 (d : Detection) : Prop :=
  - 2 ^ 31 ≤ det_x d + det_w d < 2 ^ 31
  ∧ - 2 ^ 31 ≤ det_y d + det_h d < 2 ^ 31
  ∧ - 2 ^ 31 ≤ det_y d - 5 < 2 ^ 31.

Definition frames_in_int32 (frames : list Frame) : Prop :=
  Forall (λ f, Forall box_in_int32 (detections f)) frames.

(* ================================================================== *)
(** * Properties *)

(** ** Lemmas on loops *)

Lemma for_each_app {S A} (body : S → A → result S) s xs ys :
  for_each body s (xs ++ ys) = s' ← for_each body s xs; for_each body s' ys.
Proof.
  revert s. induction xs as [|x xs IH]; intros s; simpl; [done|].
  destruct (body s x) as [s'|e]; simpl; [apply IH | done].
Qed.

Lemma for_each_ext_in {S A} (f g : S → A → result S) s xs :
  (∀ s x, x ∈ xs → f s x = g s x) → for_each f s xs = for_each g s xs.
Proof.
  revert s. induction xs as [|x xs IH]; intros s H; simpl; [done|].
  rewrite H by left. destruct (g s x); simpl; [|done].
  apply IH. intros. apply H. by right.
Qed.

Lemma for_each_map {S A B} (h : A → B) (body : S → B → result S) s xs :
  for_each body s (h <$> xs) = for_each (λ s x, body s (h x)) s xs.
Proof.
  revert s. induction xs as [|x xs IH]; intros s; simpl; [done|].
  destruct (body s (h x)); simpl; [apply IH | done].
Qed.

Lemma bind_ok {A B} (f : A → result B) a : (Ok a ≫= f) = f a.
Proof. reflexivity. Qed.

Lemma for_each_returns {S A} (body : S → A → result S) s xs :
  (∀ s x, x ∈ xs → ∃ s', body s x = Ok s') →
  ∃ s', for_each body s xs = Ok s'.
Proof.
  revert s. induction xs as [|x xs IH]; intros s H; [by eexists|].
  simpl. destruct (H s x) as [s1 ->]; [by left|]. simpl.
  apply IH. intros. apply H. by right.
Qed.

(** ** Binary64: where the arithmetic is exact *)

(** The literals are the doubles nearest to 10^-9, to 9/10 and to 100:
    within half a unit in the last place. *)
Example literals_nearest :
  valid_binary F64.prec F64.emax F64.lit_1e_9 = true
  ∧ 2 * Z.abs (4835703278458517 * 10 ^ 9 - 2 ^ 82) ≤ 10 ^ 9
  ∧ valid_binary F64.prec F64.emax conf_0_9 = true
  ∧ 2 * Z.abs (8106479329266893 * 10 - 9 * 2 ^ 53) ≤ 10
  ∧ F64.lit_100 = F64.of_Z 100.
Proof. vm_compute. repeat split; congruence. Qed.

Lemma shiftl_nat_Z q n : Zpos (Pos.shiftl_nat q n) = Zpos q * 2 ^ Z.of_nat n.
Proof.
  induction n as [|n IH].
  - simpl. lia.
  - rewrite Nat2Z.inj_succ, Z.pow_succ_r by lia.
    change (Pos.shiftl_nat q (S n)) with (xO (Pos.shiftl_nat q n)).
    rewrite Pos2Z.inj_xO, IH. lia.
Qed.

Lemma dig_shiftl_nat q n : F64.dig (Pos.shiftl_nat q n) = F64.dig q + Z.of_nat n.
Proof.
  unfold F64.dig. induction n as [|n IH].
  - simpl. lia.
  - change (Pos.shiftl_nat q (S n)) with (xO (Pos.shiftl_nat q n)).
    simpl digits2_pos. rewrite Pos2Z.inj_succ, IH. lia.
Qed.

Lemma dig_pos q : 0 < F64.dig q.
Proof. unfold F64.dig. lia. Qed.

Lemma dig_bounds q : 2 ^ (F64.dig q - 1) ≤ Zpos q < 2 ^ F64.dig q.
Proof.
  unfold F64.dig. induction q as [q IH|q IH|]; [| |simpl; lia];
    simpl digits2_pos; rewrite Pos2Z.inj_succ;
    replace (Z.succ (Zpos (digits2_pos q)) - 1)
      with (Z.succ (Zpos (digits2_pos q) - 1)) by lia;
    rewrite !Z.pow_succ_r by lia;
    generalize dependent (2 ^ (Zpos (digits2_pos q) - 1));
    generalize dependent (2 ^ Zpos (digits2_pos q)); intros; lia.
Qed.

Lemma dig_le q n : 0 ≤ n → Zpos q < 2 ^ n → F64.dig q ≤ n.
Proof.
  intros Hn Hq. destruct (dig_bounds q) as [Hlo _].
  destruct (Z_le_gt_dec (F64.dig q) n) as [|Hgt]; [done|].
  exfalso.
  assert (2 ^ n <= 2 ^ (F64.dig q - 1)) by (apply Z.pow_le_mono_r; lia).
  lia.
Qed.

Lemma iter_pos_nat {A} (f : A → A) k x :
  SpecFloat.iter_pos f k x = Nat.iter (Pos.to_nat k) f x.
Proof.
  revert x. induction k as [k IH|k IH|]; intros x; simpl SpecFloat.iter_pos.
  - rewrite !IH, Pos2Nat.inj_xI. 
    replace (S (2 * Pos.to_nat k))
      with (Pos.to_nat k + (Pos.to_nat k + 1))%nat by lia.
    rewrite !Nat.iter_add. simpl. reflexivity.
  - rewrite !IH, Pos2Nat.inj_xO.
    replace (2 * Pos.to_nat k)%nat with (Pos.to_nat k + Pos.to_nat k)%nat by lia.
    rewrite Nat.iter_add. reflexivity.
  - reflexivity.
Qed.

Lemma shr_1_iter q n :
  Nat.iter n shr_1 (Build_shr_record (Zpos (Pos.shiftl_nat q n)) false false)
  = Build_shr_record (Zpos q) false false.
Proof.
  induction n as [|n IH]; [reflexivity|].
  rewrite Nat.iter_succ_r.
  change (Pos.shiftl_nat q (S n)) with (xO (Pos.shiftl_nat q n)).
  simpl shr_1. exact IH.
Qed.

Lemma shiftl_nat_add q n m :
  Pos.shiftl_nat (Pos.shiftl_nat q n) m = Pos.shiftl_nat q (n + m).
Proof.
  induction m as [|m IH]; [by rewrite Nat.add_0_r|].
  rewrite Nat.add_succ_r.
  change (Pos.shiftl_nat ?x (S ?k)) with (xO (Pos.shiftl_nat x k)).
  by rewrite IH.
Qed.

Lemma fexp_normal E :
  3 - F64.emax - F64.prec ≤ E - F64.prec →
  fexp F64.prec F64.emax E = E - F64.prec.
Proof. unfold fexp, emin. lia. Qed.

(** Rounding a significand that has at most 53 significant bits. *)
Lemma binary_round_aux_exact s q (j : nat) e :
  F64.dig q ≤ F64.prec → F64.prec ≤ F64.dig q + Z.of_nat j →
  3 - F64.emax - F64.prec ≤ F64.dig q + Z.of_nat j + e - F64.prec
    ≤ F64.emax - F64.prec →
  binary_round_aux F64.prec F64.emax s (Zpos (Pos.shiftl_nat q j)) e loc_Exact
  = F64.norm s q (F64.dig q + Z.of_nat j + e).
Proof.
  intros Hq Hj He. unfold binary_round_aux, shr_fexp.
  set (p := Pos.shiftl_nat q j).
  assert (Hd : Zdigits2 (Zpos p) = F64.dig q + Z.of_nat j) by apply dig_shiftl_nat.
  rewrite Hd, fexp_normal by lia.
  set (n := Z.to_nat (F64.dig q + Z.of_nat j - F64.prec)).
  assert (Hp : p = Pos.shiftl_nat
                     (Pos.shiftl_nat q (Z.to_nat (F64.prec - F64.dig q))) n).
  { unfold p. rewrite shiftl_nat_add. f_equal. unfold n. lia. }
  assert (Hshr : shr (shr_record_of_loc (Zpos p) loc_Exact) e
                   (F64.dig q + Z.of_nat j + e - F64.prec - e)
                 = (Build_shr_record
                      (Zpos (Pos.shiftl_nat q (Z.to_nat (F64.prec - F64.dig q))))
                      false false,
                    F64.dig q + Z.of_nat j + e - F64.prec)).
  { unfold shr. simpl shr_record_of_loc.
    destruct (F64.dig q + Z.of_nat j + e - F64.prec - e) as [|k|k] eqn:Hk.
    - assert (n = 0%nat) by lia. rewrite Hp. replace n with 0%nat.
      simpl. f_equal. lia.
    - rewrite iter_pos_nat. rewrite Hp.
      replace (Pos.to_nat k) with n by lia. rewrite shr_1_iter. f_equal. lia.
    - lia. }
  rewrite Hshr. simpl shr_m. simpl loc_of_shr_record. simpl round_nearest_even.
  set (m := Pos.shiftl_nat q (Z.to_nat (F64.prec - F64.dig q))).
  assert (Hdm : Zdigits2 (Zpos m) = F64.prec).
  { unfold m. simpl. change (Zpos (digits2_pos ?x)) with (F64.dig x).
    rewrite dig_shiftl_nat. lia. }
  rewrite Hdm, fexp_normal by lia.
  replace (F64.prec + (F64.dig q + Z.of_nat j + e - F64.prec) - F64.prec -
           (F64.dig q + Z.of_nat j + e - F64.prec)) with 0 by lia.
  simpl shr. simpl shr_m. cbv iota.
  rewrite (proj2 (Z.leb_le _ _)) by lia. reflexivity.
Qed.

Lemma pos_iter_xO p k : Pos.iter xO p k = Pos.shiftl_nat p (Pos.to_nat k).
Proof. by rewrite Pos2Nat.inj_iter. Qed.

Lemma binary_round_exact s q (j : nat) e :
  F64.dig q ≤ F64.prec →
  3 - F64.emax - F64.prec ≤ F64.dig q + Z.of_nat j + e - F64.prec
    ≤ F64.emax - F64.prec →
  binary_round F64.prec F64.emax s (Pos.shiftl_nat q j) e
  = F64.norm s q (F64.dig q + Z.of_nat j + e).
Proof.
  intros Hq He. unfold binary_round.
  change (Zpos (digits2_pos ?x)) with (F64.dig x).
  rewrite dig_shiftl_nat, fexp_normal by lia.
  unfold shl_align.
  destruct (F64.dig q + Z.of_nat j + e - F64.prec - e) as [|k|k] eqn:Hk.
  - apply binary_round_aux_exact; lia.
  - apply binary_round_aux_exact; lia.
  - rewrite pos_iter_xO, shiftl_nat_add.
    rewrite binary_round_aux_exact by lia. f_equal. lia.
Qed.

Lemma shl_align_fst m e e' :
  e' ≤ e → Zpos (fst (shl_align m e e')) = Zpos m * 2 ^ (e - e').
Proof.
  intros He. unfold shl_align.
  destruct (e' - e) as [|k|k] eqn:Hk; simpl fst.
  - replace (e - e') with 0 by lia. lia.
  - lia.
  - rewrite pos_iter_xO, shiftl_nat_Z. do 2 f_equal. lia.
Qed.

Lemma shiftl_nat_xO q n : Pos.shiftl_nat (xO q) n = xO (Pos.shiftl_nat q n).
Proof.
  induction n as [|n IH]; [done|].
  change (Pos.shiftl_nat ?x (S ?k)) with (xO (Pos.shiftl_nat x k)).
  by rewrite IH.
Qed.

Lemma norm_xO s q E : F64.dig q < F64.prec → F64.norm s (xO q) E = F64.norm s q E.
Proof.
  intros Hq. unfold F64.norm. f_equal.
  assert (Hd : F64.dig (xO q) = F64.dig q + 1) by (unfold F64.dig; simpl; lia).
  rewrite Hd, shiftl_nat_xO.
  replace (Z.to_nat (F64.prec - F64.dig q))
    with (S (Z.to_nat (F64.prec - (F64.dig q + 1)))) by lia.
  done.
Qed.

Lemma of_Z_half n : Z.abs n < 2 ^ 52 → F64.of_Z n = F64.half (2 * n).
Proof.
  intros Hn. unfold F64.of_Z, binary_normalize.
  destruct n as [|q|q]; [done| |].
  - change (2 * Zpos q) with (Zpos (xO q)). simpl F64.half.
    assert (Hq : F64.dig q <= 52) by (apply dig_le; lia).
    pose proof (dig_pos q).
    rewrite norm_xO by (unfold F64.prec; lia).
    change q with (Pos.shiftl_nat q 0) at 1.
    rewrite binary_round_exact by (unfold F64.prec, F64.emax; simpl; lia).
    f_equal. unfold F64.dig. simpl. lia.
  - change (2 * Zneg q) with (Zneg (xO q)). simpl F64.half.
    assert (Hq : F64.dig q <= 52) by (apply dig_le; lia).
    pose proof (dig_pos q).
    rewrite norm_xO by (unfold F64.prec; lia).
    change q with (Pos.shiftl_nat q 0) at 1.
    rewrite binary_round_exact by (unfold F64.prec, F64.emax; simpl; lia).
    f_equal. unfold F64.dig. simpl. lia.
Qed.

Lemma div_eucl_2 a : Z.div_eucl (a * 2) 2 = (a, 0).
Proof.
  pose proof (Z.div_mul a 2 ltac:(lia)) as Hd.
  pose proof (Z.mod_mul a 2 ltac:(lia)) as Hm.
  unfold Z.div, Z.modulo in *.
  destruct (Z.div_eucl (a * 2) 2) as [q r]. simpl in *. by subst.
Qed.

Lemma div_core_2 q :
  F64.dig q ≤ F64.prec →
  SFdiv_core_binary F64.prec F64.emax (Zpos q) 0 2 0
  = (Zpos (Pos.shiftl_nat q (Z.to_nat (F64.prec + 1 - F64.dig q))),
     F64.dig q - 55, loc_Exact).
Proof.
  intros Hq. pose proof (dig_pos q) as Hpos.
  unfold SFdiv_core_binary.
  change (Zdigits2 (Zpos q)) with (F64.dig q). change (Zdigits2 2) with 2.
  rewrite fexp_normal by (unfold F64.prec, F64.emax in *; lia).
  replace (Z.min (F64.dig q + 0 - (2 + 0) - F64.prec) (0 - 0)) with (F64.dig q - 55)
    by (unfold F64.prec in *; lia).
  destruct (0 - 0 - (F64.dig q - 55)) as [|k|k] eqn:Hk;
    [unfold F64.prec in *; lia | | unfold F64.prec in *; lia].
  rewrite Z.shiftl_mul_pow2 by lia.
  replace (Zpos q * 2 ^ Zpos k)
    with (Zpos (Pos.shiftl_nat q (Z.to_nat (F64.prec + 1 - F64.dig q))) * 2).
  - rewrite div_eucl_2. reflexivity.
  - rewrite shiftl_nat_Z.
    replace (Zpos k) with (Z.succ (Z.of_nat (Z.to_nat (F64.prec + 1 - F64.dig q))))
      by (unfold F64.prec in *; lia).
    rewrite Z.pow_succ_r by lia. lia.
Qed.

Lemma truediv_half w :
  Z.abs w < 2 ^ 53 → F64.div (F64.raw w) (F64.raw 2) = F64.half w.
Proof.
  intros Hw. destruct w as [|q|q]; [done| |];
    assert (Hq : F64.dig q <= F64.prec) by (apply dig_le; unfold F64.prec; lia);
    pose proof (dig_pos q);
    simpl F64.raw; unfold F64.div, SFdiv; rewrite div_core_2 by done;
    rewrite binary_round_aux_exact by (unfold F64.prec, F64.emax in *; lia);
    simpl F64.half; f_equal; unfold F64.prec in *; lia.
Qed.

Lemma norm_finite s q E :
  F64.norm s q E
  = S754_finite s (Pos.shiftl_nat q (Z.to_nat (F64.prec - F64.dig q)))
      (E - F64.prec).
Proof. reflexivity. Qed.

(** The significand and exponent of [F64.half v], as an integer product. *)
Lemma half_signed v :
  v ≠ 0 → Z.abs v < 2 ^ 53 →
  exists s m, F64.half v = S754_finite s m (Zdigits2 v - 54)
    ∧ cond_Zopp s (Zpos m) = v * 2 ^ (F64.prec - Zdigits2 v)
    ∧ 0 < Zdigits2 v ≤ F64.prec.
Proof.
  intros Hv Hb. destruct v as [|q|q]; [done| |];
    assert (Hq : F64.dig q <= F64.prec) by (apply dig_le; unfold F64.prec; lia);
    pose proof (dig_pos q); simpl F64.half; rewrite norm_finite;
    eexists _, _;
    (split; [f_equal; change (Zdigits2 _) with (F64.dig q);
             unfold F64.prec; lia|]);
    change (Zdigits2 _) with (F64.dig q); (split; [|lia]); simpl cond_Zopp.
  - rewrite shiftl_nat_Z, Z2Nat.id by lia. done.
  - rewrite <- !Pos2Z.opp_pos, shiftl_nat_Z, Z2Nat.id by lia. lia.
Qed.

Lemma binary_normalize_half v (j : Z) :
  Z.abs v < 2 ^ 53 → 0 ≤ j ≤ 1000 →
  binary_normalize F64.prec F64.emax (v * 2 ^ j) (- 1 - j) false = F64.half v.
Proof.
  intros Hv Hj. unfold binary_normalize.
  destruct v as [|q|q]; [done| |];
    assert (Hq : F64.dig q <= F64.prec) by (apply dig_le; unfold F64.prec; lia);
    pose proof (dig_pos q).
  - assert (Hm : Zpos q * 2 ^ j = Zpos (Pos.shiftl_nat q (Z.to_nat j)))
      by (rewrite shiftl_nat_Z, Z2Nat.id by lia; done).
    rewrite Hm. rewrite binary_round_exact by (unfold F64.prec, F64.emax in *; lia).
    simpl F64.half. f_equal. lia.
  - assert (Hm : Zneg q * 2 ^ j = Zneg (Pos.shiftl_nat q (Z.to_nat j))).
    { rewrite <- !Pos2Z.opp_pos, shiftl_nat_Z, Z2Nat.id by lia. lia. }
    rewrite Hm. rewrite binary_round_exact by (unfold F64.prec, F64.emax in *; lia).
    simpl F64.half. f_equal. lia.
Qed.

Lemma add_half u v :
  Z.abs u < 2 ^ 53 → Z.abs v < 2 ^ 53 → Z.abs (u + v) < 2 ^ 53 →
  F64.add (F64.half u) (F64.half v) = F64.half (u + v).
Proof.
  intros Hu Hv Huv.
  destruct (Z.eq_dec u 0) as [->|Hu0].
  { simpl F64.half at 1. destruct v as [|q|q]; done. }
  destruct (Z.eq_dec v 0) as [->|Hv0].
  { rewrite Z.add_0_r. destruct u as [|q|q]; done. }
  destruct (half_signed u Hu0 Hu) as (su & mu & -> & Hmu & Hdu).
  destruct (half_signed v Hv0 Hv) as (sv & mv & -> & Hmv & Hdv).
  unfold F64.add, SFadd.
  set (ez := Z.min (Zdigits2 u - 54) (Zdigits2 v - 54)).
  assert (Hez : ez <= Zdigits2 u - 54 /\ ez <= Zdigits2 v - 54 /\ -54 < ez <= -1)
    by (unfold ez, F64.prec in *; lia).
  assert (Hsu : cond_Zopp su (Zpos (fst (shl_align mu (Zdigits2 u - 54) ez)))
                = u * 2 ^ (- 1 - ez)).
  { rewrite shl_align_fst by lia.
    transitivity (cond_Zopp su (Zpos mu) * 2 ^ (Zdigits2 u - 54 - ez));
      [by destruct su; simpl; lia|].
    rewrite Hmu, <- Z.mul_assoc, <- Z.pow_add_r by (unfold F64.prec in *; lia).
    do 2 f_equal. unfold F64.prec. lia. }
  assert (Hsv : cond_Zopp sv (Zpos (fst (shl_align mv (Zdigits2 v - 54) ez)))
                = v * 2 ^ (- 1 - ez)).
  { rewrite shl_align_fst by lia.
    transitivity (cond_Zopp sv (Zpos mv) * 2 ^ (Zdigits2 v - 54 - ez));
      [by destruct sv; simpl; lia|].
    rewrite Hmv, <- Z.mul_assoc, <- Z.pow_add_r by (unfold F64.prec in *; lia).
    do 2 f_equal. unfold F64.prec. lia. }
  rewrite Hsu, Hsv, <- Z.mul_add_distr_r.
  replace ez with (- 1 - (- 1 - ez)) at 2 by lia.
  apply binary_normalize_half; [done | lia].
Qed.

(** A rounded significand is not zero while the exponent is in range. *)

Lemma shr_1_m r : 0 ≤ shr_m r → shr_m (shr_1 r) = shr_m r / 2.
Proof.
  intros Hm. rewrite <- Z.div2_div.
  destruct r as [[|[p|p|]|p] r s]; simpl in *; done || lia.
Qed.

Lemma shr_iter_m n r :
  0 ≤ shr_m r → shr_m (Nat.iter n shr_1 r) = shr_m r / 2 ^ Z.of_nat n.
Proof.
  intros Hm. induction n as [|n IH].
  - simpl. by rewrite Z.div_1_r.
  - rewrite Nat2Z.inj_succ, Z.pow_succ_r by lia. simpl Nat.iter.
    rewrite shr_1_m; rewrite IH.
    + rewrite Z.div_div by lia. f_equal. lia.
    + apply Z.div_pos; lia.
Qed.

Lemma round_nearest_even_ge m l : m ≤ round_nearest_even m l.
Proof.
  destruct l as [|[]]; simpl; try lia. destruct (Z.even m); lia.
Qed.

(** Shifting a positive significand to its place leaves it positive. *)
Lemma shr_fexp_pos m e l :
  0 < m → 3 - F64.emax - F64.prec ≤ e →
  0 < shr_m (shr_fexp F64.prec F64.emax m e l).1
  ∧ e ≤ (shr_fexp F64.prec F64.emax m e l).2.
Proof.
  intros Hm He. unfold shr_fexp, shr.
  destruct m as [|p|p]; try lia.
  change (Zdigits2 (Zpos p)) with (F64.dig p).
  pose proof (dig_bounds p) as [Hlo _]. pose proof (dig_pos p).
  destruct (fexp F64.prec F64.emax (F64.dig p + e) - e) as [|k|k] eqn:Hk.
  - simpl. by destruct l as [|[]]; simpl; lia.
  - simpl. rewrite iter_pos_nat, shr_iter_m by (by destruct l as [|[]]; simpl).
    replace (shr_m (shr_record_of_loc (Zpos p) l)) with (Zpos p)
      by (by destruct l as [|[]]).
    split; [|lia].
    apply Z.div_str_pos. split; [apply Z.pow_pos_nonneg; lia|].
    etransitivity; [|exact Hlo]. apply Z.pow_le_mono_r; [lia|].
    unfold fexp, emin in Hk. unfold F64.prec, F64.emax in *. lia.
  - simpl. by destruct l as [|[]]; simpl; lia.
Qed.

Lemma binary_round_aux_nonzero s p e l :
  3 - F64.emax - F64.prec ≤ e →
  F64.is_zero (binary_round_aux F64.prec F64.emax s (Zpos p) e l) = false.
Proof.
  intros He. unfold binary_round_aux.
  destruct (shr_fexp_pos (Zpos p) e l ltac:(lia) He) as [Hm1 He1].
  destruct (shr_fexp F64.prec F64.emax (Zpos p) e l) as [mrs1 e1].
  simpl in Hm1, He1.
  pose proof (round_nearest_even_ge (shr_m mrs1) (loc_of_shr_record mrs1)) as Hge.
  destruct (shr_fexp_pos (round_nearest_even (shr_m mrs1) (loc_of_shr_record mrs1))
              e1 loc_Exact ltac:(lia) ltac:(lia)) as [Hm2 _].
  destruct (shr_fexp F64.prec F64.emax _ e1 loc_Exact) as [mrs2 e2].
  simpl in Hm2. destruct (shr_m mrs2) as [|m|m]; try lia.
  by destruct (e2 <=? F64.emax - F64.prec).
Qed.

Lemma binary_round_nonzero s p e :
  3 - F64.emax - F64.prec ≤ e →
  F64.is_zero (binary_round F64.prec F64.emax s p e) = false.
Proof.
  intros He. unfold binary_round, shl_align.
  destruct (fexp F64.prec F64.emax (Zpos (digits2_pos p) + e) - e) as [|k|k] eqn:Hk.
  - by apply binary_round_aux_nonzero.
  - by apply binary_round_aux_nonzero.
  - apply binary_round_aux_nonzero. unfold fexp, emin. lia.
Qed.

Lemma int_of_half v :
  Z.abs v < 2 ^ 53 → int_of_float (F64.half v) = Ok (Z.quot v 2).
Proof.
  intros Hv. destruct v as [|q|q]; [done| |];
    assert (Hq : F64.dig q ≤ F64.prec) by (apply dig_le; unfold F64.prec; lia);
    pose proof (dig_pos q); simpl F64.half; rewrite norm_finite;
    unfold int_of_float, F64.prec in *;
    (destruct (Z.leb_spec 0 (F64.dig q - 1 - 53)) as [?|_]; [lia|]);
    f_equal; simpl F64.signed.
  - rewrite shiftl_nat_Z, Z2Nat.id by lia.
    replace (- (F64.dig q - 1 - 53)) with (Z.succ (53 - F64.dig q)) by lia.
    rewrite Z.pow_succ_r by lia.
    apply Z.quot_mul_cancel_r; [lia|].
    apply Z.pow_nonzero; lia.
  - rewrite <- !Pos2Z.opp_pos, shiftl_nat_Z, Z2Nat.id by lia.
    replace (- (F64.dig q - 1 - 53)) with (Z.succ (53 - F64.dig q)) by lia.
    rewrite Z.pow_succ_r by lia.
    rewrite <- Z.mul_opp_l.
    apply Z.quot_mul_cancel_r; [lia|].
    apply Z.pow_nonzero; lia.
Qed.

Lemma half_returned v :
  match F64.half v with
  | S754_infinity _ => Raise OverflowError
  | f => Ok f
  end = Ok (F64.half v).
Proof. by destruct v. Qed.

(** [int(x + w / 2)] where nothing is rounded. *)
Lemma centroid_coordinate x w :
  Z.abs x < 2 ^ 51 → Z.abs w < 2 ^ 51 →
  (half_w ← int_truediv w 2;
   fx ← float_of_int x;
   int_of_float (F64.add fx half_w)) = Ok (Z.quot (2 * x + w) 2).
Proof.
  intros Hx Hw. unfold int_truediv, float_of_int.
  change (2 =? 0) with false. cbv iota.
  rewrite truediv_half by lia. rewrite half_returned. simpl.
  rewrite of_Z_half by lia. rewrite half_returned. simpl.
  rewrite add_half by lia. apply int_of_half. lia.
Qed.

Lemma float_of_int_exact n :
  Z.abs n < 2 ^ 52 → float_of_int n = Ok (F64.half (2 * n)).
Proof.
  intros Hn. unfold float_of_int. rewrite of_Z_half by done.
  apply half_returned.
Qed.

Lemma add_lit_nonzero dy :
  dy ≠ 0 → Z.abs dy < 2 ^ 52 →
  F64.is_zero (F64.add (F64.half (2 * dy)) F64.lit_1e_9) = false.
Proof.
  intros Hdy Hb.
  destruct (half_signed (2 * dy)) as (s & m & -> & Hm & Hd); [lia | lia |].
  unfold F64.add, SFadd, F64.lit_1e_9.
  set (D := Zdigits2 (2 * dy)) in *. unfold F64.prec in *.
  replace (Z.min (D - 54) (-82)) with (-82) by lia.
  assert (Hs : cond_Zopp s (Zpos (fst (shl_align m (D - 54) (-82))))
               = dy * 2 ^ 82).
  { rewrite shl_align_fst by lia.
    transitivity (cond_Zopp s (Zpos m) * 2 ^ (D - 54 - -82));
      [by destruct s; simpl; lia|].
    rewrite Hm, <- Z.mul_assoc, <- Z.pow_add_r by lia.
    replace (53 - D + (D - 54 - -82)) with 81 by lia. lia. }
  rewrite Hs. change (cond_Zopp false ?z) with z.
  change (Zpos (fst (shl_align 4835703278458517 (-82) (-82))))
    with 4835703278458517.
  change (2 ^ 82) with 4835703278458516698824704.
  unfold binary_normalize.
  destruct (dy * 4835703278458516698824704 + 4835703278458517) as [|p|p] eqn:HM;
    [lia| |]; apply binary_round_nonzero; unfold F64.emax, F64.prec; lia.
Qed.

(** ** The loop of [inside_polygon] walks the edges *)

Lemma edges_length poly : length (edges poly) = length poly.
Proof.
  unfold edges. rewrite length_zip_with, length_rotate. lia.
Qed.

Lemma edges_lookup poly i p q :
  poly !! i = Some p →
  poly !! ((i + 1) mod length poly)%nat = Some q →
  edges poly !! i = Some (p, q).
Proof.
  intros Hp Hq. unfold edges.
  apply lookup_zip_with_Some. exists p, q. split; [done|]. split; [done|].
  rewrite lookup_rotate_r by (by apply lookup_lt_Some in Hp).
  unfold rotate_nat_add. rewrite <- Hq. f_equal.
  apply lookup_lt_Some in Hp.
  rewrite Z2Nat.inj_mod by lia.
  rewrite Z2Nat.inj_add by lia. rewrite !Nat2Z.id. f_equal. lia.
Qed.

Lemma edge_body_crosses pt poly i p q inside :
  poly !! i = Some p →
  poly !! ((i + 1) mod length poly)%nat = Some q →
  edge_body pt poly (length poly) inside i =
    t ← crosses pt (p, q); Ok (xorb inside t).
Proof.
  intros Hp Hq. unfold edge_body, crosses, index.
  destruct pt as [x y], p as [x1 y1], q as [x2 y2].
  rewrite Hp, Hq. simpl.
  destruct (xorb (y1 >? y) (y2 >? y)); simpl.
  - destruct (xinters_of x1 y1 x2 y2 y) as [f|e]; simpl; [|done].
    destruct (int_lt_float x f), inside; done.
  - by destruct inside.
Qed.

Lemma inside_polygon_edges pt poly :
  (3 ≤ length poly)%nat → inside_polygon pt poly = ray_casting pt poly.
Proof.
  intros Hn. unfold inside_polygon, ray_casting.
  destruct (Nat.ltb_spec (length poly) 3) as [?|_]; [lia|].
  set (n := length poly).
  assert (Hed : edges poly =
    (λ i, (default (0, 0) (poly !! i),
           default (0, 0) (poly !! ((i + 1) mod n)%nat))) <$> seq 0 n).
  { apply list_eq. intros i. rewrite list_lookup_fmap.
    destruct (decide (i < n)%nat) as [Hi|Hi].
    - rewrite lookup_seq_lt by done. cbn -[lookup Nat.modulo].
      destruct (lookup_lt_is_Some_2 poly i Hi) as [p Hp].
      assert (Hj : ((i + 1) mod n < length poly)%nat)
        by (apply Nat.mod_upper_bound; lia).
      destruct (lookup_lt_is_Some_2 poly _ Hj) as [q Hq].
      rewrite (edges_lookup poly i p q Hp Hq).
      by rewrite Hp, Hq.
    - rewrite lookup_seq_ge by lia. simpl.
      apply lookup_ge_None. rewrite edges_length. lia. }
  rewrite Hed, for_each_map. subst n. apply for_each_ext_in.
  intros s i Hi. apply elem_of_seq in Hi.
  assert (Hi' : (i < length poly)%nat) by lia.
  destruct (lookup_lt_is_Some_2 poly i Hi') as [p Hp].
  assert (Hj : ((i + 1) mod length poly < length poly)%nat)
    by (apply Nat.mod_upper_bound; lia).
  destruct (lookup_lt_is_Some_2 poly _ Hj) as [q Hq].
  rewrite (edge_body_crosses pt poly i p q s Hp Hq).
  by rewrite Hp, Hq.
Qed.

(** The flag ends set exactly when the number of toggling edges is odd. *)
Lemma ray_casting_parity pt poly ts :
  Forall2 (λ e t, crosses pt e = Ok t) (edges poly) ts →
  ray_casting pt poly = Ok (Nat.odd (length (filter (λ t, t = true) ts))).
Proof.
  unfold ray_casting. generalize (edges poly). intros es Hall.
  assert (H : ∀ b, for_each (λ inside e, t ← crosses pt e; Ok (xorb inside t))
                     b es
                   = Ok (xorb b (Nat.odd (length (filter (λ t, t = true) ts))))).
  { induction Hall as [|e t es ts He Hall IH]; intros b.
    - simpl. by rewrite xorb_false_r.
    - simpl. rewrite He. simpl. rewrite IH. f_equal.
      destruct t.
      + rewrite filter_cons_True by done. simpl length.
        rewrite Nat.odd_succ, <- Nat.negb_odd. by destruct b, (Nat.odd _).
      + rewrite filter_cons_False by done. by rewrite xorb_false_r. }
  apply H.
Qed.

Lemma inside_polygon_short pt poly :
  (length poly < 3)%nat → inside_polygon pt poly = Ok false.
Proof.
  intros Hn. unfold inside_polygon.
  destruct (Nat.ltb_spec (length poly) 3) as [_|?]; [done | lia].
Qed.

(** ** The test returns on pixel coordinates *)

Lemma xinters_of_returns x1 y1 x2 y2 y :
  y1 ≠ y2 →
  Z.abs x1 < 2 ^ 25 → Z.abs y1 < 2 ^ 25 → Z.abs x2 < 2 ^ 25 →
  Z.abs y2 < 2 ^ 25 → Z.abs y < 2 ^ 25 →
  ∃ f, xinters_of x1 y1 x2 y2 y = Ok f.
Proof.
  intros Hne Hx1 Hy1 Hx2 Hy2 Hy. unfold xinters_of. cbv zeta.
  change (2 ^ 25) with 33554432 in *.
  rewrite (float_of_int_exact (y2 - y1))
    by (change (2 ^ 52) with 4503599627370496; lia).
  rewrite bind_ok.
  rewrite (float_of_int_exact ((x2 - x1) * (y - y1)))
    by (change (2 ^ 52) with 4503599627370496; nia).
  rewrite bind_ok. unfold float_truediv.
  rewrite add_lit_nonzero by (change (2 ^ 52) with 4503599627370496; lia).
  rewrite bind_ok.
  rewrite (float_of_int_exact x1)
    by (change (2 ^ 52) with 4503599627370496; lia).
  rewrite bind_ok. by eexists.
Qed.

Lemma crosses_returns pt e :
  pixel_point pt → pixel_point e.1 → pixel_point e.2 →
  ∃ t, crosses pt e = Ok t.
Proof.
  destruct pt as [x y], e as [[x1 y1] [x2 y2]].
  intros [Hx Hy] [Hx1 Hy1] [Hx2 Hy2]. simpl in *. unfold crosses.
  destruct (xorb (y1 >? y) (y2 >? y)) eqn:Hxor; [|by eexists].
  destruct (xinters_of_returns x1 y1 x2 y2 y) as [f ->]; try done.
  - intros ->. by rewrite xorb_nilpotent in Hxor.
  - by eexists.
Qed.

(** On pixel coordinates the test returns: no conversion overflows and no
    denominator is zero. *)
Lemma inside_polygon_returns pt poly :
  pixel_point pt → Forall pixel_point poly →
  ∃ b, inside_polygon pt poly = Ok b.
Proof.
  intros Hpt Hpoly.
  destruct (Nat.lt_ge_cases (length poly) 3) as [Hn|Hn].
  { exists false. by apply inside_polygon_short. }
  rewrite inside_polygon_edges by done. unfold ray_casting.
  apply for_each_returns. intros inside [p q] He.
  destruct (crosses_returns pt (p, q)) as [t ->]; try done.
  - simpl. rewrite Forall_forall in Hpoly. apply Hpoly.
    unfold edges in He. by apply elem_of_zip_l in He.
  - simpl. rewrite Forall_forall in Hpoly. apply Hpoly.
    unfold edges in He. apply elem_of_zip_r in He.
    by apply elem_of_rotate in He.
  - by eexists.
Qed.

(** ** The test against the rule with its formula *)

Lemma xinters_of_formula x1 y1 x2 y2 y :
  y1 ≠ y2 →
  Z.abs x1 < 2 ^ 25 → Z.abs y1 < 2 ^ 25 → Z.abs x2 < 2 ^ 25 →
  Z.abs y2 < 2 ^ 25 → Z.abs y < 2 ^ 25 →
  xinters_of x1 y1 x2 y2 y = Ok (xinters_formula x1 y1 x2 y2 y).
Proof.
  intros Hne Hx1 Hy1 Hx2 Hy2 Hy. unfold xinters_of, xinters_formula. cbv zeta.
  change (2 ^ 25) with 33554432 in *.
  rewrite (float_of_int_exact (y2 - y1))
    by (change (2 ^ 52) with 4503599627370496; lia).
  rewrite bind_ok.
  rewrite (float_of_int_exact ((x2 - x1) * (y - y1)))
    by (change (2 ^ 52) with 4503599627370496; nia).
  rewrite bind_ok. unfold float_truediv.
  rewrite add_lit_nonzero by (change (2 ^ 52) with 4503599627370496; lia).
  rewrite bind_ok.
  rewrite (float_of_int_exact x1)
    by (change (2 ^ 52) with 4503599627370496; lia).
  rewrite bind_ok.
  rewrite !of_Z_half by (change (2 ^ 52) with 4503599627370496; nia).
  done.
Qed.

Lemma crosses_by_rule pt e :
  pixel_point pt → pixel_point e.1 → pixel_point e.2 →
  crosses pt e = Ok (toggles_by_rule pt e).
Proof.
  destruct pt as [x y], e as [[x1 y1] [x2 y2]].
  intros [Hx Hy] [Hx1 Hy1] [Hx2 Hy2]. simpl in *.
  unfold crosses, toggles_by_rule.
  destruct (xorb (y1 >? y) (y2 >? y)) eqn:Hxor; [|done].
  rewrite xinters_of_formula; try done.
  intros ->. by rewrite xorb_nilpotent in Hxor.
Qed.

Lemma inside_polygon_by_rule pt poly :
  (3 ≤ length poly)%nat → pixel_point pt → Forall pixel_point poly →
  inside_polygon pt poly = Ok (ray_casting_rule pt poly).
Proof.
  intros Hn Hpt Hpoly. rewrite inside_polygon_edges by done.
  unfold ray_casting, ray_casting_rule.
  assert (Hes : Forall (λ e, pixel_point e.1 ∧ pixel_point e.2) (edges poly)).
  { apply Forall_forall. intros [p q] He. rewrite Forall_forall in Hpoly.
    unfold edges in He. split; apply Hpoly; simpl.
    - by apply elem_of_zip_l in He.
    - apply elem_of_zip_r in He. by apply elem_of_rotate in He. }
  generalize false.
  induction Hes as [|e es [H1 H2] _ IH]; intros b; [done|].
  cbn [for_each foldl]. rewrite (crosses_by_rule pt e Hpt H1 H2), !bind_ok.
  rewrite IH. do 2 f_equal. by destruct b, (toggles_by_rule pt e).
Qed.

(** Without a bound on the coordinates: what the test returns, when it
    returns, is what the rule gives. *)
Lemma float_of_int_ok n f : float_of_int n = Ok f → f = F64.of_Z n.
Proof.
  unfold float_of_int. destruct (F64.of_Z n); intros H; by inversion H.
Qed.

Lemma xinters_of_ok x1 y1 x2 y2 y v :
  xinters_of x1 y1 x2 y2 y = Ok v → v = xinters_formula x1 y1 x2 y2 y.
Proof.
  unfold xinters_of, xinters_formula. cbv zeta. intros H.
  destruct (float_of_int (y2 - y1)) as [dy|] eqn:Hdy; [|done].
  apply float_of_int_ok in Hdy as ->. rewrite bind_ok in H.
  destruct (float_of_int ((x2 - x1) * (y - y1))) as [fnum|] eqn:Hnum; [|done].
  apply float_of_int_ok in Hnum as ->. rewrite bind_ok in H.
  unfold float_truediv in H.
  destruct (F64.is_zero _); [done|]. rewrite bind_ok in H.
  destruct (float_of_int x1) as [fx1|] eqn:Hx1; [|done].
  apply float_of_int_ok in Hx1 as ->. rewrite bind_ok in H.
  by inversion H.
Qed.

Lemma crosses_ok pt e t : crosses pt e = Ok t → t = toggles_by_rule pt e.
Proof.
  destruct pt as [x y], e as [[x1 y1] [x2 y2]].
  unfold crosses, toggles_by_rule.
  destruct (xorb (y1 >? y) (y2 >? y)); [|intros H; by inversion H].
  destruct (xinters_of x1 y1 x2 y2 y) as [v|] eqn:Hv; [|done].
  apply xinters_of_ok in Hv as ->. rewrite bind_ok. intros H. by inversion H.
Qed.

Lemma inside_polygon_ok pt poly b :
  (3 ≤ length poly)%nat → inside_polygon pt poly = Ok b →
  b = ray_casting_rule pt poly.
Proof.
  intros Hn. rewrite inside_polygon_edges by done.
  unfold ray_casting, ray_casting_rule. generalize false.
  induction (edges poly) as [|e es IH]; intros b0 H.
  { by inversion H. }
  cbn [for_each foldl] in *.
  destruct (crosses pt e) as [t|] eqn:Ht; [|done].
  apply crosses_ok in Ht as ->. rewrite !bind_ok in H.
  apply IH in H as ->. f_equal. by destruct b0, (toggles_by_rule pt e).
Qed.

(** The slanted edge from (10,0) to (0,10) at [y = 5]: the intersection
    is the double next above 5.0000000005 * (1 - 2^-50), a little right of
    5 as the [1e-9] of the denominator makes it, so that the point (5,5) on
    the edge is left of it and toggles. *)
Example slanted_edge :
  xinters_of 10 0 0 10 5 = Ok xinters_slanted
  ∧ xinters_formula 10 0 0 10 5 = xinters_slanted
  ∧ int_lt_float 5 xinters_slanted = true
  ∧ int_lt_float 6 xinters_slanted = false
  ∧ 0 < 5629499534776070 * 10 ^ 10 - 50000000005 * 2 ^ 50 < 2 ^ 50
  ∧ inside_polygon (6, 5) triangle10 = Ok true
  ∧ inside_polygon (5, 5) triangle10 = Ok false
  ∧ inside_polygon (4, 5) triangle10 = Ok false.
Proof. repeat split; vm_compute; reflexivity. Qed.

(** ** Point in polygon: the claims *)

Example inside_5_5 : inside_polygon (5, 5) square10 = Ok true.
Proof. vm_compute. reflexivity. Qed.

Example inside_15_15 : inside_polygon (15, 15) square10 = Ok false.
Proof. vm_compute. reflexivity. Qed.

(** C1. For a polygon of at least three points, [inside_polygon] is the
    ray-casting rule of the specification: it walks the edges in order with
    the closing edge last, considers an edge only when
    [(y1 > y) != (y2 > y)], takes the intersection
    [(x2 - x1) * (y - y1) / (y2 - y1 + 1e-9) + x1] and toggles exactly when
    [x] is strictly below it.  Whatever the coordinates, what the test
    returns is what the rule gives with that formula evaluated in doubles
    ([ray_casting_rule], stated apart from the code's [xinters_of]), and on
    pixel coordinates it returns.  On
    the square (0,0),(10,0),(10,10),(0,10) the point (5,5) is inside and
    (15,15) is outside.  On the triangle (10,0),(0,10),(10,10), whose first
    edge is slanted, the intersection at [y = 5] is the double
    0x1.4000000089706p+2, so that (6,5) is inside and (5,5), a point of
    that edge, is outside. *)
Theorem inside_polygon_ray_casting (pt : Z * Z) (poly : list (Z * Z))
    (Hn : (3 ≤ length poly)%nat) :
  inside_polygon pt poly = ray_casting pt poly
  ∧ (pixel_point pt → Forall pixel_point poly →
     ∃ b, inside_polygon pt poly = Ok b)
  ∧ inside_polygon (5, 5) square10 = Ok true
  ∧ inside_polygon (15, 15) square10 = Ok false
  ∧ (∀ b, inside_polygon pt poly = Ok b → b = ray_casting_rule pt poly)
  ∧ (pixel_point pt → Forall pixel_point poly →
     inside_polygon pt poly = Ok (ray_casting_rule pt poly))
  ∧ xinters_of 10 0 0 10 5 = Ok xinters_slanted
  ∧ xinters_formula 10 0 0 10 5 = xinters_slanted
  ∧ int_lt_float 5 xinters_slanted = true
  ∧ int_lt_float 6 xinters_slanted = false
  ∧ inside_polygon (6, 5) triangle10 = Ok true
  ∧ inside_polygon (5, 5) triangle10 = Ok false.
Proof.
  split; [by apply inside_polygon_edges|].
  split; [by apply inside_polygon_returns|].
  split; [vm_compute; reflexivity|].
  split; [vm_compute; reflexivity|].
  split; [intros b; by apply inside_polygon_ok|].
  split; [by apply inside_polygon_by_rule|].
  repeat split; vm_compute; reflexivity.
Qed.

Lemma inside_polygon_ray_casting_witness :
  (3 ≤ length triangle10)%nat
  ∧ inside_polygon (6, 5) triangle10 = ray_casting (6, 5) triangle10
  ∧ inside_polygon (6, 5) triangle10 = Ok (ray_casting_rule (6, 5) triangle10)
  ∧ ray_casting_rule (6, 5) triangle10 = true
  ∧ ray_casting_rule (5, 5) triangle10 = false.
Proof.
  assert (Hn : (3 ≤ length triangle10)%nat) by (simpl; lia).
  split; [exact Hn|].
  destruct (inside_polygon_ray_casting (6, 5) triangle10 Hn)
    as (H1 & _ & _ & _ & _ & H5 & _).
  split; [exact H1|].
  split; [apply H5; [split; reflexivity | repeat constructor]|].
  split; vm_compute; reflexivity.
Defined.

(** C2. A polygon of fewer than three points contains no point. *)
Theorem inside_polygon_degenerate (pt : Z * Z) (poly : list (Z * Z))
    (Hn : (length poly < 3)%nat) :
  inside_polygon pt poly = Ok false.
Proof. by apply inside_polygon_short. Qed.

Lemma inside_polygon_degenerate_witness :
  (length [(0, 0); (10, 10)] < 3)%nat
  ∧ inside_polygon (5, 5) [(0, 0); (10, 10)] = Ok false.
Proof.
  split; [simpl; lia|].
  apply (inside_polygon_degenerate (5, 5) [(0, 0); (10, 10)]). simpl; lia.
Defined.

(** C10. On the square (0,0),(10,0),(10,10),(0,10) the point (10,5) of the
    right edge is outside: the right edge is considered, its intersection
    is the double 10.0, and 10 is not strictly below it, so the flag is
    not toggled there; the left edge does not toggle either. *)
Theorem inside_polygon_right_edge :
  inside_polygon (10, 5) square10 = Ok false
  ∧ xorb (0 >? 5) (10 >? 5) = true
  ∧ xinters_of 10 0 10 10 5 = Ok (F64.of_Z 10)
  ∧ int_lt_float 10 (F64.of_Z 10) = false
  ∧ crosses (10, 5) ((10, 0), (10, 10)) = Ok false
  ∧ crosses (10, 5) ((0, 10), (0, 0)) = Ok false.
Proof. vm_compute. repeat split; reflexivity. Qed.

(** ** The centroid: the claim *)

Example centroid_0_0_10_10 : centroid_of_bbox 0 0 10 10 = Ok (5, 5).
Proof. vm_compute. reflexivity. Qed.

Lemma centroid_of_bbox_quot x y w h :
  Z.abs x < 2 ^ 51 → Z.abs y < 2 ^ 51 →
  Z.abs w < 2 ^ 51 → Z.abs h < 2 ^ 51 →
  centroid_of_bbox x y w h
  = Ok (Z.quot (2 * x + w) 2, Z.quot (2 * y + h) 2).
Proof.
  intros Hx Hy Hw Hh. unfold centroid_of_bbox.
  pose proof (centroid_coordinate x w Hx Hw) as Hcx.
  pose proof (centroid_coordinate y h Hy Hh) as Hcy.
  destruct (int_truediv w 2) as [hw|]; simpl in *; [|done].
  destruct (float_of_int x) as [fx|]; simpl in *; [|done].
  rewrite Hcx. simpl.
  destruct (int_truediv h 2) as [hh|]; simpl in *; [|done].
  destruct (float_of_int y) as [fy|]; simpl in *; [|done].
  by rewrite Hcy.
Qed.

(** C9. For a box whose coordinates are below 2^51 in absolute value, the
    centroid is [(x + w / 2, y + h / 2)] truncated towards zero: no
    floating-point operation rounds.  For a box in the frame, with
    [0 ≤ x] and [0 ≤ w], that is [x + w // 2].  The detection
    (0, 0, 10, 10, 0.9) has centroid (5, 5), and against the single zone
    "A" = (0,0),(20,0),(20,20),(0,20) the tally is {"A": 1}. *)
Theorem centroid_of_bbox_truncates (x y w h : Z)
    (Hx : Z.abs x < 2 ^ 51) (Hy : Z.abs y < 2 ^ 51)
    (Hw : Z.abs w < 2 ^ 51) (Hh : Z.abs h < 2 ^ 51) :
  centroid_of_bbox x y w h
  = Ok (Z.quot (2 * x + w) 2, Z.quot (2 * y + h) 2)
  ∧ (0 ≤ x → 0 ≤ y → 0 ≤ w → 0 ≤ h →
     centroid_of_bbox x y w h = Ok (x + w `div` 2, y + h `div` 2))
  ∧ centroid_of_bbox 0 0 10 10 = Ok (5, 5)
  ∧ tally_detection [zone_A] (zero_counts [zone_A]) det_0_0_10_10
    = (c ← centroid_of_bbox 0 0 10 10;
       for_each (tally_zone c) (zero_counts [zone_A]) [zone_A])
  ∧ zone_counts [det_0_0_10_10] [zone_A] = Ok {[ "A" := 1 ]}.
Proof.
  split; [by apply centroid_of_bbox_quot|].
  split.
  { intros Hx0 Hy0 Hw0 Hh0. rewrite centroid_of_bbox_quot by done.
    rewrite !Z.quot_div_nonneg by lia.
    rewrite !(Z.mul_comm 2), !Z.div_add_l by lia. done. }
  split; [vm_compute; reflexivity|].
  split; [reflexivity|].
  vm_compute; reflexivity.
Qed.

Lemma centroid_of_bbox_truncates_witness :
  (Z.abs (-7) < 2 ^ 51 ∧ Z.abs 120 < 2 ^ 51
   ∧ Z.abs 5 < 2 ^ 51 ∧ Z.abs 33 < 2 ^ 51)
  ∧ centroid_of_bbox (-7) 120 5 33 = Ok (-4, 136).
Proof.
  split; [repeat split; vm_compute; reflexivity|].
  apply (proj1 (centroid_of_bbox_truncates (-7) 120 5 33
                  ltac:(vm_compute; reflexivity) ltac:(vm_compute; reflexivity)
                  ltac:(vm_compute; reflexivity) ltac:(vm_compute; reflexivity))).
Defined.

(** ** The occupancy tally *)

Section Tally.

Variable k : string.

Lemma increment_agree_off m1 m2 n :
  n ≠ k → agree_off k m1 m2 →
  alike (agree_off k) (increment m1 n) (increment m2 n).
Proof.
  intros Hn [Hag Hk]. unfold increment. rewrite (Hag n Hn).
  destruct (m2 !! n) as [v|] eqn:Hv; simpl; [|done].
  split.
  - intros n' Hn'. destruct (decide (n = n')) as [->|Hne].
    + by rewrite !lookup_insert_eq.
    + rewrite !lookup_insert_ne by done. by apply Hag.
  - rewrite lookup_insert_ne by done. done.
Qed.

Lemma increment_at_key m1 m2 :
  agree_off k m1 m2 → ∃ m2', increment m2 k = Ok m2' ∧ agree_off k m1 m2'.
Proof.
  intros [Hag [v Hv]]. unfold increment. rewrite Hv.
  eexists; split; [done|]. split.
  - intros n Hn. rewrite lookup_insert_ne by done. by apply Hag.
  - rewrite lookup_insert_eq. by eexists.
Qed.

Lemma tally_zone_agree_off c m1 m2 z0 :
  name z0 ≠ k → agree_off k m1 m2 →
  alike (agree_off k) (tally_zone c m1 z0) (tally_zone c m2 z0).
Proof.
  intros Hn Hag. unfold tally_zone.
  destruct (inside_polygon c (points z0)) as [[|]|e]; simpl; try done.
  by apply increment_agree_off.
Qed.

Lemma tally_zones_agree_off c zones m1 m2 :
  k ∉ name <$> zones → agree_off k m1 m2 →
  alike (agree_off k) (for_each (tally_zone c) m1 zones)
                      (for_each (tally_zone c) m2 zones).
Proof.
  revert m1 m2. induction zones as [|z0 zones IH]; intros m1 m2 Hk Hag.
  { done. }
  rewrite fmap_cons, not_elem_of_cons in Hk. destruct Hk as [Hk0 Hk].
  assert (H0 : alike (agree_off k) (tally_zone c m1 z0) (tally_zone c m2 z0))
    by (apply tally_zone_agree_off; [congruence | done]).
  simpl.
  destruct (tally_zone c m1 z0) as [m1'|e1], (tally_zone c m2 z0) as [m2'|e2];
    simpl in *; try done. by apply IH.
Qed.

(** One detection, tallied against [zones] and against [zones ++ [z]]. *)
Lemma tally_detection_snoc zones z d m1 m2 :
  name z = k → k ∉ name <$> zones → agree_off k m1 m2 →
  (∀ c, centroid_of_bbox (det_x d) (det_y d) (det_w d) (det_h d) = Ok c →
        ∃ b, inside_polygon c (points z) = Ok b) →
  alike (agree_off k) (tally_detection zones m1 d)
                      (tally_detection (zones ++ [z]) m2 d).
Proof.
  intros Hz Hk Hag Hret. unfold tally_detection.
  destruct (centroid_of_bbox _ _ _ _) as [c|e] eqn:Hc; simpl; [|done].
  rewrite for_each_app.
  pose proof (tally_zones_agree_off c zones m1 m2 Hk Hag) as H.
  destruct (for_each (tally_zone c) m1 zones) as [m1'|e1],
           (for_each (tally_zone c) m2 zones) as [m2'|e2];
    simpl in *; try done.
  destruct (Hret c eq_refl) as [b Hb]. unfold tally_zone at 1. rewrite Hb. simpl.
  destruct b; [|done].
  rewrite Hz. destruct (increment_at_key m1' m2' H) as (m2'' & -> & H').
  done.
Qed.

Lemma tally_detections_snoc zones z ds m1 m2 :
  name z = k → k ∉ name <$> zones → agree_off k m1 m2 →
  tests_return ds z →
  alike (agree_off k) (for_each (tally_detection zones) m1 ds)
                      (for_each (tally_detection (zones ++ [z])) m2 ds).
Proof.
  intros Hz Hk. revert m1 m2.
  induction ds as [|d ds IH]; intros m1 m2 Hag Hret; [done|].
  simpl.
  assert (H : alike (agree_off k) (tally_detection zones m1 d)
                (tally_detection (zones ++ [z]) m2 d)).
  { apply tally_detection_snoc; try done.
    intros c Hc. apply Forall_cons in Hret as [Hd _].
    unfold test_returns in Hd. rewrite Hc in Hd.
    destruct (inside_polygon c (points z)) as [b|]; [by exists b | done]. }
  destruct (tally_detection zones m1 d) as [m1'|e1],
           (tally_detection (zones ++ [z]) m2 d) as [m2'|e2];
    simpl in *; try done.
  apply IH; [done|]. by apply Forall_cons in Hret as [_ ?].
Qed.

End Tally.

Lemma zero_counts_snoc zones z :
  zero_counts (zones ++ [z]) = <[name z := 0]> (zero_counts zones).
Proof. unfold zero_counts. by rewrite foldl_app. Qed.

Lemma zone_counts_snoc detections zones z :
  name z ∉ name <$> zones → tests_return detections z →
  alike (agree_off (name z)) (zone_counts detections zones)
                             (zone_counts detections (zones ++ [z])).
Proof.
  intros Hk Hret. unfold zone_counts.
  apply tally_detections_snoc; try done.
  rewrite zero_counts_snoc. split.
  - intros n Hn. by rewrite lookup_insert_ne.
  - rewrite lookup_insert_eq. by eexists.
Qed.

(** ** Occupancy: the claims *)

Example zone_counts_A :
  zone_counts [{| det_x := 0; det_y := 0; det_w := 10; det_h := 10;
                  det_conf := conf_0_9 |}]
              [{| name := "A"; points := square20 |}]
  = Ok {[ "A" := 1 ]}.
Proof. vm_compute. reflexivity. Qed.

Lemma quot_2_bound v : Z.abs v < 2 ^ 26 → Z.abs (Z.quot v 2) < 2 ^ 25.
Proof.
  intros Hv. change (2 ^ 26) with 67108864 in *. change (2 ^ 25) with 33554432.
  rewrite <- Z.quot_abs by lia. change (Z.abs 2) with 2.
  apply Z.quot_lt_upper_bound; lia.
Qed.

Lemma tests_return_pixel ds z :
  Forall pixel_box ds → Forall pixel_point (points z) → tests_return ds z.
Proof.
  intros Hds Hz. unfold tests_return. eapply Forall_impl; [exact Hds|].
  intros d (Hx & Hy & Hw & Hh). unfold test_returns.
  change (2 ^ 24) with 16777216 in *.
  rewrite centroid_of_bbox_quot by (change (2 ^ 51) with 2251799813685248; lia).
  destruct (inside_polygon_returns
              (Z.quot (2 * det_x d + det_w d) 2, Z.quot (2 * det_y d + det_h d) 2)
              (points z)) as [b ->]; [|done|done].
  split; simpl; apply quot_2_bound; change (2 ^ 26) with 67108864; lia.
Qed.

(** Two zones of one name arise in [main] itself: the counter starts at
    the number of loaded zones, whatever their names. *)
Example duplicate_name_drawn :
  ∃ st0 st1,
    start args_plain true [] fs_zone_2 = Running st0
    ∧ handle_key args_plain
        (add_point (add_point (add_point st0 (0, 0)) (20, 0)) (20, 20))
        (ord "n") = Running st1
    ∧ name <$> zones_of st1 = ["Zone 2"; "Zone 2"].
Proof. eexists _, _. vm_compute. repeat split; reflexivity. Qed.

(** C7, as stated, fails: a zone appended under a name that is already in
    use adds its hits to the count kept under that name. *)
Lemma count_changed_by_same_name :
  ¬ count_unchanged [det_0_0_10_10] [zone_A] zone_A'.
Proof.
  intros H.
  assert (H1 : zone_counts [det_0_0_10_10] [zone_A] = Ok {[ "A" := 1 ]})
    by (vm_compute; reflexivity).
  assert (H2 : zone_counts [det_0_0_10_10] ([zone_A] ++ [zone_A'])
               = Ok {[ "A" := 2 ]})
    by (vm_compute; reflexivity).
  specialize (H _ _ H1 H2 zone_A (list_elem_of_here _ _)).
  vm_compute in H. discriminate H.
Qed.

(** C7 (amended). When the appended zone has a name that no zone of the
    list has, and its own point-in-polygon tests return, the tally with
    the zone appended ends as the tally without it: with the same
    exception, or with the same count for every zone of the list.  The
    tests return whenever the boxes and the polygon of the new zone have
    pixel coordinates. *)
Theorem zone_counts_append (detections : list Detection)
    (zones : list Zone) (z : Zone)
    (Hname : name z ∉ name <$> zones) :
  (tests_return detections z →
   alike (agree_on zones) (zone_counts detections zones)
                          (zone_counts detections (zones ++ [z])))
  ∧ (Forall pixel_box detections → Forall pixel_point (points z) →
     alike (agree_on zones) (zone_counts detections zones)
                            (zone_counts detections (zones ++ [z]))).
Proof.
  assert (H : tests_return detections z →
              alike (agree_on zones) (zone_counts detections zones)
                    (zone_counts detections (zones ++ [z]))).
  { intros Hret.
    pose proof (zone_counts_snoc detections zones z Hname Hret) as H.
    destruct (zone_counts detections zones) as [m|e],
             (zone_counts detections (zones ++ [z])) as [m'|e'];
      simpl in *; try done.
    intros z0 Hz0. apply H. intros Heq. apply Hname.
    rewrite <- Heq. apply list_elem_of_fmap. by exists z0. }
  split; [exact H|].
  intros Hds Hz. by apply H, tests_return_pixel.
Qed.

Lemma zone_counts_append_witness :
  (name zone_B ∉ name <$> [zone_A])
  ∧ alike (agree_on [zone_A]) (zone_counts [det_0_0_10_10] [zone_A])
          (zone_counts [det_0_0_10_10] ([zone_A] ++ [zone_B])).
Proof.
  assert (Hname : name zone_B ∉ name <$> [zone_A]).
  { vm_compute. intros H. apply list_elem_of_In in H.
    destruct H as [H|[]]. discriminate H. }
  split; [exact Hname|].
  apply (proj1 (zone_counts_append [det_0_0_10_10] [zone_A] zone_B Hname)).
  repeat constructor.
Defined.

(** ** Motion: the claims *)

Lemma compute_motion_percent_no_detections np_mean shape mask thresh :
  compute_motion_percent np_mean shape mask [] thresh
  = Ok (F64.zero, [], mask).
Proof. reflexivity. Qed.

Lemma slice_empty {A} (lo hi : Z) (l : list A) :
  0 ≤ lo → 0 ≤ hi → hi ≤ lo → slice lo hi l = [].
Proof.
  intros Hlo Hhi Hle. unfold slice, slice_bound.
  destruct (Z.ltb_spec lo 0), (Z.ltb_spec hi 0); try lia.
  replace (Z.to_nat _) with 0%nat by lia. done.
Qed.

(** A box whose clipped form is empty, with clipped ends that are not
    negative, has motion 0.0. *)
Lemma motion_value_empty_box (sh : Z * Z) (mask : list (list Z)) thresh d :
  let x1 := Z.max 0 (det_x d) in
  let y1 := Z.max 0 (det_y d) in
  let x2 := Z.min (sh.2) (det_x d + det_w d) in
  let y2 := Z.min (sh.1) (det_y d + det_h d) in
  0 ≤ x2 → 0 ≤ y2 → x2 ≤ x1 ∨ y2 ≤ y1 →
  motion_value sh mask thresh d = Ok F64.zero.
Proof.
  intros x1 y1 x2 y2 Hx Hy Hempty. unfold motion_value.
  fold x1 y1 x2 y2.
  assert (Hsz : size_of (slice2 y1 y2 x1 x2 mask) = 0).
  { unfold size_of, slice2. destruct Hempty as [Hle|Hle].
    - assert (Hrows : ∀ rows : list (list Z),
                concat (slice x1 x2 <$> rows) = []).
      { induction rows as [|r rows IH]; [done|].
        rewrite fmap_cons. simpl. rewrite IH.
        rewrite slice_empty by (subst x1; lia). done. }
      by rewrite Hrows.
    - rewrite (slice_empty y1 y2) by (subst y1; lia). done. }
  by rewrite Hsz.
Qed.

(** C8, at the failing input.  With no detection the average is 0.0 and the
    list is empty; but the box (-3, 0, 2, 2), wholly left of a 4 x 4 frame,
    is clipped to the columns 0 to -1, the slice [0:-1] counts its end from
    the right, and the motion value is 100.0. *)
Theorem motion_value_left_of_frame :
  Z.min 4 (det_x det_left_of_frame + det_w det_left_of_frame)
    ≤ Z.max 0 (det_x det_left_of_frame)
  ∧ slice2 0 2 0 (-1) mask_4x4 = [[255; 255; 255]; [255; 255; 255]]
  ∧ motion_value (4, 4) mask_4x4 25 det_left_of_frame = Ok F64.lit_100
  ∧ ∀ np_mean,
      compute_motion_percent np_mean (4, 4) mask_4x4 [det_left_of_frame] 25
      = Ok (np_mean [F64.lit_100], [F64.lit_100], mask_4x4).
Proof.
  split; [vm_compute; discriminate|].
  split; [vm_compute; reflexivity|].
  split; [vm_compute; reflexivity|].
  intros np_mean. reflexivity.
Qed.

(** ** Text: worked examples *)

Example format_2f_examples :
  format_2f F64.zero = "0.00" ∧
  format_2f F64.lit_100 = "100.00" ∧
  format_2f (S754_finite false 1 (-3)) = "0.12" ∧
  format_2f (S754_finite false 3 (-3)) = "0.38" ∧
  format_2f (S754_finite true 6004799503160661 (-54)) = "-0.33" ∧
  format_2f conf_0_9 = "0.90".
Proof. vm_compute. done. Qed.

Example slice_examples :
  slice 1 3 [10; 20; 30; 40] = [20; 30] ∧
  slice 0 (-1) [10; 20; 30; 40] = [10; 20; 30] ∧
  slice 0 (-9) [10; 20; 30; 40] = [] ∧
  slice 2 9 [10; 20; 30; 40] = [30; 40] ∧
  slice 3 1 [10; 20; 30; 40] = [].
Proof. vm_compute. done. Qed.

(** ** The zone store *)

Lemma map_enumerate_fmap {A B C} (f : Z → B → result C) (h : A → B)
    (g : A → C) i xs :
  (∀ j x, f j (h x) = Ok (g x)) →
  map_enumerate f i (h <$> xs) = Ok (g <$> xs).
Proof.
  intros Hf. revert i. induction xs as [|x xs IH]; intros i; simpl; [done|].
  by rewrite Hf, IH.
Qed.

Lemma map_enumerate_raises {A B} (f : Z → A → result B) i0 xs (i : nat) x e :
  xs !! i = Some x → f (i0 + Z.of_nat i) x = Raise e →
  ∃ e', map_enumerate f i0 xs = Raise e'.
Proof.
  revert i0 i. induction xs as [|x0 xs IH]; intros i0 i Hx Hf; [done|].
  destruct i as [|i]; simpl in *.
  - injection Hx as ->. rewrite Z.add_0_r in Hf. rewrite Hf. by eexists.
  - destruct (f i0 x0); simpl; [|by eexists].
    destruct (IH (i0 + 1) i Hx) as [e' ->]; [|by eexists].
    rewrite <- Hf. f_equal. lia.
Qed.

Lemma load_zone_saved i z : load_zone i (json_of_zone z) = Ok (loaded_of z).
Proof.
  unfold load_zone, json_of_zone, loaded_of, map_result.
  change (dict_get "name" _) with (Some (JString (name z))).
  change (dict_get "points" _) with (Some (JArray (json_of_point <$> points z))).
  simpl.
  by rewrite (map_enumerate_fmap _ _ (λ p : Z * Z, [JInt p.1; JInt p.2])).
Qed.

Lemma zone_of_loaded_of z : zone_of (loaded_of z) = Some z.
Proof.
  destruct z as [nm pts]. unfold zone_of, loaded_of. simpl.
  assert (H : mapM point_of ((λ p : Z * Z, [JInt p.1; JInt p.2]) <$> pts)
              = Some pts).
  { induction pts as [|[x y] pts IH]; [done|].
    rewrite fmap_cons. simpl. by rewrite IH. }
  by rewrite H.
Qed.

Lemma mapM_zone_of_loaded zs : mapM zone_of (loaded_of <$> zs) = Some zs.
Proof.
  induction zs as [|z zs IH]; [done|].
  rewrite fmap_cons. simpl. by rewrite zone_of_loaded_of, IH.
Qed.

Lemma load_zones_written path zs fs0 :
  load_zones path (write_file path (Document (JArray (json_of_zone <$> zs))) fs0)
  = Ok (loaded_of <$> zs).
Proof.
  unfold load_zones, write_file. simpl. rewrite lookup_insert_eq. simpl.
  apply map_enumerate_fmap. intros. apply load_zone_saved.
Qed.

(** C6. Saving a zone collection and loading it back from the same path
    gives the same zones: the same names and the same point sequences, in
    the same order. *)
Theorem save_load_round_trip (path : string) (zs : list Zone) (fs0 fs1 : FS)
    (Hsave : save_zones path zs fs0 = Ok fs1) :
  ∃ loaded, load_zones path fs1 = Ok loaded ∧ mapM zone_of loaded = Some zs.
Proof.
  unfold save_zones in Hsave.
  destruct (decide (path ∈ unwritable fs0)); [done|].
  injection Hsave as <-. exists (loaded_of <$> zs).
  split; [apply load_zones_written | apply mapM_zone_of_loaded].
Qed.

Lemma save_load_round_trip_witness :
  ∃ fs1, save_zones "zones.json" [zone_A; zone_B] fs_empty = Ok fs1
  ∧ ∃ loaded, load_zones "zones.json" fs1 = Ok loaded
              ∧ mapM zone_of loaded = Some [zone_A; zone_B].
Proof.
  eexists. split; [vm_compute; reflexivity|].
  apply (save_load_round_trip "zones.json" [zone_A; zone_B] fs_empty).
  vm_compute; reflexivity.
Defined.

(** ** Loading zones: the claims *)

Lemma points_conforming pts :
  forallb is_xy pts = true →
  ∃ tuples ps, map_enumerate (λ _, iterate) 0 pts = Ok tuples
               ∧ mapM point_of tuples = Some ps.
Proof.
  generalize 0. induction pts as [|p pts IH]; intros i Hall.
  { by exists [], []. }
  simpl in Hall. apply andb_true_iff in Hall as [Hp Hall].
  destruct (IH (i + 1) Hall) as (tuples & ps & Ht & Hps).
  destruct p as [| | | | |l|]; try discriminate Hp.
  destruct l as [|a [|b [|c l]]]; try discriminate Hp;
    destruct a; try discriminate Hp; destruct b; try discriminate Hp.
  simpl. rewrite Ht. simpl. eexists _, _. split; [done|].
  simpl. by rewrite Hps.
Qed.

Lemma record_conforming i r :
  is_zone_record r = true →
  ∃ loaded z, load_zone i r = Ok loaded ∧ zone_of loaded = Some z.
Proof.
  intros Hr. destruct r as [| | | | | |fields]; try discriminate Hr.
  simpl in Hr. apply andb_true_iff in Hr as [Hname Hpts].
  unfold load_zone.
  destruct (dict_get "points" fields) as [[| | | | |pts|]|];
    try discriminate Hpts.
  destruct (points_conforming pts Hpts) as (tuples & ps & Ht & Hps).
  simpl. unfold map_result. rewrite Ht. simpl.
  destruct (dict_get "name" fields) as [[| | | |nm| |]|];
    try discriminate Hname;
    (eexists _, _; split; [done|]; unfold zone_of; simpl; by rewrite Hps).
Qed.

(** A file in the persisted format loads, and loads as zones. *)
Lemma load_zones_conforming path fs0 j :
  files fs0 !! path = Some (Document j) → conforms j = true →
  ∃ loaded zs, load_zones path fs0 = Ok loaded
               ∧ mapM zone_of loaded = Some zs.
Proof.
  intros Hf Hj. unfold load_zones. rewrite Hf.
  destruct j as [| | | | |records|]; try discriminate Hj. simpl in *.
  clear Hf. generalize 0. induction records as [|r records IH]; intros i.
  { by exists [], []. }
  simpl in Hj. apply andb_true_iff in Hj as [Hr Hj].
  destruct (IH Hj (i + 1)) as (loaded & zs & Hl & Hzs).
  destruct (record_conforming i r Hr) as (l & z & Hlz & Hz).
  simpl. rewrite Hlz. simpl. rewrite Hl. simpl.
  eexists _, _. split; [done|]. simpl. by rewrite Hz, Hzs.
Qed.

Lemma handle_key_load args st :
  handle_key args st (ord "l") =
    match load_zones (args_zones args) (fs st) with
    | Raise e => Crashed e
    | Ok loaded =>
        match mapM zone_of loaded with
        | None => IllTyped
        | Some zs =>
            let '(h, objs) := alloc_zones (heap st) zs in
            Running (print ("Loaded " +:+ str (Z.of_nat (length zs)) +:+
                            " zones from " +:+ args_zones args)
                       (set_zones objs (set_heap h st)))
        end
    end.
Proof. reflexivity. Qed.

(** What [load_zones] does with documents of other shapes. *)
Example load_zones_shapes :
  load_zones "zones.json" (file_of (JArray [])) = Ok []
  ∧ load_zones "zones.json" (file_of (JObject [])) = Ok []
  ∧ load_zones "zones.json" (file_of (JString "ab")) = Raise AttributeError
  ∧ load_zones "zones.json" (file_of (JInt 5)) = Raise TypeError
  ∧ load_zones "zones.json" (file_of JNull) = Raise TypeError
  ∧ load_zones "zones.json" (file_of (JArray [JArray [JInt 1]]))
    = Raise AttributeError
  ∧ load_zones "zones.json"
      (file_of (JArray [JObject [("name", JString "A")]])) = Raise KeyError
  ∧ load_zones "zones.json"
      (file_of (JArray [JObject [("points", JArray [JInt 1])]]))
    = Raise TypeError
  ∧ load_zones "zones.json"
      (file_of (JArray [JObject [("points", JArray [JArray [JInt 1; JInt 2]])]]))
    = Ok [{| loaded_name := JString "Zone 1";
             loaded_points := [[JInt 1; JInt 2]] |}]
  ∧ load_zones "zones.json"
      (file_of (JArray [JObject [("name", JString "x"); ("name", JString "y");
                                 ("points", JArray [])]]))
    = Ok [{| loaded_name := JString "y"; loaded_points := [] |}]
  ∧ load_zones "zones.json"
      (file_of (JArray [JObject [("points", JArray [JArray [JInt 1; JInt 2;
                                                            JInt 3]])]]))
    = Ok [{| loaded_name := JString "Zone 1";
             loaded_points := [[JInt 1; JInt 2; JInt 3]] |}].
Proof. vm_compute. repeat split; reflexivity. Qed.

(** C5, as stated, fails twice: at the [l] key a file that does not parse
    ends [main] with the exception instead of leaving the loop running with
    no zone; and a file that breaks the format by a numeric name is loaded
    without any failure. *)
Lemma load_failure_not_tolerated :
  ¬ load_tolerated args_plain (with_fs fs_not_json)
  ∧ ¬ load_rejects "zones.json" fs_numbered.
Proof.
  split.
  - intros H. destruct H as (st' & Hk & _); [by left|].
    vm_compute in Hk. discriminate Hk.
  - intros H. destruct H as (e & He).
    + right. eexists. split; reflexivity.
    + vm_compute in He. discriminate He.
Qed.

(** C5 (amended). [load_zones] returns no zone when there is no file at
    the path.  It raises when the file is no JSON document
    ([JSONDecodeError]) and when some record has no point list.  Neither
    [main]'s start nor the [l] key catches what it raises: [main] ends
    with that exception. *)
Theorem load_zones_failures (path : string) (fs0 : FS) :
  (files fs0 !! path = None → load_zones path fs0 = Ok [])
  ∧ (files fs0 !! path = Some NotJson →
       load_zones path fs0 = Raise JSONDecodeError)
  ∧ (∀ records (i : nat) fields,
       files fs0 !! path = Some (Document (JArray records)) →
       records !! i = Some (JObject fields) →
       dict_get "points" fields = None →
       ∃ e, load_zones path fs0 = Raise e)
  ∧ (∀ e args st frames,
       load_zones path fs0 = Raise e →
       args_zones args = path → fs st = fs0 →
       handle_key args st (ord "l") = Crashed e
       ∧ start args true frames fs0 = Crashed e).
Proof.
  split; [|split; [|split]].
  - intros H. unfold load_zones. by rewrite H.
  - intros H. unfold load_zones. by rewrite H.
  - intros records i fields Hf Hi Hp. unfold load_zones. rewrite Hf. simpl.
    apply (map_enumerate_raises load_zone 0 records i (JObject fields) KeyError);
      [done|].
    unfold load_zone. by rewrite Hp.
  - intros e args st frames He <- <-. split.
    + by rewrite handle_key_load, He.
    + unfold start. simpl. by rewrite He.
Qed.

Lemma load_zones_failures_witness :
  load_zones "zones.json" fs_empty = Ok []
  ∧ load_zones "zones.json" fs_not_json = Raise JSONDecodeError
  ∧ (∃ e, load_zones "zones.json" fs_no_points = Raise e)
  ∧ handle_key args_plain (with_fs fs_not_json) (ord "l")
    = Crashed JSONDecodeError
  ∧ start args_plain true [] fs_not_json = Crashed JSONDecodeError.
Proof.
  split; [|split; [|split]].
  - apply (proj1 (load_zones_failures "zones.json" fs_empty)). reflexivity.
  - apply (proj1 (proj2 (load_zones_failures "zones.json" fs_not_json))).
    reflexivity.
  - apply (proj1 (proj2 (proj2 (load_zones_failures "zones.json" fs_no_points)))
             [JObject [("name", JString "A")]] 0%nat [("name", JString "A")]);
      reflexivity.
  - apply (proj2 (proj2 (proj2 (load_zones_failures "zones.json" fs_not_json)))
             JSONDecodeError args_plain (with_fs fs_not_json) []);
      reflexivity.
Defined.

(** ** The zone editor *)

Lemma zone_at_insert h a l z :
  zone_points z ≠ a → zone_at (<[a := l]> h) z = zone_at h z.
Proof.
  intros Hne. unfold zone_at. by rewrite list_lookup_total_insert_ne.
Qed.

Lemma zone_at_app h h' z :
  (zone_points z < length h)%nat → zone_at (h ++ h') z = zone_at h z.
Proof. intros Hlt. unfold zone_at. by rewrite lookup_total_app_l. Qed.

Lemma zones_at_insert h a l (zs : list ZoneObj) :
  Forall (λ z, (zone_points z < length h)%nat ∧ zone_points z ≠ a) zs →
  zone_at (<[a := l]> h) <$> zs = zone_at h <$> zs.
Proof.
  intros Hzs. apply list_fmap_ext. intros i z Hz.
  apply zone_at_insert. eapply Forall_lookup_1 in Hzs; [|done]. tauto.
Qed.

Lemma zones_at_app h h' a (zs : list ZoneObj) :
  Forall (λ z, (zone_points z < length h)%nat ∧ zone_points z ≠ a) zs →
  zone_at (h ++ h') <$> zs = zone_at h <$> zs.
Proof.
  intros Hzs. apply list_fmap_ext. intros i z Hz.
  apply zone_at_app. eapply Forall_lookup_1 in Hzs; [|done]. tauto.
Qed.

Lemma wf_insert_active st l :
  wf st → wf (set_heap (<[active st := l]> (heap st)) st).
Proof.
  intros [Ha Hzs]. split; simpl; rewrite length_insert; done.
Qed.

(** A click appends to the active list and leaves every zone alone. *)
Lemma add_point_spec st p :
  wf st →
  wf (add_point st p)
  ∧ active_poly (add_point st p) = active_poly st ++ [p]
  ∧ zones (add_point st p) = zones st
  ∧ zones_of (add_point st p) = zones_of st
  ∧ zone_counter (add_point st p) = zone_counter st.
Proof.
  intros Hwf. destruct p as [x y].
  unfold add_point, on_mouse. simpl.
  split; [by apply wf_insert_active|].
  destruct Hwf as [Ha Hzs].
  split; [unfold active_poly; simpl; by rewrite list_lookup_total_insert_eq|].
  split; [done|]. split; [|done].
  unfold zones_of. simpl. by apply zones_at_insert.
Qed.

Lemma on_mouse_spec st m :
  wf st →
  wf (on_mouse st m) ∧ zones (on_mouse st m) = zones st
  ∧ zones_of (on_mouse st m) = zones_of st
  ∧ csv_f (on_mouse st m) = csv_f st.
Proof.
  intros Hwf. unfold on_mouse.
  destruct (mouse_event m =? EVENT_LBUTTONDOWN); [|done].
  split; [by apply wf_insert_active|]. split; [done|]. split; [|done].
  unfold zones_of. simpl. apply zones_at_insert, Hwf.
Qed.

(** The branch of [handle_key] taken at the [n] key. *)
Ltac at_key_n :=
  unfold handle_key;
  change (ord "n" =? ord "q") with false; change (ord "n" =? 27) with false;
  change (ord "n" =? ord "h") with false;
  change (ord "n" =? ord "p") with false;
  change (ord "n" =? ord "z") with false;
  change (ord "n" =? ord "n") with true;
  cbn [orb]; cbv iota.

Section Editor.

Variable args : Args.

(** The [n] key with at least three points: one zone more, holding a
    list of its own with the points of the active polygon. *)
Lemma finalize_commit st :
  wf st → (3 ≤ length (active_poly st))%nat →
  ∃ st', handle_key args st (ord "n") = Running st'
    ∧ wf st'
    ∧ active_poly st' = []
    ∧ zones st' = zones st ++ [{| zone_name := default_name st;
                                  zone_points := length (heap st) |}]
    ∧ zones_of st' = zones_of st ++ [{| name := default_name st;
                                        points := active_poly st |}]
    ∧ zone_counter st' = zone_counter st + 1.
Proof.
  intros [Ha Hzs] Hlen. at_key_n.
  destruct (Nat.leb_spec 3 (length (active_poly st))) as [_|?]; [|lia].
  eexists. split; [reflexivity|]. simpl.
  assert (Hzs' : Forall (λ z, (zone_points z < length (heap st ++ [active_poly st]))%nat
                              ∧ zone_points z ≠ active st)
                   (zones st ++ [{| zone_name := "Zone " +:+ pretty (zone_counter st + 1);
                                    zone_points := length (heap st) |}])).
  { apply Forall_app. split.
    - eapply Forall_impl; [exact Hzs|]. simpl. intros z [? ?].
      rewrite length_app. simpl. split; [lia | done].
    - constructor; [|constructor]. simpl. rewrite length_app. simpl.
      split; lia. }
  split.
  { split; simpl; rewrite length_insert.
    - rewrite length_app. lia.
    - exact Hzs'. }
  split.
  { unfold active_poly. simpl. rewrite list_lookup_total_insert_eq; [done|].
    rewrite length_app. lia. }
  split; [done|]. split; [|done].
  unfold zones_of. simpl.
  rewrite zones_at_insert by exact Hzs'.
  rewrite fmap_app. f_equal.
  - by apply zones_at_app with (a := active st).
  - simpl. unfold zone_at. simpl. f_equal. f_equal.
    rewrite lookup_total_app_r by lia.
    by rewrite Nat.sub_diag.
Qed.

(** The [n] key with fewer than three points: the points are dropped. *)
Lemma finalize_discard st :
  wf st → (length (active_poly st) < 3)%nat →
  ∃ st', handle_key args st (ord "n") = Running st'
    ∧ wf st'
    ∧ active_poly st' = []
    ∧ zones st' = zones st
    ∧ zones_of st' = zones_of st
    ∧ zone_counter st' = zone_counter st.
Proof.
  intros Hwf Hlen. at_key_n.
  destruct (Nat.leb_spec 3 (length (active_poly st))) as [?|_]; [lia|].
  eexists. split; [reflexivity|].
  split; [by apply wf_insert_active|].
  destruct Hwf as [Ha Hzs].
  split; [unfold active_poly; simpl; by rewrite list_lookup_total_insert_eq|].
  split; [done|]. split; [|done].
  unfold zones_of. simpl. by apply zones_at_insert.
Qed.

End Editor.

Example start_plain : start args_plain true [] fs_empty = Running st_plain.
Proof. reflexivity. Qed.

Lemma wf_st_plain : wf st_plain.
Proof. split; [simpl; lia | constructor]. Qed.

Lemma editor_three_points args st a b c :
  wf st → active_poly st = [] →
  ∃ st', handle_key args (add_point (add_point (add_point st a) b) c)
           (ord "n") = Running st'
    ∧ zones_of st' = zones_of st ++ [{| name := default_name st;
                                        points := [a; b; c] |}]
    ∧ length (zones st') = S (length (zones st))
    ∧ active_poly st' = [].
Proof.
  intros Hwf Hidle.
  destruct (add_point_spec st a Hwf) as (Hwf1 & Hp1 & Hz1 & Hzo1 & Hc1).
  destruct (add_point_spec _ b Hwf1) as (Hwf2 & Hp2 & Hz2 & Hzo2 & Hc2).
  destruct (add_point_spec _ c Hwf2) as (Hwf3 & Hp3 & Hz3 & Hzo3 & Hc3).
  rewrite Hp2, Hp1, Hidle in Hp3. simpl in Hp3.
  destruct (finalize_commit args _ Hwf3) as (st' & Hk & _ & Hact & Hzs & Hzo & _).
  { rewrite Hp3. simpl. lia. }
  exists st'. split; [done|].
  split.
  { rewrite Hzo, Hzo3, Hzo2, Hzo1, Hp3. unfold default_name.
    by rewrite Hc3, Hc2, Hc1. }
  split; [|done].
  rewrite Hzs, Hz3, Hz2, Hz1, length_app. simpl. lia.
Qed.

Lemma editor_two_points args st a b :
  wf st → active_poly st = [] →
  ∃ st', handle_key args (add_point (add_point st a) b) (ord "n")
         = Running st'
    ∧ zones st' = zones st
    ∧ zones_of st' = zones_of st
    ∧ active_poly st' = [].
Proof.
  intros Hwf Hidle.
  destruct (add_point_spec st a Hwf) as (Hwf1 & Hp1 & Hz1 & Hzo1 & Hc1).
  destruct (add_point_spec _ b Hwf1) as (Hwf2 & Hp2 & Hz2 & Hzo2 & Hc2).
  rewrite Hp1, Hidle in Hp2. simpl in Hp2.
  destruct (finalize_discard args _ Hwf2) as (st' & Hk & _ & Hact & Hzs & Hzo & _).
  { rewrite Hp2. simpl. lia. }
  exists st'. split; [done|].
  split; [by rewrite Hzs, Hz2, Hz1|].
  split; [by rewrite Hzo, Hzo2, Hzo1 | done].
Qed.

(** C3. Finalize (the [n] key) in a well-formed state.  With at least
    three points, exactly one zone is appended: it has the default name and
    a list of its own holding the points of the active polygon in order,
    so that later clicks do not reach it; with fewer, no zone is created.
    Either way the active polygon is left empty.  From an empty active
    polygon, three clicks and Finalize create one zone with exactly those
    points; two clicks and Finalize create none. *)
Theorem zone_editor_finalize (args : Args) (st : State) (Hwf : wf st) :
  (∃ st', handle_key args st (ord "n") = Running st'
     ∧ active_poly st' = []
     ∧ (∀ p, zones_of (add_point st' p) = zones_of st')
     ∧ if (3 <=? length (active_poly st))%nat
       then zones_of st' = zones_of st ++ [{| name := default_name st;
                                              points := active_poly st |}]
            ∧ ∃ z, zones st' = zones st ++ [z] ∧ zone_points z ≠ active st'
       else zones st' = zones st ∧ zones_of st' = zones_of st)
  ∧ (∀ a b c, active_poly st = [] →
       ∃ st', handle_key args (add_point (add_point (add_point st a) b) c)
                (ord "n") = Running st'
         ∧ zones_of st' = zones_of st ++ [{| name := default_name st;
                                             points := [a; b; c] |}]
         ∧ length (zones st') = S (length (zones st))
         ∧ active_poly st' = [])
  ∧ (∀ a b, active_poly st = [] →
       ∃ st', handle_key args (add_point (add_point st a) b) (ord "n")
              = Running st'
         ∧ zones st' = zones st
         ∧ zones_of st' = zones_of st
         ∧ active_poly st' = []).
Proof.
  split; [|split].
  - destruct (Nat.leb_spec 3 (length (active_poly st))) as [Hlen|Hlen].
    + destruct (finalize_commit args st Hwf Hlen)
        as (st' & Hk & Hwf' & Hact & Hzs & Hzo & _).
      exists st'. split; [done|]. split; [done|].
      split; [intros p; apply (add_point_spec st' p Hwf')|].
      split; [done|]. eexists. split; [exact Hzs|]. simpl.
      destruct Hwf' as [_ Hall]. rewrite Hzs in Hall.
      apply Forall_app in Hall as [_ Hlast].
      apply Forall_cons in Hlast as [[_ Hne] _]. exact Hne.
    + destruct (finalize_discard args st Hwf Hlen)
        as (st' & Hk & Hwf' & Hact & Hzs & Hzo & _).
      exists st'. split; [done|]. split; [done|].
      split; [intros p; apply (add_point_spec st' p Hwf')|]. done.
  - intros a b c Hidle. by apply editor_three_points.
  - intros a b Hidle. by apply editor_two_points.
Qed.

Lemma zone_editor_finalize_witness :
  wf st_plain
  ∧ ∃ st', handle_key args_plain
             (add_point (add_point (add_point st_plain (1, 2)) (3, 4)) (5, 6))
             (ord "n") = Running st'
      ∧ zones_of st' = zones_of st_plain ++ [{| name := default_name st_plain;
                                                points := [(1, 2); (3, 4); (5, 6)] |}]
      ∧ length (zones st') = S (length (zones st_plain))
      ∧ active_poly st' = [].
Proof.
  assert (Hwf : wf st_plain) by (split; [simpl; lia | constructor]).
  split; [exact Hwf|].
  apply (proj1 (proj2 (zone_editor_finalize args_plain st_plain Hwf))).
  reflexivity.
Defined.

(** ** The CSV log: the claims *)

Lemma handle_key_keeps_log args st key st' :
  state_of (handle_key args st key) = Some st' →
  csv_f st' = csv_f st ∧ frame_idx st' = frame_idx st ∧ cap st' = cap st.
Proof.
  unfold handle_key. intros H.
  repeat match type of H with
         | context [if ?b then _ else _] => destruct b
         | context [match ?r with Ok _ => _ | Raise _ => _ end] => destruct r
         | context [match ?o with Some _ => _ | None => _ end] => destruct o
         | context [let '(_, _) := ?p in _] => destruct p
         end;
    simpl in H; try discriminate H; injection H as <-; done.
Qed.

Lemma on_mouse_keeps_log st ms :
  csv_f (foldl on_mouse st ms) = csv_f st
  ∧ frame_idx (foldl on_mouse st ms) = frame_idx st
  ∧ cap (foldl on_mouse st ms) = cap st
  ∧ paused (foldl on_mouse st ms) = paused st.
Proof.
  revert st. induction ms as [|m ms IH]; intros st; [done|].
  simpl. destruct (IH (on_mouse st m)) as (-> & -> & -> & ->).
  unfold on_mouse. by destruct (mouse_event m =? EVENT_LBUTTONDOWN).
Qed.

Section Log.

Variable np_mean : list spec_float → spec_float.
Variable args : Args.

(** A processed frame writes one row: the frame index, the number of
    detections, the average motion to two decimals, and one count per zone
    of the collection as it is when the frame is processed. *)
Lemma process_frame_row st st' :
  process_frame np_mean args st = Running st' →
  ∃ frame rest avg values counts,
    cap st = frame :: rest
    ∧ compute_motion_percent np_mean (shape frame) (fgmask frame)
        (detections frame) (args_bs_thresh args)
      = Ok (avg, values, fgmask frame)
    ∧ zone_counts (detections frame) (zones_of st) = Ok counts
    ∧ csv_f st' =
        (λ lines, lines ++
           [csv_row (frame_idx st) (Z.of_nat (length (detections frame)))
              avg counts (zones_of st)]) <$> csv_f st
    ∧ frame_idx st' = frame_idx st + 1
    ∧ cap st' = rest.
Proof.
  unfold process_frame. intros H.
  destruct (cap st) as [|frame rest]; [done|].
  destruct (compute_motion_percent _ _ _ _ _) as [[[avg values] mask]|]
    eqn:Hm; [|done].
  destruct (zone_counts _ _) as [counts|] eqn:Hc; [|done].
  injection H as <-.
  exists frame, rest, avg, values, counts.
  split; [done|]. split; [|done].
  unfold compute_motion_percent in *.
  destruct (for_each _ _ _); simpl in *; [|done]. by injection Hm as -> -> ->.
Qed.

(** When the source is exhausted the loop is left with the state as it
    was. *)
Lemma process_frame_end st st' :
  process_frame np_mean args st = Finished st' → st' = st.
Proof.
  unfold process_frame. intros H.
  destruct (cap st) as [|frame rest]; [by injection H|].
  destruct (compute_motion_percent _ _ _ _ _) as [[[avg values] mask]|];
    [|done].
  by destruct (zone_counts _ _).
Qed.

(** One pass of the loop writes at most one row, and as many rows as it
    advances the frame index. *)
Lemma iteration_log st p st' :
  state_of (iteration np_mean args st p) = Some st' →
  ∃ rows, csv_f st' = (λ lines, lines ++ rows) <$> csv_f st
          ∧ Z.of_nat (length rows) = frame_idx st' - frame_idx st
          ∧ (length rows ≤ 1)%nat.
Proof.
  unfold iteration. intros H.
  assert (Hnil : ∀ o : option (list string),
             o = (λ lines, lines ++ []) <$> o).
  { intros [l|]; simpl; [by rewrite app_nil_r | done]. }
  destruct (paused st).
  - apply handle_key_keeps_log in H as (-> & -> & _).
    destruct (on_mouse_keeps_log st (mouse p)) as (-> & -> & _).
    exists []. split; [apply Hnil|]. simpl. split; lia.
  - destruct (process_frame np_mean args st) as [st1|st1| |] eqn:Hp;
      try discriminate H.
    + apply handle_key_keeps_log in H as (-> & -> & _).
      destruct (on_mouse_keeps_log st1 (mouse p)) as (-> & -> & _).
      apply process_frame_row in Hp
        as (frame & rest & avg & values & counts & _ & _ & _ & -> & -> & _).
      eexists [_]. split; [done|]. simpl. split; lia.
    + apply process_frame_end in Hp as ->. injection H as <-.
      exists []. split; [apply Hnil|]. simpl. split; lia.
Qed.

(** Along the loop the log only grows at its end, by one row per
    processed frame. *)
Lemma main_loop_log st polls st' lines :
  state_of (main_loop np_mean args st polls) = Some st' →
  csv_f st = Some lines →
  ∃ rows, csv_f st' = Some (lines ++ rows)
          ∧ Z.of_nat (length rows) = frame_idx st' - frame_idx st.
Proof.
  revert st lines. induction polls as [|p polls IH]; intros st lines H Hlog.
  { injection H as <-. exists []. rewrite app_nil_r. split; [done|]. simpl; lia. }
  simpl in H.
  destruct (iteration np_mean args st p) as [st1|st1| |] eqn:Hit;
    try discriminate H.
  - destruct (iteration_log st p st1) as (rows1 & Hl & Hi & _);
      [by rewrite Hit|].
    rewrite Hlog in Hl. simpl in Hl.
    destruct (IH st1 _ H Hl) as (rows & Hrows & Hlen).
    exists (rows1 ++ rows). rewrite app_assoc. split; [done|].
    rewrite length_app. lia.
  - injection H as <-.
    destruct (iteration_log st p st1) as (rows1 & Hl & Hi & _);
      [by rewrite Hit|].
    rewrite Hlog in Hl. by exists rows1.
Qed.

End Log.

(** Freshly allocated zones read back as the zones they were made from. *)
Lemma alloc_zones_view h h' zs :
  zone_at ((alloc_zones h zs).1 ++ h') <$> (alloc_zones h zs).2 = zs.
Proof.
  unfold alloc_zones. simpl.
  apply list_eq. intros i. rewrite list_lookup_fmap, list_lookup_imap.
  destruct (zs !! i) as [z|] eqn:Hz; [|done]. simpl. f_equal.
  unfold zone_at. simpl. destruct z as [nm pts]. simpl. f_equal.
  apply list_lookup_total_correct.
  rewrite <- app_assoc, lookup_app_r by lia.
  replace (length h + i - length h)%nat with i by lia.
  rewrite lookup_app_l by (rewrite length_fmap; eauto using lookup_lt_Some).
  by rewrite list_lookup_fmap, Hz.
Qed.

Lemma start_log args frames fs0 st0 path :
  start args true frames fs0 = Running st0 →
  args_csv args = Some path → path ≠ EmptyString →
  csv_f st0 = Some [csv_header (zones_of st0)] ∧ frame_idx st0 = 0.
Proof.
  unfold start. simpl. intros H Hcsv Hpath.
  destruct (load_zones _ _) as [loaded|]; [|done].
  destruct (mapM zone_of loaded) as [zs|]; [|done].
  rewrite Hcsv in H. simpl in H.
  destruct path as [|c path]; [done|].
  destruct (decide _); [done|]. injection H as <-. simpl.
  split; [|done]. do 3 f_equal.
  unfold zones_of. simpl. symmetry. apply (alloc_zones_view [] [[]] zs).
Qed.

(** Saving with [s] and loading with [l] brings the same zones back. *)
Lemma save_then_load args st st1 :
  handle_key args st (ord "s") = Running st1 →
  ∃ st2, handle_key args st1 (ord "l") = Running st2
         ∧ zones_of st2 = zones_of st.
Proof.
  change (handle_key args st (ord "s")) with
    (match save_zones (args_zones args) (zones_of st) (fs st) with
     | Raise e => Crashed e
     | Ok fs' => Running (print ("Saved zones to " +:+ args_zones args)
                            (set_fs fs' st))
     end).
  unfold save_zones. destruct (decide _); [done|]. intros H. injection H as <-.
  rewrite handle_key_load. simpl fs.
  rewrite load_zones_written, mapM_zone_of_loaded. simpl heap.
  pose proof (alloc_zones_view (heap st) [] (zones_of st)) as Hview.
  rewrite app_nil_r in Hview.
  destruct (alloc_zones (heap st) (zones_of st)) as [h objs].
  eexists. split; [done|]. exact Hview.
Qed.

Example start_logging :
  start args_logging true [empty_frame; empty_frame] fs_empty
  = Running st_logging.
Proof. reflexivity. Qed.

(** The log of the run that draws a zone after its first frame. *)
Example log_draw_zone np_mean st0 :
  start args_logging true [empty_frame; empty_frame] fs_empty = Running st0 →
  log_of (main_loop np_mean args_logging st0 polls_draw_zone)
  = Some ["frame,count_total,avg_motion"; "0,0,0.00"; "1,0,0.00,0"].
Proof. intros H. injection H as <-. vm_compute. reflexivity. Qed.

(** C4, as stated, fails: the header is written once and stays, but a row
    lists the zones of the collection as it is when the row is written, so
    after a zone is drawn the rows have a column that the header lacks. *)
Lemma log_row_gains_column :
  ¬ log_columns_fixed mean_unused args_logging [empty_frame; empty_frame]
      fs_empty polls_draw_zone.
Proof.
  intros H.
  specialize (H st_logging _ start_logging
                (log_draw_zone mean_unused st_logging start_logging)).
  apply Forall_cons in H as [_ H]. apply Forall_cons in H as [_ H].
  apply Forall_cons in H as [H _]. vm_compute in H. discriminate H.
Qed.

(** C4 (amended). The header is written once, when the log is opened: the
    three fixed columns, then the names of the zones loaded at start, in
    order.  After that the log only grows at its end, by exactly one row
    per processed frame, so the header never gains a column.  A row holds
    the frame index, the number of detections, the average motion to two
    decimals, and one count per zone of the collection as it is when the
    frame is processed. *)
Theorem csv_log_rows (np_mean : list spec_float → spec_float) (args : Args)
    (frames : list Frame) (fs0 : FS) (st0 : State) (path : string)
    (polls : list Poll) (st' : State)
    (Hstart : start args true frames fs0 = Running st0)
    (Hcsv : args_csv args = Some path) (Hpath : path ≠ EmptyString)
    (Hrun : state_of (main_loop np_mean args st0 polls) = Some st') :
  csv_f st0 = Some [csv_header (zones_of st0)]
  ∧ csv_header (zones_of st0)
    = join_comma (["frame"; "count_total"; "avg_motion"]
                  ++ (name <$> zones_of st0))
  ∧ (∃ rows, csv_f st' = Some (csv_header (zones_of st0) :: rows)
             ∧ Z.of_nat (length rows) = frame_idx st')
  ∧ (∀ st st1, process_frame np_mean args st = Running st1 →
       ∃ frame avg values counts,
         head (cap st) = Some frame
         ∧ compute_motion_percent np_mean (shape frame) (fgmask frame)
             (detections frame) (args_bs_thresh args)
           = Ok (avg, values, fgmask frame)
         ∧ zone_counts (detections frame) (zones_of st) = Ok counts
         ∧ csv_f st1 =
             (λ lines, lines ++
                [join_comma
                   ([str (frame_idx st);
                     str (Z.of_nat (length (detections frame)));
                     format_2f avg]
                    ++ ((λ z, str (default 0 (counts !! name z)))
                          <$> zones_of st))]) <$> csv_f st).
Proof.
  destruct (start_log args frames fs0 st0 path Hstart Hcsv Hpath) as [Hlog Hidx].
  split; [done|]. split; [done|]. split.
  - destruct (main_loop_log np_mean args st0 polls st' _ Hrun Hlog)
      as (rows & Hrows & Hlen).
    exists rows. split; [done|]. lia.
  - intros st st1 Hp.
    apply process_frame_row in Hp
      as (frame & rest & avg & values & counts & Hcap & Hm & Hc & Hl & _).
    exists frame, avg, values, counts. rewrite Hcap. done.
Qed.

Lemma csv_log_rows_witness :
  start args_logging true [empty_frame; empty_frame] fs_empty
  = Running st_logging
  ∧ ∃ st', state_of (main_loop mean_unused args_logging st_logging
                       polls_draw_zone) = Some st'
      ∧ csv_f st_logging = Some [csv_header (zones_of st_logging)]
      ∧ ∃ rows, csv_f st' = Some (csv_header (zones_of st_logging) :: rows)
                ∧ Z.of_nat (length rows) = frame_idx st'.
Proof.
  split; [reflexivity|]. eexists.
  split; [vm_compute; reflexivity|].
  match goal with
  | |- _ ∧ (∃ rows, csv_f ?st' = _ ∧ _) =>
      destruct (csv_log_rows mean_unused args_logging
                  [empty_frame; empty_frame] fs_empty st_logging "log.csv"
                  polls_draw_zone st') as (H1 & _ & H3 & _)
  end; [reflexivity | reflexivity | discriminate | vm_compute; reflexivity|].
  split; [exact H1 | exact H3].
Defined.

(** ** Well-formedness holds in every state that [main] reaches *)

Lemma wf_same_heap st st' :
  heap st' = heap st → zones st' = zones st → active st' = active st →
  wf st → wf st'.
Proof. unfold wf. by intros -> -> ->. Qed.

Lemma wf_alloc_zones st zs :
  wf st →
  wf (set_zones (alloc_zones (heap st) zs).2
        (set_heap (alloc_zones (heap st) zs).1 st)).
Proof.
  intros [Ha _]. split; simpl.
  - rewrite length_app. lia.
  - apply Forall_lookup_2. intros i z Hz.
    rewrite list_lookup_imap in Hz.
    destruct (zs !! i) as [z0|] eqn:Hz0; [|done].
    injection Hz as <-. simpl. apply lookup_lt_Some in Hz0.
    rewrite length_app, length_fmap. lia.
Qed.

Lemma wf_start args frames fs0 st0 :
  start args true frames fs0 = Running st0 → wf st0.
Proof.
  unfold start. simpl. intros H.
  destruct (load_zones _ _) as [loaded|]; [|done].
  destruct (mapM zone_of loaded) as [zs|]; [|done].
  assert (Hwf : ∀ log, wf
    {| heap := (points <$> zs) ++ [[]];
       zones := imap (λ i z, {| zone_name := name z;
                                zone_points := 0 + i |}) zs;
       active := length (points <$> zs); zone_counter := Z.of_nat (length zs);
       help_on := true; paused := false; frame_idx := 0; cap := frames;
       csv_f := log; fs := fs0; stdout := [] |}).
  { intros log. split; simpl.
    - rewrite length_app. simpl. lia.
    - apply Forall_lookup_2. intros i z Hz.
      rewrite list_lookup_imap in Hz.
      destruct (zs !! i) as [z0|] eqn:Hz0; [|done].
      injection Hz as <-. simpl. apply lookup_lt_Some in Hz0.
      rewrite length_app, length_fmap. simpl. lia. }
  destruct (args_csv args) as [[|c path]|]; simpl in H.
  - injection H as <-. apply Hwf.
  - destruct (decide _); [done|]. injection H as <-. apply Hwf.
  - injection H as <-. apply Hwf.
Qed.

Lemma handle_key_cases args st key :
  key ∈ [ord "q"; 27; ord "h"; ord "p"; ord "z"; ord "n"; ord "s"; ord "l"]
  ∨ handle_key args st key = Running st.
Proof.
  destruct (decide (key ∈ [ord "q"; 27; ord "h"; ord "p"; ord "z"; ord "n";
                           ord "s"; ord "l"])) as [?|Hn]; [by left|].
  right. unfold handle_key.
  repeat (rewrite not_elem_of_cons in Hn; destruct Hn as [? Hn]).
  by rewrite !(proj2 (Z.eqb_neq key _)) by done.
Qed.

Lemma wf_handle_key args st key st' :
  wf st → state_of (handle_key args st key) = Some st' → wf st'.
Proof.
  intros Hwf H.
  destruct (handle_key_cases args st key) as [Hkey|Hk];
    [|rewrite Hk in H; by injection H as <-].
  repeat (apply elem_of_cons in Hkey as [->|Hkey]);
    [..|by apply elem_of_nil in Hkey].
  - by injection H as <-.
  - by injection H as <-.
  - injection H as <-. by apply (wf_same_heap st).
  - injection H as <-. by apply (wf_same_heap st).
  - change (handle_key args st (ord "z")) with
      (if (0 <? length (active_poly st))%nat
       then Running (set_heap (<[active st := removelast (active_poly st)]>
                                 (heap st)) st)
       else Running st) in H.
    destruct (0 <? length (active_poly st))%nat; injection H as <-;
      [by apply wf_insert_active | done].
  - destruct (Nat.leb_spec 3 (length (active_poly st))) as [Hlen|Hlen].
    + destruct (finalize_commit args st Hwf Hlen) as (st1 & Hk & Hwf1 & _).
      rewrite Hk in H. by injection H as <-.
    + destruct (finalize_discard args st Hwf Hlen) as (st1 & Hk & Hwf1 & _).
      rewrite Hk in H. by injection H as <-.
  - change (handle_key args st (ord "s")) with
      (match save_zones (args_zones args) (zones_of st) (fs st) with
       | Raise e => Crashed e
       | Ok fs' => Running (print ("Saved zones to " +:+ args_zones args)
                              (set_fs fs' st))
       end) in H.
    destruct (save_zones _ _ _); [|done]. injection H as <-.
    by apply (wf_same_heap st).
  - rewrite handle_key_load in H.
    destruct (load_zones _ _) as [loaded|]; [|done].
    destruct (mapM zone_of loaded) as [zs|]; [|done].
    pose proof (wf_alloc_zones st zs Hwf) as Hwf'.
    destruct (alloc_zones (heap st) zs) as [h objs]. injection H as <-.
    revert Hwf'. by apply wf_same_heap.
Qed.

Lemma wf_on_mouse_all st ms : wf st → wf (foldl on_mouse st ms).
Proof.
  revert st. induction ms as [|m ms IH]; intros st Hwf; [done|].
  simpl. apply IH. by apply on_mouse_spec.
Qed.

Lemma process_frame_keeps np_mean args st st' :
  process_frame np_mean args st = Running st' →
  heap st' = heap st ∧ zones st' = zones st ∧ active st' = active st.
Proof.
  unfold process_frame. intros H.
  destruct (cap st) as [|frame rest]; [done|].
  destruct (compute_motion_percent _ _ _ _ _) as [[[avg values] mask]|];
    [|done].
  destruct (zone_counts _ _) as [counts|]; [|done].
  by injection H as <-.
Qed.

Lemma wf_iteration np_mean args st p st' :
  wf st → state_of (iteration np_mean args st p) = Some st' → wf st'.
Proof.
  intros Hwf H. unfold iteration in H. destruct (paused st).
  - eapply wf_handle_key; [|exact H]. by apply wf_on_mouse_all.
  - destruct (process_frame np_mean args st) as [st1|st1| |] eqn:Hp;
      try discriminate H.
    + eapply wf_handle_key; [|exact H]. apply wf_on_mouse_all.
      apply process_frame_keeps in Hp as (? & ? & ?).
      by apply (wf_same_heap st).
    + apply process_frame_end in Hp as ->. by injection H as <-.
Qed.

(** Every state of a run is well formed. *)
Lemma wf_main_loop np_mean args st polls st' :
  wf st → state_of (main_loop np_mean args st polls) = Some st' → wf st'.
Proof.
  revert st. induction polls as [|p polls IH]; intros st Hwf H.
  { by injection H as <-. }
  simpl in H.
  destruct (iteration np_mean args st p) as [st1|st1| |] eqn:Hit;
    try discriminate H.
  - apply (IH st1); [|done]. apply (wf_iteration np_mean args st p); [done|].
    by rewrite Hit.
  - injection H as <-. apply (wf_iteration np_mean args st p); [done|].
    by rewrite Hit.
Qed.

(* ================================================================== *)
(** * Further properties *)

(** ** The exceptions of the numeric code *)

(** A loop ends as its body does: an invariant [P] of the state that the
    body keeps holds of the result, and the loop raises only what the body
    raises. *)
Lemma for_each_ends {S A} (body : S → A → result S) (P : S → Prop)
    (Q : exn → Prop) xs s :
  P s → (∀ s x, x ∈ xs → P s → ends P Q (body s x)) →
  ends P Q (for_each body s xs).
Proof.
  revert s. induction xs as [|x xs IH]; intros s Hs Hb; [done|].
  simpl. pose proof (Hb s x ltac:(left) Hs) as Hx.
  destruct (body s x) as [s'|e]; simpl in *; [|done].
  apply IH; [done|]. intros s0 x0 Hin. apply Hb. by right.
Qed.

(** Rounding a non-negative significand gives a zero, a finite double or
    an infinity, never a NaN. *)
Lemma shr_fexp_nonneg m e l :
  0 ≤ m → 0 ≤ shr_m (shr_fexp F64.prec F64.emax m e l).1.
Proof.
  intros Hm. unfold shr_fexp, shr.
  assert (H0 : shr_m (shr_record_of_loc m l) = m) by (by destruct l as [|[]]).
  destruct (fexp F64.prec F64.emax (Zdigits2 m + e) - e) as [|k|k]; simpl;
    try (rewrite H0; lia).
  rewrite iter_pos_nat, shr_iter_m by (rewrite H0; lia).
  rewrite H0. apply Z.div_pos; [lia|]. apply Z.pow_pos_nonneg; lia.
Qed.

Lemma binary_round_aux_not_nan s mx e l :
  0 ≤ mx → is_nan (binary_round_aux F64.prec F64.emax s mx e l) = false.
Proof.
  intros Hm. unfold binary_round_aux.
  pose proof (shr_fexp_nonneg mx e l Hm) as H1.
  destruct (shr_fexp F64.prec F64.emax mx e l) as [mrs1 e1]. simpl in H1.
  pose proof (round_nearest_even_ge (shr_m mrs1) (loc_of_shr_record mrs1)) as Hge.
  pose proof (shr_fexp_nonneg
                (round_nearest_even (shr_m mrs1) (loc_of_shr_record mrs1))
                e1 loc_Exact ltac:(lia)) as H2.
  destruct (shr_fexp F64.prec F64.emax _ e1 loc_Exact) as [mrs2 e2].
  simpl in H2. destruct (shr_m mrs2) as [|m|m]; try lia; [done|].
  by destruct (e2 <=? F64.emax - F64.prec).
Qed.

(** Rounding a positive significand gives a finite double whose exponent
    is not below the one it was given with, or an infinity. *)
Lemma binary_round_aux_shape s p e l :
  3 - F64.emax - F64.prec ≤ e →
  (∃ m e', binary_round_aux F64.prec F64.emax s (Zpos p) e l
           = S754_finite s m e' ∧ e ≤ e')
  ∨ binary_round_aux F64.prec F64.emax s (Zpos p) e l = S754_infinity s.
Proof.
  intros He. unfold binary_round_aux.
  destruct (shr_fexp_pos (Zpos p) e l ltac:(lia) He) as [Hm1 He1].
  destruct (shr_fexp F64.prec F64.emax (Zpos p) e l) as [mrs1 e1].
  simpl in Hm1, He1.
  pose proof (round_nearest_even_ge (shr_m mrs1) (loc_of_shr_record mrs1)) as Hge.
  destruct (shr_fexp_pos (round_nearest_even (shr_m mrs1) (loc_of_shr_record mrs1))
              e1 loc_Exact ltac:(lia) ltac:(lia)) as [Hm2 He2].
  destruct (shr_fexp F64.prec F64.emax _ e1 loc_Exact) as [mrs2 e2].
  simpl in Hm2, He2. destruct (shr_m mrs2) as [|m|m]; try lia.
  destruct (e2 <=? F64.emax - F64.prec); [left|by right].
  exists m, e2. split; [done | lia].
Qed.

Lemma binary_round_shape s p e :
  3 - F64.emax - F64.prec ≤ e →
  (∃ m e', binary_round F64.prec F64.emax s p e = S754_finite s m e'
           ∧ Z.min e (F64.dig p + e - F64.prec) ≤ e')
  ∨ binary_round F64.prec F64.emax s p e = S754_infinity s.
Proof.
  intros He. unfold binary_round, shl_align.
  change (Zpos (digits2_pos p)) with (F64.dig p).
  destruct (fexp F64.prec F64.emax (F64.dig p + e) - e) as [|k|k] eqn:Hk.
  - destruct (binary_round_aux_shape s p e loc_Exact He)
      as [(m & e' & -> & ?) | ->]; [left|by right].
    exists m, e'. split; [done | lia].
  - destruct (binary_round_aux_shape s p e loc_Exact He)
      as [(m & e' & -> & ?) | ->]; [left|by right].
    exists m, e'. split; [done | lia].
  - assert (He0 : 3 - F64.emax - F64.prec
                   ≤ fexp F64.prec F64.emax (F64.dig p + e))
      by (unfold fexp, emin; lia).
    destruct (binary_round_aux_shape s (Pos.iter xO p k) _ loc_Exact He0)
      as [(m & e' & -> & ?) | ->]; [left|by right].
    exists m, e'. split; [done|]. unfold fexp, emin in *. lia.
Qed.

(** [float(n)] of a non-zero int: a finite double with an exponent of at
    least -52, unless it overflows. *)
Lemma of_Z_cases n :
  n ≠ 0 →
  (∃ s m e, F64.of_Z n = S754_finite s m e ∧ -52 ≤ e)
  ∨ ∃ s, F64.of_Z n = S754_infinity s.
Proof.
  unfold F64.of_Z, binary_normalize. destruct n as [|p|p]; [done| |]; intros _.
  - destruct (binary_round_shape false p 0) as [(m & e & -> & He) | ->];
      [unfold F64.emax, F64.prec; lia| |by right; eexists].
    left. exists false, m, e. split; [done|].
    pose proof (dig_pos p). unfold F64.prec in He. lia.
  - destruct (binary_round_shape true p 0) as [(m & e & -> & He) | ->];
      [unfold F64.emax, F64.prec; lia| |by right; eexists].
    left. exists true, m, e. split; [done|].
    pose proof (dig_pos p). unfold F64.prec in He. lia.
Qed.

Lemma float_of_int_cases n :
  float_of_int n = Raise OverflowError
  ∨ ∃ f, float_of_int n = Ok f ∧ is_number f = true
         ∧ (n = 0 → f = S754_zero false)
         ∧ (n ≠ 0 → ∃ s m e, f = S754_finite s m e ∧ -52 ≤ e).
Proof.
  destruct (decide (n = 0)) as [->|Hn].
  { right. exists (S754_zero false). by repeat split. }
  unfold float_of_int.
  destruct (of_Z_cases n Hn) as [(s & m & e & -> & He)|[s ->]]; [|by left].
  right. eexists. repeat split; try done. intros _. by exists s, m, e.
Qed.

(** [dy + 1e-9] is not zero when [dy] is a non-zero integer: scaled to
    the exponent of the literal, [dy] is even and the literal's significand
    is odd. *)
Lemma add_lit_finite s m e :
  -82 < e →
  ∃ s', (∃ m' e', F64.add (S754_finite s m e) F64.lit_1e_9
                  = S754_finite s' m' e')
        ∨ F64.add (S754_finite s m e) F64.lit_1e_9 = S754_infinity s'.
Proof.
  intros He. unfold F64.add, SFadd, F64.lit_1e_9.
  replace (Z.min e (-82)) with (-82) by lia.
  assert (Hs : ∃ k, cond_Zopp s (Zpos (fst (shl_align m e (-82)))) = 2 * k).
  { rewrite shl_align_fst by lia.
    replace (e - -82) with (Z.succ (e + 81)) by lia.
    rewrite Z.pow_succ_r by lia.
    exists (cond_Zopp s (Zpos m * 2 ^ (e + 81))).
    destruct s; simpl; lia. }
  destruct Hs as [k ->]. change (cond_Zopp false ?z) with z.
  change (Zpos (fst (shl_align 4835703278458517 (-82) (-82))))
    with 4835703278458517.
  unfold binary_normalize.
  destruct (2 * k + 4835703278458517) as [|p|p] eqn:HM; [lia| |].
  - exists false.
    destruct (binary_round_shape false p (-82)) as [(m' & e' & -> & _) | ->];
      [unfold F64.emax, F64.prec; lia| |by right]. left. by eexists _, _.
  - exists true.
    destruct (binary_round_shape true p (-82)) as [(m' & e' & -> & _) | ->];
      [unfold F64.emax, F64.prec; lia| |by right]. left. by eexists _, _.
Qed.

(** Hence the division of [xinters] never fails. *)
Lemma xinters_of_raises x1 y1 x2 y2 y :
  y1 ≠ y2 →
  ends (λ _, True) (λ e, e = OverflowError) (xinters_of x1 y1 x2 y2 y).
Proof.
  intros Hy. unfold xinters_of. cbv zeta.
  destruct (float_of_int_cases (y2 - y1)) as [-> | (dy & -> & _ & _ & Hdy)];
    [done|].
  destruct (Hdy ltac:(lia)) as (s & m & e & -> & He).
  rewrite bind_ok.
  destruct (float_of_int_cases ((x2 - x1) * (y - y1)))
    as [-> | (fnum & -> & _)]; [done|].
  rewrite bind_ok. unfold float_truediv.
  destruct (add_lit_finite s m e ltac:(lia)) as [s' [(m' & e' & ->) | ->]];
    simpl; by destruct (float_of_int_cases x1) as [-> | (fx1 & -> & _)].
Qed.

Lemma crosses_raises pt e :
  ends (λ _, True) (λ e, e = OverflowError) (crosses pt e).
Proof.
  destruct pt as [x y], e as [[x1 y1] [x2 y2]]. unfold crosses.
  destruct (xorb (y1 >? y) (y2 >? y)) eqn:Hx; [|done].
  assert (Hy : y1 ≠ y2) by (intros ->; by rewrite xorb_nilpotent in Hx).
  pose proof (xinters_of_raises x1 y1 x2 y2 y Hy) as H.
  by destruct (xinters_of x1 y1 x2 y2 y).
Qed.

Lemma inside_polygon_raises pt poly :
  ends (λ _, True) (λ e, e = OverflowError) (inside_polygon pt poly).
Proof.
  destruct (decide (length poly < 3)%nat) as [Hn|Hn].
  { by rewrite inside_polygon_short. }
  rewrite inside_polygon_edges by lia. unfold ray_casting.
  apply for_each_ends; [done|]. intros b e _ _.
  pose proof (crosses_raises pt e) as H. by destruct (crosses pt e).
Qed.

Lemma binary_round_not_nan s p e :
  is_nan (binary_round F64.prec F64.emax s p e) = false.
Proof.
  unfold binary_round, shl_align.
  destruct (fexp F64.prec F64.emax (Zpos (digits2_pos p) + e) - e);
    by apply binary_round_aux_not_nan.
Qed.

(** The sum of two doubles that are zero or finite is no NaN. *)
Lemma add_number a b :
  is_number a = true → is_number b = true → is_nan (F64.add a b) = false.
Proof.
  destruct a as [sa| | |sa ma ea], b as [sb| | |sb mb eb]; try done.
  - intros _ _. by destruct sa, sb.
  - intros _ _. unfold F64.add, SFadd, binary_normalize.
    match goal with |- context [match ?M with Z0 => _ | Zpos _ => _ | Zneg _ => _ end] =>
      destruct M end; [done| |]; apply binary_round_not_nan.
Qed.

(** [w / 2] is a zero or a finite double, unless it overflows. *)
Lemma int_truediv_2_cases w :
  int_truediv w 2 = Raise OverflowError
  ∨ ∃ f, int_truediv w 2 = Ok f ∧ is_number f = true.
Proof.
  unfold int_truediv. change (2 =? 0) with false. cbv iota.
  assert (H : is_nan (F64.div (F64.raw w) (F64.raw 2)) = false).
  { destruct w as [|p|p]; [done| |]; unfold F64.div, F64.raw, SFdiv;
      unfold SFdiv_core_binary;
      match goal with
      | |- context [Z.div_eucl ?a ?b] =>
          assert (0 ≤ a) by
            (destruct (_ - _ - _); [lia|by apply Z.shiftl_nonneg|lia]);
          pose proof (Z_div_mod a b ltac:(lia)); destruct (Z.div_eucl a b)
      end; apply binary_round_aux_not_nan; lia. }
  destruct (F64.div (F64.raw w) (F64.raw 2)); try done; [right|by left|right];
    by eexists.
Qed.

Lemma centroid_coordinate_raises x w :
  ends (λ _, True) (λ e, e = OverflowError)
    (half_w ← int_truediv w 2;
     fx ← float_of_int x;
     int_of_float (F64.add fx half_w)).
Proof.
  destruct (int_truediv_2_cases w) as [-> | (hw & -> & Hhw)]; [done|].
  rewrite bind_ok.
  destruct (float_of_int_cases x) as [-> | (fx & -> & Hfx & _)]; [done|].
  rewrite bind_ok. pose proof (add_number fx hw Hfx Hhw) as H.
  by destruct (F64.add fx hw).
Qed.

Lemma centroid_of_bbox_raises x y w h :
  ends (λ _, True) (λ e, e = OverflowError) (centroid_of_bbox x y w h).
Proof.
  unfold centroid_of_bbox.
  pose proof (centroid_coordinate_raises x w) as Hx.
  pose proof (centroid_coordinate_raises y h) as Hy.
  destruct (int_truediv w 2) as [hw|]; [|done]. rewrite bind_ok in Hx; rewrite bind_ok.
  destruct (float_of_int x) as [fx|]; [|done]. rewrite bind_ok in Hx; rewrite bind_ok.
  destruct (int_of_float (F64.add fx hw)) as [cx|]; [|done]. rewrite bind_ok.
  destruct (int_truediv h 2) as [hh|]; [|done]. rewrite bind_ok in Hy; rewrite bind_ok.
  destruct (float_of_int y) as [fy|]; [|done]. rewrite bind_ok in Hy; rewrite bind_ok.
  by destruct (int_of_float (F64.add fy hh)) as [cy|].
Qed.

(** The initial counts: 0 under every zone name, and nothing else. *)
Lemma zero_counts_lookup zones n :
  zero_counts zones !! n = if decide (n ∈ name <$> zones) then Some 0 else None.
Proof.
  induction zones as [|z zones IH] using rev_ind; [done|].
  rewrite zero_counts_snoc, fmap_app. simpl.
  destruct (decide (n = name z)) as [->|Hn].
  - rewrite lookup_insert_eq. rewrite decide_True; [done|].
    apply elem_of_app. right. by left.
  - rewrite lookup_insert_ne by done. rewrite IH.
    destruct (decide (n ∈ name <$> zones)) as [Hin|Hin].
    + rewrite decide_True; [done|]. apply elem_of_app. by left.
    + rewrite decide_False; [done|]. intros [?|Hl]%elem_of_app; [done|].
      apply list_elem_of_singleton in Hl. done.
Qed.

Lemma counts_all_zero zones : counts_all zones (zero_counts zones).
Proof.
  intros n. rewrite zero_counts_lookup. by destruct (decide _).
Qed.

(** An increment under a zone name finds its key and keeps the keys. *)
Lemma increment_counts_all zones counts z :
  z ∈ zones → counts_all zones counts →
  ∃ c, counts !! name z = Some c
       ∧ increment counts (name z) = Ok (<[name z := c + 1]> counts)
       ∧ counts_all zones (<[name z := c + 1]> counts).
Proof.
  intros Hz Hc. destruct (proj2 (Hc (name z))) as [c Hl].
  { by apply list_elem_of_fmap_2. }
  exists c. unfold increment. rewrite Hl. repeat split; try done.
  - destruct (decide (n = name z)) as [->|Hn].
    + intros _. by apply list_elem_of_fmap_2.
    + rewrite lookup_insert_ne by done. apply Hc.
  - intros Hn. destruct (decide (n = name z)) as [->|Hne].
    + rewrite lookup_insert_eq. by eexists.
    + rewrite lookup_insert_ne by done. by apply Hc.
Qed.

(** The tally keeps a count for every zone name and raises nothing but
    [OverflowError]. *)
Lemma zone_counts_raises dets zones :
  ends (counts_all zones) (λ e, e = OverflowError) (zone_counts dets zones).
Proof.
  unfold zone_counts. apply for_each_ends; [apply counts_all_zero|].
  intros counts d _ Hc. unfold tally_detection.
  pose proof (centroid_of_bbox_raises (det_x d) (det_y d) (det_w d) (det_h d))
    as Hcen.
  destruct (centroid_of_bbox _ _ _ _) as [c|]; [|done]. rewrite bind_ok.
  apply for_each_ends; [done|]. intros counts' z Hz Hc'. unfold tally_zone.
  pose proof (inside_polygon_raises c (points z)) as Hin.
  destruct (inside_polygon c (points z)) as [[]|]; [|done..].
  rewrite bind_ok.
  destruct (increment_counts_all zones counts' z Hz Hc') as (k & _ & -> & ?).
  done.
Qed.

(** ** The motion percentage *)

Lemma slice_inner {A} (lo hi : Z) (l : list A) :
  0 ≤ lo → 0 ≤ hi ≤ Z.of_nat (length l) →
  slice lo hi l = take (Z.to_nat (hi - lo)) (drop (Z.to_nat lo) l).
Proof.
  intros Hlo Hhi. unfold slice, slice_bound.
  rewrite (proj2 (Z.ltb_ge lo 0)), (proj2 (Z.ltb_ge hi 0)) by lia.
  rewrite (Z.min_l hi) by lia.
  destruct (Z.le_ge_cases lo (Z.of_nat (length l))) as [H|H].
  - by rewrite Z.min_l by lia.
  - rewrite Z.min_r by lia. rewrite !drop_ge by lia. by rewrite !take_nil.
Qed.

(** A slice whose bounds lie within the sequence. *)
Lemma slice_inner_length {A} (lo hi : Z) (l : list A) :
  0 ≤ lo → 0 ≤ hi ≤ Z.of_nat (length l) →
  Z.of_nat (length (slice lo hi l)) = Z.max 0 (hi - lo).
Proof.
  intros Hlo Hhi. rewrite slice_inner by done.
  rewrite length_take, length_drop. lia.
Qed.

Lemma slice_inner_lookup {A} (lo hi : Z) (l : list A) (i : nat) :
  0 ≤ lo → 0 ≤ hi ≤ Z.of_nat (length l) → Z.of_nat i < hi - lo →
  slice lo hi l !! i = l !! (Z.to_nat lo + i)%nat.
Proof.
  intros Hlo Hhi Hi. rewrite slice_inner by done.
  rewrite lookup_take_lt by lia. by rewrite lookup_drop.
Qed.

Lemma slice_sublist {A} (lo hi : Z) (l : list A) : slice lo hi l `sublist_of` l.
Proof.
  unfold slice. etransitivity; [apply sublist_take | apply sublist_drop].
Qed.

Lemma Forall_slice {A} (P : A → Prop) (lo hi : Z) (l : list A) :
  Forall P l → Forall P (slice lo hi l).
Proof. intros H. unfold slice. by apply Forall_take, Forall_drop. Qed.

Lemma concat_rows_length {A} (rows : list (list A)) (w : Z) :
  Forall (λ row, Z.of_nat (length row) = w) rows →
  Z.of_nat (length (concat rows)) = Z.of_nat (length rows) * w.
Proof.
  induction 1 as [|row rows Hr _ IH]; [done|].
  simpl. rewrite length_app. lia.
Qed.

Lemma concat_sublist_length {A} (l1 l2 : list (list A)) :
  l1 `sublist_of` l2 → (length (concat l1) ≤ length (concat l2))%nat.
Proof.
  induction 1 as [|x l1 l2 _ IH|x l1 l2 _ IH]; simpl;
    rewrite ?length_app; lia.
Qed.

Lemma concat_fmap_length_le {A} (f : list A → list A) (rows : list (list A)) :
  (∀ row, length (f row) ≤ length row)%nat →
  (length (concat (f <$> rows)) ≤ length (concat rows))%nat.
Proof.
  intros Hf. induction rows as [|row rows IH]; csimpl; [done|].
  rewrite !length_app. pose proof (Hf row). lia.
Qed.

(** A region is no larger than the mask. *)
Lemma size_of_slice2_le y1 y2 x1 x2 mask :
  size_of (slice2 y1 y2 x1 x2 mask) ≤ size_of mask.
Proof.
  unfold size_of, slice2. apply Nat2Z.inj_le.
  etransitivity; [apply concat_fmap_length_le|].
  - intros row. apply sublist_length, slice_sublist.
  - apply concat_sublist_length, slice_sublist.
Qed.

Lemma size_of_threshold t m roi : size_of (threshold_binary t m roi) = size_of roi.
Proof.
  unfold size_of, threshold_binary. f_equal.
  induction roi as [|row roi IH]; csimpl; [done|].
  by rewrite !length_app, length_fmap, IH.
Qed.

Lemma count_nonzero_le a : 0 ≤ count_nonzero a ≤ size_of a.
Proof.
  unfold count_nonzero, size_of. split; [lia|].
  apply Nat2Z.inj_le, length_filter.
Qed.

(** [x < f] for the double [f] of value [v / 2]. *)
Lemma int_lt_half x v :
  Z.abs v < 2 ^ 53 → int_lt_float x (F64.half v) = (2 * x <? v).
Proof.
  intros Hv. destruct v as [|q|q].
  - simpl. apply eq_iff_eq_true. rewrite !Z.ltb_lt. lia.
  - assert (Hq : F64.dig q ≤ F64.prec) by (apply dig_le; unfold F64.prec; lia).
    pose proof (dig_pos q). simpl F64.half. rewrite norm_finite.
    unfold int_lt_float, F64.prec in *.
    rewrite (proj2 (Z.leb_gt 0 (F64.dig q - 1 - 53))) by lia.
    simpl F64.signed. rewrite shiftl_nat_Z, Z2Nat.id by lia.
    replace (- (F64.dig q - 1 - 53)) with (Z.succ (53 - F64.dig q)) by lia.
    rewrite Z.pow_succ_r by lia.
    assert (0 < 2 ^ (53 - F64.dig q)) by (apply Z.pow_pos_nonneg; lia).
    apply eq_iff_eq_true. rewrite !Z.ltb_lt. nia.
  - assert (Hq : F64.dig q ≤ F64.prec) by (apply dig_le; unfold F64.prec; lia).
    pose proof (dig_pos q). simpl F64.half. rewrite norm_finite.
    unfold int_lt_float, F64.prec in *.
    rewrite (proj2 (Z.leb_gt 0 (F64.dig q - 1 - 53))) by lia.
    simpl F64.signed. rewrite <- !Pos2Z.opp_pos, shiftl_nat_Z, Z2Nat.id by lia.
    replace (- (F64.dig q - 1 - 53)) with (Z.succ (53 - F64.dig q)) by lia.
    rewrite Z.pow_succ_r by lia.
    assert (0 < 2 ^ (53 - F64.dig q)) by (apply Z.pow_pos_nonneg; lia).
    apply eq_iff_eq_true. rewrite !Z.ltb_lt. nia.
Qed.

Lemma half_nonzero v : v ≠ 0 → F64.is_zero (F64.half v) = false.
Proof. by destruct v. Qed.

(** The value of a detection whose region holds [total] pixels, [moving] of
    them above the threshold. *)
Lemma motion_value_eq sh mask thresh d :
  size_of mask < 2 ^ 52 →
  let roi := slice2 (Z.max 0 (det_y d)) (Z.min sh.1 (det_y d + det_h d))
               (Z.max 0 (det_x d)) (Z.min sh.2 (det_x d + det_w d)) mask in
  motion_value sh mask thresh d =
    Ok (if size_of roi =? 0 then F64.zero
        else F64.div (F64.mul F64.lit_100
                        (F64.half (2 * count_nonzero
                                         (threshold_binary thresh 255 roi))))
                     (F64.half (2 * size_of roi))).
Proof.
  intros Hsize roi. unfold motion_value. fold roi.
  pose proof (size_of_slice2_le (Z.max 0 (det_y d))
                (Z.min sh.1 (det_y d + det_h d)) (Z.max 0 (det_x d))
                (Z.min sh.2 (det_x d + det_w d)) mask) as Hle. fold roi in Hle.
  pose proof (count_nonzero_le (threshold_binary thresh 255 roi)) as Hc.
  rewrite size_of_threshold in Hc.
  assert (0 ≤ size_of roi) by (unfold size_of; lia).
  destruct (size_of roi =? 0) eqn:H0; [done|]. apply Z.eqb_neq in H0.
  rewrite (float_of_int_exact (count_nonzero _)) by lia. rewrite bind_ok.
  rewrite (float_of_int_exact (size_of roi)) by lia. rewrite bind_ok.
  rewrite int_lt_half by lia.
  rewrite (proj2 (Z.ltb_lt (2 * 0) (2 * size_of roi))) by lia.
  unfold float_truediv. by rewrite half_nonzero by lia.
Qed.

(** The loop that appends one value per element. *)
Lemma for_each_collect {A B} (f : A → result B) xs acc ys :
  Forall2 (λ x y, f x = Ok y) xs ys →
  for_each (λ vs x, v ← f x; Ok (vs ++ [v])) acc xs = Ok (acc ++ ys).
Proof.
  intros H. revert acc. induction H as [|x y xs ys Hxy _ IH]; intros acc.
  - by rewrite app_nil_r.
  - simpl. rewrite Hxy, !bind_ok, IH. by rewrite <- app_assoc.
Qed.

Lemma Forall2_returns {A B} (f : A → result B) xs :
  (∀ x, x ∈ xs → ∃ y, f x = Ok y) → ∃ ys, Forall2 (λ x y, f x = Ok y) xs ys.
Proof.
  induction xs as [|x xs IH]; intros H; [by exists []|].
  destruct (H x ltac:(left)) as [y Hy].
  destruct IH as [ys Hys]; [intros ? ?; apply H; by right|].
  exists (y :: ys). by constructor.
Qed.

(** On a mask of fewer than 2^52 pixels every detection has a value. *)
Lemma compute_motion_percent_values np_mean sh mask dets thresh :
  size_of mask < 2 ^ 52 →
  ∃ vals, Forall2 (λ d v, motion_value sh mask thresh d = Ok v) dets vals
          ∧ compute_motion_percent np_mean sh mask dets thresh
            = Ok (match vals with [] => F64.zero | _ => np_mean vals end,
                  vals, mask).
Proof.
  intros Hsize.
  destruct (Forall2_returns (motion_value sh mask thresh) dets) as [vals Hv].
  { intros d _. rewrite motion_value_eq by done. by eexists. }
  exists vals. split; [done|]. unfold compute_motion_percent.
  by rewrite (for_each_collect _ _ _ _ Hv), bind_ok.
Qed.

(** The region cut out by bounds within the frame. *)
Lemma slice2_inner sh mask y1 y2 x1 x2 :
  well_shaped sh mask →
  0 ≤ y1 → 0 ≤ y2 ≤ sh.1 → 0 ≤ x1 → 0 ≤ x2 ≤ sh.2 →
  size_of (slice2 y1 y2 x1 x2 mask) = Z.max 0 (y2 - y1) * Z.max 0 (x2 - x1)
  ∧ ∀ i j : nat, Z.of_nat i < y2 - y1 → Z.of_nat j < x2 - x1 →
      pixel (slice2 y1 y2 x1 x2 mask) i j
      = pixel mask (Z.to_nat y1 + i) (Z.to_nat x1 + j).
Proof.
  intros [Hh Hw] Hy1 Hy2 Hx1 Hx2. unfold size_of, slice2. split.
  - rewrite (concat_rows_length _ (Z.max 0 (x2 - x1))).
    + rewrite length_fmap, slice_inner_length by lia. done.
    + apply Forall_fmap. eapply Forall_impl.
      * apply Forall_slice, Hw.
      * intros row Hrow. simpl in *. apply slice_inner_length; lia.
  - intros i j Hi Hj. unfold pixel. rewrite list_lookup_fmap.
    rewrite slice_inner_lookup by lia.
    destruct (mask !! (Z.to_nat y1 + i)%nat) as [row|] eqn:Hrow; [|done].
    simpl. apply slice_inner_lookup; [lia| |lia].
    rewrite Forall_lookup in Hw. rewrite (Hw _ _ Hrow). lia.
Qed.

(** Thresholding a region without motion leaves no pixel set. *)
Lemma count_nonzero_still thresh maxval roi :
  still thresh roi → count_nonzero (threshold_binary thresh maxval roi) = 0.
Proof.
  intros Hs. unfold count_nonzero, threshold_binary.
  induction Hs as [|row roi Hrow _ IH]; [done|].
  csimpl. rewrite filter_app, length_app, Nat2Z.inj_add, IH, Z.add_0_r.
  clear IH. induction Hrow as [|v row Hv _ IH]; [done|].
  csimpl. rewrite (proj2 (Z.ltb_ge thresh v)) by lia.
  rewrite filter_cons_False by (intros H; by apply H). exact IH.
Qed.

Lemma still_slice2 thresh y1 y2 x1 x2 mask :
  still thresh mask → still thresh (slice2 y1 y2 x1 x2 mask).
Proof.
  intros Hs. unfold still, slice2. apply Forall_fmap.
  eapply Forall_impl.
  - apply Forall_slice, Hs.
  - intros row Hrow. simpl. by apply Forall_slice.
Qed.

Lemma motion_value_still sh mask thresh d :
  size_of mask < 2 ^ 52 → still thresh mask →
  motion_value sh mask thresh d = Ok F64.zero.
Proof.
  intros Hsize Hs. rewrite motion_value_eq by done. cbv zeta.
  destruct (size_of _ =? 0) eqn:H0; [done|]. apply Z.eqb_neq in H0.
  rewrite count_nonzero_still by by apply still_slice2.
  f_equal. change (F64.mul F64.lit_100 (F64.half (2 * 0))) with F64.zero.
  match goal with |- F64.div _ (F64.half ?v) = _ =>
    assert (Hp : 0 < v) by (unfold size_of in *; lia);
    destruct v as [|q|q]; try lia end.
  done.
Qed.

(** ** The tally as a count of pairs *)

Lemma hits_cons n z zones c :
  hits n (z :: zones) c
  = (if decide (name z = n ∧ holds c z = true) then 1 else 0) + hits n zones c.
Proof.
  unfold hits. destruct (decide _) as [H|H].
  - rewrite filter_cons_True by done. simpl length. lia.
  - by rewrite filter_cons_False by done.
Qed.

(** The inner loop adds to each name the number of zones of that name
    that hold the centroid; the outer loop adds these up. *)
Lemma tally_zones_hits c zs counts :
  (∀ z, z ∈ zs → ∃ b, inside_polygon c (points z) = Ok b) →
  (∀ z, z ∈ zs → is_Some (counts !! name z)) →
  ∃ counts', for_each (tally_zone c) counts zs = Ok counts'
    ∧ ∀ n, counts' !! n = (λ v, v + hits n zs c) <$> counts !! n.
Proof.
  revert counts. induction zs as [|z zs IH]; intros counts Hret Hdom.
  { exists counts. split; [done|]. intros n. unfold hits. simpl.
    destruct (counts !! n); simpl; [f_equal; lia | done]. }
  destruct (Hret z ltac:(left)) as [b Hb].
  destruct (Hdom z ltac:(left)) as [v Hv].
  cbn [for_each].
  assert (tally_zone c counts z
          = if b then increment counts (name z) else Ok counts) as ->
    by (unfold tally_zone; by rewrite Hb).
  destruct b.
  - unfold increment. rewrite Hv, bind_ok.
    destruct (IH (<[name z := v + 1]> counts)) as (counts' & -> & Hc).
    { intros ? ?. apply Hret. by right. }
    { intros z' Hz'. destruct (decide (name z' = name z)) as [->|Hne].
      - rewrite lookup_insert_eq. by eexists.
      - rewrite lookup_insert_ne by done. apply Hdom. by right. }
    exists counts'. split; [done|]. intros n. rewrite Hc, hits_cons.
    destruct (decide (n = name z)) as [->|Hne].
    + rewrite lookup_insert_eq, Hv. simpl. f_equal.
      rewrite decide_True; [lia|]. split; [done|]. unfold holds. by rewrite Hb.
    + rewrite lookup_insert_ne by done.
      rewrite decide_False by (intros [? _]; congruence).
      destruct (counts !! n); simpl; [f_equal; lia|done].
  - rewrite bind_ok. destruct (IH counts) as (counts' & -> & Hc).
    { intros ? ?. apply Hret. by right. }
    { intros ? ?. apply Hdom. by right. }
    exists counts'. split; [done|]. intros n. rewrite Hc, hits_cons.
    rewrite decide_False; [done|]. intros [_ H]. unfold holds in H.
    by rewrite Hb in H.
Qed.

Lemma occupancy_cons n d dets zones :
  occupancy n (d :: dets) zones
  = match centroid d with
    | Ok c => hits n zones c + occupancy n dets zones
    | Raise _ => occupancy n dets zones
    end.
Proof. done. Qed.

Lemma tally_detections_occupancy zones dets counts :
  all_return dets zones →
  (∀ z, z ∈ zones → is_Some (counts !! name z)) →
  ∃ counts', for_each (tally_detection zones) counts dets = Ok counts'
    ∧ ∀ n, counts' !! n = (λ v, v + occupancy n dets zones) <$> counts !! n.
Proof.
  revert counts. induction dets as [|d dets IH]; intros counts Hret Hdom.
  { exists counts. split; [done|]. intros n. simpl.
    destruct (counts !! n); simpl; [f_equal; lia | done]. }
  destruct (Hret d ltac:(left)) as (c & Hc & Hin).
  cbn [for_each].
  assert (tally_detection zones counts d
          = for_each (tally_zone c) counts zones) as ->
    by (unfold tally_detection; fold (centroid d); by rewrite Hc).
  destruct (tally_zones_hits c zones counts Hin Hdom) as (counts1 & -> & H1).
  rewrite bind_ok.
  destruct (IH counts1) as (counts' & -> & H2).
  { intros ? ?. apply Hret. by right. }
  { intros z Hz. rewrite H1. destruct (Hdom z Hz) as [v ->]. by eexists. }
  exists counts'. split; [done|]. intros n. rewrite H2, H1, occupancy_cons, Hc.
  destruct (counts !! n); simpl; [f_equal; lia | done].
Qed.

Lemma zone_counts_occupancy dets zones :
  all_return dets zones →
  ∃ m, zone_counts dets zones = Ok m
       ∧ ∀ n, m !! n = if decide (n ∈ name <$> zones)
                       then Some (occupancy n dets zones) else None.
Proof.
  intros Hret. unfold zone_counts.
  destruct (tally_detections_occupancy zones dets (zero_counts zones) Hret)
    as (m & -> & Hm).
  { intros z Hz. apply counts_all_zero. by apply list_elem_of_fmap_2. }
  exists m. split; [done|]. intros n. rewrite Hm, zero_counts_lookup.
  by destruct (decide _).
Qed.

(** The tally returns only if every centroid and every test did. *)
Lemma tally_zones_returned c zs counts counts' :
  for_each (tally_zone c) counts zs = Ok counts' →
  ∀ z, z ∈ zs → ∃ b, inside_polygon c (points z) = Ok b.
Proof.
  revert counts. induction zs as [|z zs IH]; intros counts H z' Hz'.
  { by apply elem_of_nil in Hz'. }
  cbn [for_each] in H.
  destruct (tally_zone c counts z) as [c1|] eqn:H1; [|done].
  rewrite bind_ok in H.
  apply elem_of_cons in Hz' as [->|Hz']; [|by eapply IH].
  unfold tally_zone in H1.
  destruct (inside_polygon c (points z)) as [b|]; [by exists b|done].
Qed.

Lemma zone_counts_returned dets zones m :
  zone_counts dets zones = Ok m → all_return dets zones.
Proof.
  unfold zone_counts. generalize (zero_counts zones). revert m.
  induction dets as [|d dets IH]; intros m counts H d' Hd'.
  { by apply elem_of_nil in Hd'. }
  cbn [for_each] in H.
  destruct (tally_detection zones counts d) as [c1|] eqn:H1; [|done].
  rewrite bind_ok in H.
  apply elem_of_cons in Hd' as [->|Hd']; [|by eapply IH].
  unfold tally_detection in H1. fold (centroid d) in H1.
  destruct (centroid d) as [c|] eqn:Hc; [|done]. rewrite bind_ok in H1.
  exists c. split; [done|]. by eapply tally_zones_returned.
Qed.

(** Neither the number of hits nor the occupancy depends on the order of
    the lists. *)
Lemma hits_perm n zones zones' c :
  zones ≡ₚ zones' → hits n zones c = hits n zones' c.
Proof. intros H. unfold hits. by rewrite H. Qed.

Lemma occupancy_perm_zones n dets zones zones' :
  zones ≡ₚ zones' → occupancy n dets zones = occupancy n dets zones'.
Proof.
  intros Hz. induction dets as [|d dets IH]; [done|].
  rewrite !occupancy_cons, IH.
  destruct (centroid d); [|done]. by rewrite (hits_perm _ _ _ _ Hz).
Qed.

Lemma occupancy_perm_dets n dets dets' zones :
  dets ≡ₚ dets' → occupancy n dets zones = occupancy n dets' zones.
Proof.
  induction 1 as [|d dets dets' _ IH|d1 d2 dets|dets dets' dets'' _ IH1 _ IH2].
  - done.
  - by rewrite !occupancy_cons, IH.
  - rewrite !occupancy_cons. destruct (centroid d1), (centroid d2); lia.
  - by rewrite IH1.
Qed.

Lemma occupancy_perm n dets dets' zones zones' :
  dets ≡ₚ dets' → zones ≡ₚ zones' →
  occupancy n dets zones = occupancy n dets' zones'.
Proof.
  intros Hd Hz. rewrite (occupancy_perm_dets _ _ _ _ Hd).
  by apply occupancy_perm_zones.
Qed.

Lemma all_return_perm dets dets' zones zones' :
  dets ≡ₚ dets' → zones ≡ₚ zones' →
  all_return dets zones → all_return dets' zones'.
Proof.
  intros Hd Hz H d Hin. rewrite <- Hd in Hin.
  destruct (H d Hin) as (c & Hc & Hzs). exists c. split; [done|].
  intros z Hzin. rewrite <- Hz in Hzin. by apply Hzs.
Qed.

Lemma zone_counts_perm dets dets' zones zones' :
  dets ≡ₚ dets' → zones ≡ₚ zones' →
  zone_counts dets zones = zone_counts dets' zones'.
Proof.
  intros Hd Hz.
  pose proof (zone_counts_raises dets zones) as E1.
  pose proof (zone_counts_raises dets' zones') as E2.
  destruct (zone_counts dets zones) as [m|e] eqn:H1;
    destruct (zone_counts dets' zones') as [m'|e'] eqn:H2; simpl in *.
  - destruct (zone_counts_occupancy dets zones) as (m0 & Hm0 & Hs);
      [by eapply zone_counts_returned|].
    destruct (zone_counts_occupancy dets' zones') as (m0' & Hm0' & Hs');
      [by eapply zone_counts_returned|].
    rewrite H1 in Hm0. rewrite H2 in Hm0'. simplify_eq.
    f_equal. apply map_eq. intros n. rewrite Hs, Hs'.
    rewrite (occupancy_perm n dets dets' zones zones') by done.
    destruct (decide (n ∈ name <$> zones)) as [Hin|Hin]; rewrite Hz in Hin.
    + by rewrite decide_True.
    + by rewrite decide_False.
  - apply zone_counts_returned in H1.
    destruct (zone_counts_occupancy dets' zones') as (? & ? & _); [|congruence].
    by eapply all_return_perm.
  - apply zone_counts_returned in H2.
    destruct (zone_counts_occupancy dets zones) as (? & ? & _); [|congruence].
    by eapply all_return_perm.
  - congruence.
Qed.

(** Pixel-range boxes and zones: every centroid is computed, lies in the
    range of pixel points, and every test on it returns. *)
Lemma centroid_pixel d :
  pixel_box d →
  ∃ c, centroid d = Ok c ∧ pixel_point c
       ∧ c = (Z.quot (2 * det_x d + det_w d) 2, Z.quot (2 * det_y d + det_h d) 2).
Proof.
  intros (Hx & Hy & Hw & Hh). eexists. unfold centroid.
  change (2 ^ 24) with 16777216 in *.
  rewrite centroid_of_bbox_quot
    by (change (2 ^ 51) with 2251799813685248; lia).
  split; [done|]. split; [|done].
  split; simpl; apply quot_2_bound; change (2 ^ 26) with 67108864; lia.
Qed.

Lemma all_return_pixel dets zones :
  Forall pixel_box dets → Forall (λ z, Forall pixel_point (points z)) zones →
  all_return dets zones.
Proof.
  intros Hd Hz d Hin. rewrite Forall_forall in Hd. rewrite Forall_forall in Hz.
  destruct (centroid_pixel d (Hd d Hin)) as (c & Hc & Hp & _).
  exists c. split; [done|]. intros z Hzin.
  by apply inside_polygon_returns, Hz.
Qed.

(** With distinct names at most one zone of a name holds a point. *)
Lemma hits_absent n zones c : n ∉ name <$> zones → hits n zones c = 0.
Proof.
  intros Hn. induction zones as [|z zones IH]; [done|].
  rewrite hits_cons, IH.
  - rewrite decide_False; [done|]. intros [<- _]. apply Hn. by left.
  - intros H. apply Hn. by right.
Qed.

Lemma hits_bounds n zones c :
  NoDup (name <$> zones) → 0 ≤ hits n zones c ≤ 1.
Proof.
  induction zones as [|z zones IH]; intros Hnd; [done|].
  csimpl in Hnd. apply NoDup_cons in Hnd as [Hz Hnd].
  rewrite hits_cons. destruct (decide _) as [[<- _]|_].
  - rewrite hits_absent by done. lia.
  - specialize (IH Hnd). lia.
Qed.

Lemma occupancy_bounds n dets zones :
  NoDup (name <$> zones) →
  0 ≤ occupancy n dets zones ≤ Z.of_nat (length dets).
Proof.
  intros Hnd. induction dets as [|d dets IH]; [done|].
  rewrite occupancy_cons. simpl length. rewrite Nat2Z.inj_succ.
  destruct (centroid d) as [c|]; [|lia].
  pose proof (hits_bounds n zones c Hnd). lia.
Qed.

(** The loops read the box of a detection only. *)
Lemma tally_detection_box zones counts d d' :
  box d = box d' → tally_detection zones counts d = tally_detection zones counts d'.
Proof.
  unfold box, tally_detection. by intros [= -> -> -> ->].
Qed.

Lemma zone_counts_box dets dets' zones :
  box <$> dets = box <$> dets' →
  zone_counts dets zones = zone_counts dets' zones.
Proof.
  unfold zone_counts. generalize (zero_counts zones). revert dets'.
  induction dets as [|d dets IH]; intros [|d' dets'] counts H; try done.
  csimpl in H. apply (inj2 cons) in H as [Hb Ht]. cbn [for_each].
  rewrite (tally_detection_box zones counts d d') by done.
  destruct (tally_detection zones counts d'); [|done].
  rewrite !bind_ok. by apply IH.
Qed.

Lemma motion_value_box sh mask thresh d d' :
  box d = box d' →
  motion_value sh mask thresh d = motion_value sh mask thresh d'.
Proof.
  unfold box, motion_value. by intros [= -> -> -> ->].
Qed.

Lemma motion_values_box sh mask thresh dets dets' acc :
  box <$> dets = box <$> dets' →
  for_each (λ vs d, v ← motion_value sh mask thresh d; Ok (vs ++ [v])) acc dets
  = for_each (λ vs d, v ← motion_value sh mask thresh d; Ok (vs ++ [v]))
      acc dets'.
Proof.
  revert dets' acc.
  induction dets as [|d dets IH]; intros [|d' dets'] acc H; try done.
  csimpl in H. apply (inj2 cons) in H as [Hb Ht]. cbn [for_each].
  rewrite (motion_value_box sh mask thresh d d') by done.
  destruct (motion_value sh mask thresh d'); [|done].
  rewrite !bind_ok. by apply IH.
Qed.

Lemma compute_motion_percent_box np_mean sh mask thresh dets dets' :
  box <$> dets = box <$> dets' →
  compute_motion_percent np_mean sh mask dets thresh
  = compute_motion_percent np_mean sh mask dets' thresh.
Proof.
  intros H. unfold compute_motion_percent.
  by rewrite (motion_values_box sh mask thresh dets dets' [] H).
Qed.

(** ** Rectangles, crossing parity and rotations *)

Lemma xinters_of_exact_x1 x1 y1 x2 y2 y :
  y1 ≠ y2 → (x2 - x1) * (y - y1) = 0 →
  Z.abs x1 < 2 ^ 25 → Z.abs y1 < 2 ^ 25 → Z.abs y2 < 2 ^ 25 →
  ∃ f, xinters_of x1 y1 x2 y2 y = Ok f ∧ ∀ x, int_lt_float x f = (x <? x1).
Proof.
  intros Hy Hnum Hx1 Hy1 Hy2. unfold xinters_of. cbv zeta. rewrite Hnum.
  change (2 ^ 25) with 33554432 in *.
  assert (Hdy : Z.abs (y2 - y1) < 2 ^ 52)
    by (change (2 ^ 52) with 4503599627370496; lia).
  destruct (float_of_int_cases (y2 - y1)) as [E | (dy & E & _ & _ & Hs)];
    rewrite (float_of_int_exact _ Hdy) in E; [done|].
  destruct (Hs ltac:(lia)) as (s & m & e & -> & He). injection E as E.
  rewrite (float_of_int_exact _ Hdy), bind_ok, E.
  change (float_of_int 0) with (Ok (S754_zero false) : result spec_float).
  rewrite bind_ok. unfold float_truediv.
  rewrite (float_of_int_exact x1) by (change (2 ^ 52) with 4503599627370496; lia).
  assert (Hq : ∃ sq, F64.div (S754_zero false)
                       (F64.add (S754_finite s m e) F64.lit_1e_9)
                     = S754_zero sq
               ∧ F64.is_zero (F64.add (S754_finite s m e) F64.lit_1e_9) = false).
  { destruct (add_lit_finite s m e ltac:(lia)) as [s' [(m' & e' & ->) | ->]];
      by eexists. }
  destruct Hq as (sq & -> & ->). rewrite !bind_ok.
  eexists. split; [done|]. intros x.
  destruct (decide (x1 = 0)) as [->|Hx].
  - by destruct sq.
  - assert (F64.add (S754_zero sq) (F64.half (2 * x1)) = F64.half (2 * x1)) as ->.
    { destruct x1 as [|p|p]; done. }
    rewrite int_lt_half by (change (2 ^ 53) with 9007199254740992; lia).
    apply eq_iff_eq_true. rewrite !Z.ltb_lt. lia.
Qed.

(** A horizontal edge never toggles the flag; an upright one toggles it
    for the points at its height that lie to its left. *)
Lemma crosses_level pt e :
  (e.1.2 = e.2.2) → crosses pt e = Ok false.
Proof.
  destruct pt as [x y], e as [[x1 y1] [x2 y2]]. simpl. intros ->.
  unfold crosses. by rewrite xorb_nilpotent.
Qed.

Lemma crosses_upright x y a y1 y2 :
  Z.abs a < 2 ^ 25 → Z.abs y1 < 2 ^ 25 → Z.abs y2 < 2 ^ 25 →
  crosses (x, y) ((a, y1), (a, y2))
  = Ok (xorb (y1 >? y) (y2 >? y) && (x <? a)).
Proof.
  intros Ha H1 H2. unfold crosses.
  destruct (xorb (y1 >? y) (y2 >? y)) eqn:Hx; [|done].
  assert (Hy : y1 ≠ y2) by (intros ->; by rewrite xorb_nilpotent in Hx).
  destruct (xinters_of_exact_x1 a y1 a y2 y) as (f & -> & Hf);
    [done | lia | done..|].
  by rewrite bind_ok, Hf.
Qed.

Lemma inside_polygon_rectangle_eq a b c d x y :
  Z.abs a < 2 ^ 25 → Z.abs b < 2 ^ 25 → Z.abs c < 2 ^ 25 → Z.abs d < 2 ^ 25 →
  inside_polygon (x, y) (rectangle a b c d)
  = Ok (xorb (b >? y) (d >? y) && xorb (x <? a) (x <? c)).
Proof.
  intros Ha Hb Hc Hd. rewrite inside_polygon_edges by (simpl; lia).
  unfold ray_casting, rectangle, edges. cbn [rotate length Nat.modulo].
  change (zip [(a, b); (c, b); (c, d); (a, d)]
              (rotate 1 [(a, b); (c, b); (c, d); (a, d)]))
    with [((a, b), (c, b)); ((c, b), (c, d)); ((c, d), (a, d));
          ((a, d), (a, b))].
  cbn [for_each].
  rewrite (crosses_level (x, y) ((a, b), (c, b))) by done.
  rewrite (crosses_level (x, y) ((c, d), (a, d))) by done.
  rewrite !crosses_upright by done. rewrite !bind_ok. f_equal.
  destruct (b >? y), (d >? y), (x <? a), (x <? c); done.
Qed.

(** The flag is the parity of the number of toggling edges. *)
Lemma ray_casting_toggles pt poly :
  (∀ e, e ∈ edges poly → ∃ t, crosses pt e = Ok t) →
  ray_casting pt poly
  = Ok (Nat.odd (length (filter (λ e, toggles pt e = true) (edges poly)))).
Proof.
  intros H. destruct (Forall2_returns (crosses pt) (edges poly) H) as [ts Hts].
  rewrite (ray_casting_parity pt poly ts Hts). do 2 f_equal. clear H.
  induction Hts as [|e t es ts He _ IH]; [done|].
  assert (Ht : toggles pt e = t) by (unfold toggles; by rewrite He).
  destruct t.
  - rewrite (filter_cons_True (λ t, t = true)) by done.
    rewrite (filter_cons_True (λ e, toggles pt e = true)) by done.
    cbn [length]. by rewrite IH.
  - rewrite (filter_cons_False (λ t, t = true)) by done.
    rewrite (filter_cons_False (λ e, toggles pt e = true)) by (by rewrite Ht).
    done.
Qed.

(** The edges of a rotated polygon are the rotated edges. *)
Lemma edges_rotate k poly : edges (rotate k poly) = rotate k (edges poly).
Proof.
  destruct (decide (poly = [])) as [->|Hne].
  { unfold edges, rotate. rewrite !drop_nil, !take_nil. simpl.
    by rewrite drop_nil, take_nil. }
  assert (Hlen : (0 < length poly)%nat) by (destruct poly; simpl; [done|lia]).
  apply list_eq. intros i.
  destruct (decide (i < length poly)%nat) as [Hi|Hi].
  - rewrite lookup_rotate_r by (rewrite edges_length; done).
    rewrite edges_length.
    pose proof (rotate_nat_add_lt k i (length poly) Hlen) as Hj.
    destruct (lookup_lt_is_Some_2 (rotate k poly) i) as [p Hp];
      [by rewrite length_rotate|].
    assert (Hi1 : ((i + 1) mod length poly < length poly)%nat)
      by (apply Nat.mod_upper_bound; lia).
    destruct (lookup_lt_is_Some_2 (rotate k poly) ((i + 1) mod length poly))
      as [q Hq]; [by rewrite length_rotate|].
    rewrite (edges_lookup (rotate k poly) i p q);
      [|done|by rewrite length_rotate].
    symmetry. rewrite lookup_rotate_r in Hp by done.
    rewrite lookup_rotate_r in Hq by done.
    apply edges_lookup; [done|]. rewrite <- Hq. f_equal.
    unfold rotate_nat_add.
    rewrite Nat2Z.inj_mod, Nat2Z.inj_add.
    apply Nat2Z.inj. rewrite Nat2Z.inj_mod, Nat2Z.inj_add.
    rewrite !Z2Nat.id by (apply Z.mod_pos_bound; lia).
    rewrite Zplus_mod_idemp_r, Zplus_mod_idemp_l. f_equal. lia.
  - rewrite !lookup_ge_None_2; [done|..];
      rewrite ?length_rotate, edges_length, ?length_rotate; lia.
Qed.

Lemma rotate_perm {A} k (l : list A) : rotate k l ≡ₚ l.
Proof.
  unfold rotate. rewrite Permutation_app_comm. by rewrite take_drop.
Qed.

Lemma inside_polygon_toggles pt poly :
  (3 ≤ length poly)%nat → pixel_point pt → Forall pixel_point poly →
  inside_polygon pt poly
  = Ok (Nat.odd (length (filter (λ e, toggles pt e = true) (edges poly)))).
Proof.
  intros Hn Hpt Hpoly. rewrite inside_polygon_edges by done.
  apply ray_casting_toggles. intros [p q] Hin.
  rewrite Forall_forall in Hpoly.
  apply crosses_returns; [done|..]; apply Hpoly.
  - by apply elem_of_zip_l in Hin.
  - apply elem_of_zip_r in Hin. by rewrite <- (rotate_perm 1 poly).
Qed.

Lemma inside_polygon_rotate pt poly k :
  pixel_point pt → Forall pixel_point poly →
  inside_polygon pt (rotate k poly) = inside_polygon pt poly.
Proof.
  intros Hpt Hpoly.
  destruct (decide (length poly < 3)%nat) as [Hn|Hn].
  { rewrite !inside_polygon_short; rewrite ?length_rotate; done. }
  rewrite !inside_polygon_toggles;
    rewrite ?length_rotate, ?rotate_perm; try done; try lia.
  by rewrite edges_rotate, rotate_perm.
Qed.

(** ** Points above and below the polygon *)

Lemma ray_casting_no_toggle pt poly :
  (∀ ed, ed ∈ edges poly → crosses pt ed = Ok false) →
  ray_casting pt poly = Ok false.
Proof.
  intros H. unfold ray_casting.
  pose proof (for_each_ends (λ inside ed, t ← crosses pt ed; Ok (xorb inside t))
                (λ b, b = false) (λ _, False) (edges poly) false eq_refl) as He.
  destruct (for_each _ false (edges poly)) as [b|]; simpl in He.
  - f_equal. apply He. intros b' ed Hin ->. by rewrite (H ed Hin).
  - destruct He. intros b' ed Hin ->. by rewrite (H ed Hin).
Qed.

(** Without a considered edge the flag stays [False]. *)
Lemma inside_polygon_band x y poly :
  Forall (λ p, p.2 ≤ y) poly ∨ Forall (λ p, y < p.2) poly →
  inside_polygon (x, y) poly = Ok false.
Proof.
  intros H.
  destruct (decide (length poly < 3)%nat) as [Hn|Hn];
    [by apply inside_polygon_short|].
  rewrite inside_polygon_edges by lia. apply ray_casting_no_toggle.
  intros [[x1 y1] [x2 y2]] Hin.
  assert (Hp : (x1, y1) ∈ poly) by (by apply elem_of_zip_l in Hin).
  assert (Hq : (x2, y2) ∈ poly).
  { apply elem_of_zip_r in Hin. by rewrite <- (rotate_perm 1 poly). }
  unfold crosses.
  destruct H as [H|H]; rewrite Forall_forall in H;
    pose proof (H _ Hp) as H1; pose proof (H _ Hq) as H2; simpl in H1, H2.
  - rewrite !Z.gtb_ltb, (proj2 (Z.ltb_ge y y1)), (proj2 (Z.ltb_ge y y2)) by lia.
    done.
  - rewrite !Z.gtb_ltb, (proj2 (Z.ltb_lt y y1)), (proj2 (Z.ltb_lt y y2)) by lia.
    done.
Qed.

(** ** The detectors *)

Lemma hog_picks_spec weights rects i picks :
  ∃ dets, hog_picks weights i rects picks = Ok (picks ++ dets)
    ∧ box <$> dets = rects
    ∧ ∀ (j : nat) d, dets !! j = Some d →
        det_conf d = default lit_1 (weights !! (i + j)%nat).
Proof.
  revert i picks. induction rects as [|[[[x y] w] h] rects IH]; intros i picks.
  { exists []. rewrite app_nil_r. by repeat split. }
  simpl.
  assert (Hc : (if (i <? length weights)%nat then index weights i else Ok lit_1)
               = Ok (default lit_1 (weights !! i))).
  { unfold index. destruct (Nat.ltb_spec i (length weights)) as [Hi|Hi].
    - by destruct (lookup_lt_is_Some_2 _ _ Hi) as [v ->].
    - by rewrite lookup_ge_None_2. }
  rewrite Hc, bind_ok.
  destruct (IH (S i) (picks ++ [{| det_x := x; det_y := y; det_w := w;
                                   det_h := h;
                                   det_conf := default lit_1 (weights !! i) |}]))
    as (dets & -> & Hb & Hw).
  eexists (_ :: dets). rewrite <- app_assoc. split; [done|].
  split; [csimpl; by rewrite Hb|].
  intros [|j] d Hd.
  - injection Hd as <-. simpl. by rewrite Nat.add_0_r.
  - rewrite (Hw j d Hd). do 2 f_equal. lia.
Qed.

(** [zip] stops at the shortest array, and the loop keeps the rows of
    class 0. *)
Lemma yolo_rows_length b :
  length (yolo_rows b)
  = Nat.min (Nat.min (length (default [] (xyxy b)))
                     (length (default [] (conf b))))
            (length (default [] (cls b))).
Proof. unfold yolo_rows. by rewrite length_zip_with, length_zip. Qed.

Lemma yolo_loop_spec rows acc dets :
  for_each (λ dets row,
              d ← yolo_row row;
              Ok (match d with Some d => dets ++ [d] | None => dets end))
    acc rows = Ok dets →
  ∃ new, dets = acc ++ new
    ∧ Forall2 (λ row d, yolo_row row = Ok (Some d))
        (filter (λ row, person_row row = true) rows) new.
Proof.
  revert acc. induction rows as [|row rows IH]; intros acc H.
  { injection H as <-. exists []. rewrite app_nil_r. by split. }
  cbn [for_each] in H.
  destruct (yolo_row row) as [[d|]|] eqn:Hrow; [| |done]; rewrite !bind_ok in H.
  - destruct (IH _ H) as (new & -> & Hnew). exists (d :: new).
    rewrite <- app_assoc. split; [done|].
    rewrite filter_cons_True; [by constructor|].
    destruct row as [[[[[x1 y1] x2] y2] c] k]. unfold person_row, yolo_row in *.
    simpl. destruct (int_of_float k) as [k'|]; [|done]. rewrite bind_ok in Hrow.
    by destruct (k' =? 0).
  - destruct (IH _ H) as (new & -> & Hnew). exists new. split; [done|].
    rewrite filter_cons_False; [done|].
    destruct row as [[[[[x1 y1] x2] y2] c] k]. unfold person_row, yolo_row in *.
    simpl. intros Hk. destruct (int_of_float k) as [k'|]; [|done].
    rewrite bind_ok, Hk in Hrow. simpl in Hrow.
    destruct (int_of_float x1); [|done]. rewrite bind_ok in Hrow.
    destruct (int_of_float y1); [|done]. rewrite bind_ok in Hrow.
    destruct (int_of_float (F32.sub x2 x1)); [|done]. rewrite bind_ok in Hrow.
    by destruct (int_of_float (F32.sub y2 y1)).
Qed.

(** ** The control loop *)

Lemma motion_value_raises sh mask thresh d :
  ends (λ _, True) (λ e, e = OverflowError) (motion_value sh mask thresh d).
Proof.
  unfold motion_value. cbv zeta.
  destruct (size_of _ =? 0) eqn:H0; [done|]. apply Z.eqb_neq in H0.
  destruct (float_of_int_cases (count_nonzero
              (threshold_binary thresh 255
                 (slice2 (Z.max 0 (det_y d)) (Z.min sh.1 (det_y d + det_h d))
                    (Z.max 0 (det_x d)) (Z.min sh.2 (det_x d + det_w d)) mask))))
    as [-> | (moving & -> & _)]; [done|].
  rewrite bind_ok.
  destruct (float_of_int_cases (size_of
              (slice2 (Z.max 0 (det_y d)) (Z.min sh.1 (det_y d + det_h d))
                 (Z.max 0 (det_x d)) (Z.min sh.2 (det_x d + det_w d)) mask)))
    as [-> | (total & -> & _ & _ & Hs)]; [done|].
  destruct (Hs H0) as (s & m & e & -> & _). rewrite bind_ok.
  by destruct (int_lt_float 0 _).
Qed.

(** Processing a frame raises nothing but [OverflowError]. *)
Lemma compute_motion_percent_raises np_mean sh mask dets thresh :
  ends (λ r, r.2 = mask ∧ length r.1.2 = length dets)
       (λ e, e = OverflowError)
       (compute_motion_percent np_mean sh mask dets thresh).
Proof.
  unfold compute_motion_percent.
  assert (H : ∀ acc, ends (λ vs, length vs = (length acc + length dets)%nat)
                          (λ e, e = OverflowError)
                (for_each (λ vs d, v ← motion_value sh mask thresh d;
                                   Ok (vs ++ [v])) acc dets)).
  { induction dets as [|d dets IH]; intros acc; simpl; [lia|].
    pose proof (motion_value_raises sh mask thresh d) as Hd.
    destruct (motion_value sh mask thresh d) as [v|]; [|done].
    rewrite !bind_ok. specialize (IH (acc ++ [v])).
    destruct (for_each _ _ dets); simpl in *; [|done].
    rewrite length_app in IH. simpl in IH. lia. }
  specialize (H []). destruct (for_each _ _ dets); simpl in *; done.
Qed.

Lemma process_frame_crash np_mean args st e :
  process_frame np_mean args st = Crashed e → e = OverflowError.
Proof.
  unfold process_frame. destruct (cap st) as [|frame rest]; [done|].
  pose proof (compute_motion_percent_raises np_mean (shape frame)
                (fgmask frame) (detections frame) (args_bs_thresh args)) as Hm.
  destruct (compute_motion_percent _ _ _ _ _) as [[[avg values] mask]|];
    [|by intros [= <-]].
  pose proof (zone_counts_raises (detections frame) (zones_of st)) as Hz.
  destruct (zone_counts _ _); [done|]. by intros [= <-].
Qed.

Lemma process_frame_typed np_mean args st :
  process_frame np_mean args st ≠ IllTyped.
Proof.
  unfold process_frame. destruct (cap st) as [|frame rest]; [done|].
  destruct (compute_motion_percent _ _ _ _ _) as [[[avg values] mask]|];
    [|done].
  by destruct (zone_counts _ _).
Qed.

(** A click appends its point; any other event leaves the state alone. *)
Lemma clicked_cons m ms : clicked (m :: ms) = clicked [m] ++ clicked ms.
Proof.
  unfold clicked. rewrite <- fmap_app. f_equal.
  change (m :: ms) with ([m] ++ ms). by rewrite filter_app.
Qed.

Lemma on_mouse_step st m :
  wf st →
  active_poly (on_mouse st m) = active_poly st ++ clicked [m]
  ∧ zone_counter (on_mouse st m) = zone_counter st
  ∧ fs (on_mouse st m) = fs st
  ∧ help_on (on_mouse st m) = help_on st.
Proof.
  intros Hwf. unfold on_mouse, clicked.
  destruct (mouse_event m =? EVENT_LBUTTONDOWN) eqn:Hm.
  - apply Z.eqb_eq in Hm. rewrite filter_cons_True by done.
    repeat split; try done. unfold active_poly. simpl.
    rewrite list_lookup_total_insert_eq; [done|]. apply Hwf.
  - apply Z.eqb_neq in Hm. rewrite filter_cons_False by done.
    repeat split; try done. simpl. by rewrite app_nil_r.
Qed.

(** The mouse events of one poll. *)
Lemma on_mouse_all st ms :
  wf st →
  wf (foldl on_mouse st ms)
  ∧ active_poly (foldl on_mouse st ms) = active_poly st ++ clicked ms
  ∧ zones_of (foldl on_mouse st ms) = zones_of st
  ∧ zone_counter (foldl on_mouse st ms) = zone_counter st
  ∧ fs (foldl on_mouse st ms) = fs st
  ∧ help_on (foldl on_mouse st ms) = help_on st.
Proof.
  revert st. induction ms as [|m ms IH]; intros st Hwf.
  { repeat split; try done; try apply Hwf. by rewrite app_nil_r. }
  simpl. destruct (on_mouse_spec st m Hwf) as (Hwf1 & _ & Hz1 & _).
  destruct (on_mouse_step st m Hwf) as (Ha1 & Hc1 & Hf1 & Hh1).
  destruct (IH _ Hwf1) as (Hwf' & -> & -> & -> & -> & ->).
  rewrite Ha1, Hz1, Hc1, Hf1, Hh1, (clicked_cons m ms), app_assoc. done.
Qed.

(** The branches of [handle_key] taken at the [z] and [s] keys. *)
Lemma handle_key_undo args st :
  handle_key args st (ord "z") =
    if (0 <? length (active_poly st))%nat
    then Running (set_heap (<[active st := removelast (active_poly st)]>
                              (heap st)) st)
    else Running st.
Proof. reflexivity. Qed.

Lemma handle_key_save args st :
  handle_key args st (ord "s") =
    match save_zones (args_zones args) (zones_of st) (fs st) with
    | Raise e => Crashed e
    | Ok fs' => Running (print ("Saved zones to " +:+ args_zones args)
                           (set_fs fs' st))
    end.
Proof. reflexivity. Qed.

(** What a key other than [l] does to the zones: at most one zone more, at
    the end, named after the counter and holding the active polygon. *)
Lemma handle_key_zones args st key st' :
  wf st → key ≠ ord "l" →
  state_of (handle_key args st key) = Some st' →
  ∃ new, zones_of st' = zones_of st ++ new
    ∧ zone_counter st' = zone_counter st + Z.of_nat (length new)
    ∧ (length new ≤ 1)%nat
    ∧ Forall (λ z, name z = "Zone " +:+ pretty (zone_counter st + 1)
                   ∧ points z = active_poly st
                   ∧ (3 ≤ length (points z))%nat) new
    ∧ (∃ k, active_poly st' = take k (active_poly st))
    ∧ unwritable (fs st') = unwritable (fs st).
Proof.
  intros Hwf Hl H.
  assert (Hsame : zones_of st' = zones_of st → zone_counter st' = zone_counter st →
                  (∃ k, active_poly st' = take k (active_poly st)) →
                  unwritable (fs st') = unwritable (fs st) →
                  ∃ new, zones_of st' = zones_of st ++ new
                    ∧ zone_counter st' = zone_counter st + Z.of_nat (length new)
                    ∧ (length new ≤ 1)%nat
                    ∧ Forall (λ z, name z = "Zone " +:+ pretty (zone_counter st + 1)
                                   ∧ points z = active_poly st
                                   ∧ (3 ≤ length (points z))%nat) new
                    ∧ (∃ k, active_poly st' = take k (active_poly st))
                    ∧ unwritable (fs st') = unwritable (fs st)).
  { intros Hz Hc Ha Hf. exists []. rewrite app_nil_r. simpl.
    repeat split; try done; lia. }
  assert (Hid : ∃ k, active_poly st = take k (active_poly st)).
  { exists (length (active_poly st)). by rewrite take_ge. }
  destruct (handle_key_cases args st key) as [Hkey|Hk];
    [|rewrite Hk in H; injection H as <-; by apply Hsame].
  repeat (apply elem_of_cons in Hkey as [->|Hkey]);
    [..|by apply elem_of_nil in Hkey].
  - injection H as <-. by apply Hsame.
  - injection H as <-. by apply Hsame.
  - injection H as <-. by apply Hsame.
  - injection H as <-. by apply Hsame.
  - rewrite handle_key_undo in H.
    destruct (0 <? length (active_poly st))%nat; injection H as <-;
      [|by apply Hsame].
    apply Hsame; try done.
    + unfold zones_of. simpl. apply zones_at_insert, Hwf.
    + exists (pred (length (active_poly st))). unfold active_poly at 1. simpl.
      rewrite list_lookup_total_insert_eq by apply Hwf.
      apply removelast_firstn_len.
  - destruct (Nat.leb_spec 3 (length (active_poly st))) as [Hlen|Hlen].
    + destruct (finalize_commit args st Hwf Hlen)
        as (st1 & Hk & _ & Ha & _ & Hz & Hc).
      rewrite Hk in H. injection H as <-.
      exists [{| name := default_name st; points := active_poly st |}].
      split; [done|]. split; [simpl; lia|]. split; [simpl; lia|].
      split; [by repeat constructor|]. split; [exists 0%nat; by rewrite take_0|].
      revert Hk. at_key_n.
      destruct (3 <=? length (active_poly st))%nat; by intros [= <-].
    + destruct (finalize_discard args st Hwf Hlen)
        as (st1 & Hk & _ & Ha & _ & Hz & Hc).
      rewrite Hk in H. injection H as <-. apply Hsame; try done.
      * exists 0%nat. by rewrite take_0.
      * revert Hk. at_key_n.
        destruct (3 <=? length (active_poly st))%nat; by intros [= <-].
  - rewrite handle_key_save in H. unfold save_zones in H.
    destruct (decide _); [done|]. injection H as <-. by apply Hsame.
  - done.
Qed.

(** A key other than [p] leaves the pause flag alone. *)
Lemma handle_key_paused args st key st' :
  key ≠ ord "p" → state_of (handle_key args st key) = Some st' →
  paused st' = paused st.
Proof.
  unfold handle_key. intros Hp H.
  destruct (key =? ord "p") eqn:Hkp; [by apply Z.eqb_eq in Hkp|].
  repeat match type of H with
         | context [if ?b then _ else _] => destruct b
         | context [match ?r with Ok _ => _ | Raise _ => _ end] => destruct r
         | context [match ?o with Some _ => _ | None => _ end] => destruct o
         | context [let '(_, _) := ?p in _] => destruct p
         end;
    simpl in H; try discriminate H; injection H as <-; done.
Qed.

(** What ends a pass with an exception. *)
Lemma handle_key_crash args st key e :
  handle_key args st key = Crashed e →
  (key = ord "s" ∧ e = OSError ∧ args_zones args ∈ unwritable (fs st))
  ∨ (key = ord "l" ∧ load_zones (args_zones args) (fs st) = Raise e).
Proof.
  intros H.
  destruct (handle_key_cases args st key) as [Hkey|Hk];
    [|by rewrite Hk in H].
  repeat (apply elem_of_cons in Hkey as [->|Hkey]);
    [..|by apply elem_of_nil in Hkey].
  - discriminate H.
  - discriminate H.
  - discriminate H.
  - discriminate H.
  - rewrite handle_key_undo in H. by destruct (0 <? _)%nat.
  - revert H. at_key_n. intros H. discriminate H.
  - left. rewrite handle_key_save in H. unfold save_zones in H.
    destruct (decide _); [|done]. by injection H as <-.
  - right. rewrite handle_key_load in H.
    destruct (load_zones _ _) as [loaded|]; [|by injection H as <-].
    destruct (mapM zone_of loaded) as [zs|]; [|done].
    by destruct (alloc_zones (heap st) zs).
Qed.

(** Only the [l] key can meet a file whose zones are not as declared. *)
Lemma handle_key_typed args st key :
  key ≠ ord "l" → handle_key args st key ≠ IllTyped.
Proof.
  intros Hl.
  destruct (handle_key_cases args st key) as [Hkey|Hk];
    [|by rewrite Hk].
  repeat (apply elem_of_cons in Hkey as [->|Hkey]);
    [..|by apply elem_of_nil in Hkey].
  - discriminate.
  - discriminate.
  - discriminate.
  - discriminate.
  - rewrite handle_key_undo. by destruct (0 <? _)%nat.
  - at_key_n. intros H. discriminate H.
  - rewrite handle_key_save. by destruct (save_zones _ _ _).
  - done.
Qed.

(** Undoing a click. *)
Lemma undo_add_point args st p :
  wf st → handle_key args (add_point st p) (ord "z") = Running st.
Proof.
  intros Hwf. rewrite handle_key_undo.
  destruct (add_point_spec st p Hwf) as (_ & Ha & _).
  rewrite Ha, length_app. simpl.
  destruct (Nat.ltb_spec 0 (length (active_poly st) + 1)) as [_|?]; [|lia].
  rewrite removelast_last. f_equal.
  destruct p as [x y]. unfold add_point, on_mouse. simpl.
  destruct st as [h zs a zc ho pa fi ca cf f so]. unfold set_heap. simpl.
  f_equal. rewrite list_insert_insert_eq. apply list_insert_id.
  unfold active_poly. simpl. apply list_lookup_lookup_total_lt, Hwf.
Qed.

Lemma fs_on_mouse st ms : fs (foldl on_mouse st ms) = fs st.
Proof.
  revert st. induction ms as [|m ms IH]; intros st; [done|].
  simpl. rewrite IH. unfold on_mouse.
  by destruct (mouse_event m =? EVENT_LBUTTONDOWN).
Qed.

(** A processed frame leaves the editor, the zones and the files alone. *)
Lemma process_frame_editor np_mean args st st' :
  process_frame np_mean args st = Running st' →
  zones_of st' = zones_of st ∧ active_poly st' = active_poly st
  ∧ zone_counter st' = zone_counter st ∧ fs st' = fs st
  ∧ paused st' = paused st ∧ (wf st → wf st').
Proof.
  unfold process_frame. intros H.
  destruct (cap st) as [|frame rest]; [done|].
  destruct (compute_motion_percent _ _ _ _ _) as [[[avg values] mask]|];
    [|done].
  destruct (zone_counts _ _) as [counts|]; [|done].
  by injection H as <-.
Qed.

Section Run.

Variable np_mean : list spec_float → spec_float.
Variable args : Args.

(** One pass of the loop, for a key other than [l]. *)
Lemma iteration_zones st p st' :
  wf st → key_of p ≠ ord "l" →
  state_of (iteration np_mean args st p) = Some st' →
  wf st'
  ∧ unwritable (fs st') = unwritable (fs st)
  ∧ (∃ k, active_poly st' = take k (active_poly st ++ clicked (mouse p)))
  ∧ ∃ new, zones_of st' = zones_of st ++ new
      ∧ zone_counter st' = zone_counter st + Z.of_nat (length new)
      ∧ (length new ≤ 1)%nat
      ∧ Forall (λ z, name z = "Zone " +:+ pretty (zone_counter st + 1)
                     ∧ points z = active_poly st ++ clicked (mouse p)
                     ∧ (3 ≤ length (points z))%nat) new.
Proof.
  intros Hwf Hl H. split; [by eapply wf_iteration|].
  unfold iteration in H. fold (key_of p) in H.
  assert (Hkey : ∀ st1, wf st1 → zones_of st1 = zones_of st →
            active_poly st1 = active_poly st →
            zone_counter st1 = zone_counter st → fs st1 = fs st →
            state_of (handle_key args (foldl on_mouse st1 (mouse p)) (key_of p))
            = Some st' →
            unwritable (fs st') = unwritable (fs st)
            ∧ (∃ k, active_poly st' = take k (active_poly st ++ clicked (mouse p)))
            ∧ ∃ new, zones_of st' = zones_of st ++ new
                ∧ zone_counter st' = zone_counter st + Z.of_nat (length new)
                ∧ (length new ≤ 1)%nat
                ∧ Forall (λ z, name z = "Zone " +:+ pretty (zone_counter st + 1)
                               ∧ points z = active_poly st ++ clicked (mouse p)
                               ∧ (3 ≤ length (points z))%nat) new).
  { intros st1 Hwf1 Hz1 Ha1 Hc1 Hf1 Hk.
    destruct (on_mouse_all st1 (mouse p) Hwf1) as (Hwf2 & Ha2 & Hz2 & Hc2 & Hf2 & _).
    destruct (handle_key_zones args _ _ _ Hwf2 Hl Hk)
      as (new & Hz & Hc & Hlen & Hnew & Ha & Hf).
    rewrite Hz2, Hz1 in Hz. rewrite Hc2, Hc1 in Hc, Hnew.
    rewrite Ha2, Ha1 in Ha, Hnew. rewrite Hf2, Hf1 in Hf.
    split; [done|]. split; [done|]. by exists new. }
  destruct (paused st); [by apply (Hkey st)|].
  destruct (process_frame np_mean args st) as [st1|st1| |] eqn:Hp;
    try discriminate H.
  - destruct (process_frame_editor _ _ _ _ Hp) as (? & ? & ? & ? & _ & Hwf1).
    apply (Hkey st1); auto.
  - apply process_frame_end in Hp as ->. injection H as <-.
    split; [done|]. split.
    { exists (length (active_poly st)). by rewrite take_app_length. }
    exists []. rewrite app_nil_r. simpl. repeat split; try done; lia.
Qed.

(** Along a run without the [l] key the zones only grow at the end, and
    each new zone takes the next number. *)
Lemma main_loop_zones st polls st' :
  wf st → Forall (λ p, key_of p ≠ ord "l") polls →
  state_of (main_loop np_mean args st polls) = Some st' →
  ∃ new, zones_of st' = zones_of st ++ new
    ∧ zone_counter st' = zone_counter st + Z.of_nat (length new)
    ∧ ∀ (i : nat) z, new !! i = Some z →
        name z = "Zone " +:+ pretty (zone_counter st + Z.of_nat i + 1)
        ∧ (3 ≤ length (points z))%nat.
Proof.
  intros Hwf Hpolls. revert st Hwf.
  induction Hpolls as [|p polls Hp _ IH]; intros st Hwf H.
  { injection H as <-. exists []. rewrite app_nil_r. simpl.
    repeat split; try done; lia. }
  simpl in H.
  assert (Hstep : ∀ st1, state_of (iteration np_mean args st p) = Some st1 →
            ∀ new2, zones_of st' = zones_of st1 ++ new2 →
              zone_counter st' = zone_counter st1 + Z.of_nat (length new2) →
              (∀ (i : nat) z, new2 !! i = Some z →
                 name z = "Zone " +:+ pretty (zone_counter st1 + Z.of_nat i + 1)
                 ∧ (3 ≤ length (points z))%nat) →
              ∃ new, zones_of st' = zones_of st ++ new
                ∧ zone_counter st' = zone_counter st + Z.of_nat (length new)
                ∧ ∀ (i : nat) z, new !! i = Some z →
                    name z = "Zone " +:+ pretty (zone_counter st + Z.of_nat i + 1)
                    ∧ (3 ≤ length (points z))%nat).
  { intros st1 Hit new2 Hz2 Hc2 Hn2.
    destruct (iteration_zones st p st1 Hwf Hp Hit)
      as (_ & _ & _ & new1 & Hz1 & Hc1 & Hlen1 & Hn1).
    exists (new1 ++ new2). rewrite app_assoc, <- Hz1. split; [done|].
    split; [rewrite length_app; lia|].
    intros i z Hi. apply lookup_app_Some in Hi as [Hi|[Hge Hi]].
    - pose proof (lookup_lt_Some _ _ _ Hi).
      rewrite Forall_lookup in Hn1. destruct (Hn1 i z Hi) as (-> & _ & ?).
      split; [|done]. do 2 f_equal. lia.
    - destruct (Hn2 _ _ Hi) as [-> ?]. split; [|done]. do 2 f_equal. lia. }
  destruct (iteration np_mean args st p) as [st1|st1| |] eqn:Hit;
    try discriminate H.
  - destruct (IH st1) as (new2 & Hz2 & Hc2 & Hn2); [|done|by eapply Hstep].
    eapply wf_iteration; [done|]. by rewrite Hit.
  - injection H as <-. apply (Hstep st1 eq_refl []).
    + by rewrite app_nil_r.
    + simpl. lia.
    + intros i z Hi. by rewrite lookup_nil in Hi.
Qed.

(** While paused, and until [p] is pressed, no frame is read and no row is
    written. *)
Lemma main_loop_paused st polls st' :
  paused st = true → Forall (λ p, key_of p ≠ ord "p") polls →
  state_of (main_loop np_mean args st polls) = Some st' →
  paused st' = true ∧ frame_idx st' = frame_idx st ∧ cap st' = cap st
  ∧ csv_f st' = csv_f st.
Proof.
  intros Hpa Hpolls. revert st Hpa.
  induction Hpolls as [|p polls Hp _ IH]; intros st Hpa H.
  { by injection H as <-. }
  simpl in H.
  assert (Hstep : ∀ st1, state_of (iteration np_mean args st p) = Some st1 →
            paused st1 = true ∧ frame_idx st1 = frame_idx st
            ∧ cap st1 = cap st ∧ csv_f st1 = csv_f st).
  { intros st1 Hit. unfold iteration in Hit. rewrite Hpa in Hit.
    fold (key_of p) in Hit.
    destruct (on_mouse_keeps_log st (mouse p)) as (<- & <- & <- & Hpm).
    apply handle_key_paused in Hit as Hpk; [|done].
    apply handle_key_keeps_log in Hit as (-> & -> & ->).
    by rewrite Hpk, Hpm. }
  destruct (iteration np_mean args st p) as [st1|st1| |] eqn:Hit;
    try discriminate H.
  - destruct (Hstep st1 eq_refl) as (Hp1 & <- & <- & <-). by apply IH.
  - injection H as <-. by apply Hstep.
Qed.

(** A pass reads at most one frame, and counts it. *)
Lemma iteration_frames st p st1 :
  state_of (iteration np_mean args st p) = Some st1 →
  ∃ read, cap st = read ++ cap st1
          ∧ frame_idx st1 = frame_idx st + Z.of_nat (length read).
Proof.
  intros Hit. unfold iteration in Hit.
  destruct (paused st).
  - apply handle_key_keeps_log in Hit as (_ & -> & ->).
    destruct (on_mouse_keeps_log st (mouse p)) as (_ & -> & -> & _).
    exists []. simpl. split; [done|lia].
  - destruct (process_frame np_mean args st) as [st2|st2| |] eqn:Hp;
      try discriminate Hit.
    + apply handle_key_keeps_log in Hit as (_ & -> & ->).
      destruct (on_mouse_keeps_log st2 (mouse p)) as (_ & -> & -> & _).
      apply process_frame_row in Hp
        as (frame & rest & _ & _ & _ & -> & _ & _ & _ & -> & ->).
      exists [frame]. simpl. split; [done|lia].
    + apply process_frame_end in Hp as ->. injection Hit as <-.
      exists []. simpl. split; [done|lia].
Qed.

(** The frame index counts the frames that were read. *)
Lemma main_loop_frames st polls st' :
  state_of (main_loop np_mean args st polls) = Some st' →
  ∃ read, cap st = read ++ cap st'
          ∧ frame_idx st' = frame_idx st + Z.of_nat (length read).
Proof.
  revert st. induction polls as [|p polls IH]; intros st H.
  { injection H as <-. exists []. simpl. split; [done|lia]. }
  simpl in H.
  destruct (iteration np_mean args st p) as [st1|st1| |] eqn:Hit;
    try discriminate H.
  - destruct (iteration_frames st p st1) as (r1 & -> & Hi1);
      [by rewrite Hit|].
    destruct (IH st1 H) as (r2 & -> & ->).
    exists (r1 ++ r2). rewrite <- app_assoc, length_app. split; [done|lia].
  - injection H as <-. apply (iteration_frames st p). by rewrite Hit.
Qed.

(** What can end a pass with an exception. *)
Lemma iteration_crash st p e :
  iteration np_mean args st p = Crashed e →
  (paused st = false ∧ process_frame np_mean args st = Crashed e
   ∧ e = OverflowError)
  ∨ (key_of p = ord "s" ∧ e = OSError
     ∧ args_zones args ∈ unwritable (fs st))
  ∨ (key_of p = ord "l" ∧ load_zones (args_zones args) (fs st) = Raise e).
Proof.
  unfold iteration. fold (key_of p). intros H.
  destruct (paused st) eqn:Hpa.
  - apply handle_key_crash in H. rewrite fs_on_mouse in H. by right.
  - destruct (process_frame np_mean args st) as [st1|st1| |] eqn:Hp;
      try discriminate H.
    + apply handle_key_crash in H. rewrite fs_on_mouse in H.
      apply process_frame_editor in Hp as (_ & _ & _ & <- & _). by right.
    + injection H as <-. left. split; [done|].
      split; [done|by eapply process_frame_crash].
Qed.

Lemma iteration_typed st p :
  key_of p ≠ ord "l" → iteration np_mean args st p ≠ IllTyped.
Proof.
  intros Hl. unfold iteration. fold (key_of p).
  destruct (paused st); [by apply handle_key_typed|].
  pose proof (process_frame_typed np_mean args st).
  destruct (process_frame np_mean args st); try done.
  by apply handle_key_typed.
Qed.

(** On pixel data a frame is always processed. *)
Lemma process_frame_pixel st :
  pixel_state st →
  (cap st = [] ∧ process_frame np_mean args st = Finished st)
  ∨ ∃ st1, process_frame np_mean args st = Running st1.
Proof.
  intros (_ & Hz & Hc). unfold process_frame.
  destruct (cap st) as [|frame rest]; [by left|]. right.
  apply Forall_cons in Hc as [[Hsize Hboxes] _].
  destruct (compute_motion_percent_values np_mean (shape frame) (fgmask frame)
              (detections frame) (args_bs_thresh args) Hsize)
    as (vals & _ & ->).
  destruct (zone_counts_occupancy (detections frame) (zones_of st))
    as (m & -> & _); [by apply all_return_pixel|].
  by eexists.
Qed.

(** On pixel data one pass of the loop ends without an exception. *)
Lemma iteration_pixel st p :
  wf st → pixel_state st → pixel_poll p → key_of p ≠ ord "l" →
  args_zones args ∉ unwritable (fs st) →
  ∃ st', state_of (iteration np_mean args st p) = Some st'
         ∧ pixel_state st'.
Proof.
  intros Hwf Hpx Hp Hl Hw.
  assert (Hst : ∃ st', state_of (iteration np_mean args st p) = Some st').
  { pose proof (iteration_typed st p Hl) as Ht.
    destruct (iteration np_mean args st p) as [st1|st1|e|] eqn:Hit;
      [by eexists..| |done].
    apply iteration_crash in Hit as [(Hpa & Hc & _)|[(_ & _ & ?)|[? _]]];
      [|done..].
    destruct (process_frame_pixel st Hpx) as [[_ Hp1]|[st1 Hp1]];
      by rewrite Hp1 in Hc. }
  destruct Hst as [st' Hst]. exists st'. split; [done|].
  destruct (iteration_zones st p st' Hwf Hl Hst)
    as (_ & _ & [k Ha] & new & Hz & _ & _ & Hnew).
  destruct (iteration_frames st p st' Hst) as (read & Hc & _).
  destruct Hpx as (Hpa & Hpz & Hpc).
  assert (Hall : Forall pixel_point (active_poly st ++ clicked (mouse p)))
    by (by apply Forall_app).
  split; [rewrite Ha; by apply Forall_take|].
  split.
  - rewrite Hz. apply Forall_app. split; [done|].
    eapply Forall_impl; [exact Hnew|]. intros z (_ & Hpts & _).
    unfold pixel_zone. by rewrite Hpts.
  - rewrite Hc in Hpc. by apply Forall_app in Hpc as [_ ?].
Qed.

Lemma main_loop_pixel st polls :
  wf st → pixel_state st →
  Forall (λ p, pixel_poll p ∧ key_of p ≠ ord "l") polls →
  args_zones args ∉ unwritable (fs st) →
  ∃ st', state_of (main_loop np_mean args st polls) = Some st'.
Proof.
  intros Hwf Hpx Hpolls. revert st Hwf Hpx.
  induction Hpolls as [|p polls [Hp Hl] _ IH]; intros st Hwf Hpx Hw.
  { by eexists. }
  simpl. destruct (iteration_pixel st p Hwf Hpx Hp Hl Hw) as (st1 & Hit & Hpx1).
  destruct (iteration_zones st p st1 Hwf Hl Hit) as (Hwf1 & Hf1 & _).
  destruct (iteration np_mean args st p) as [st2|st2| |]; try discriminate Hit.
  - injection Hit as ->. apply IH; [done..|]. by rewrite Hf1.
  - by eexists.
Qed.

End Run.

(** Starting without a zone file. *)
Lemma start_fresh args frames fs0 :
  files fs0 !! args_zones args = None →
  (∀ path, args_csv args = Some path → path ∉ unwritable fs0) →
  ∃ st0, start args true frames fs0 = Running st0
    ∧ wf st0 ∧ zones_of st0 = [] ∧ active_poly st0 = []
    ∧ zone_counter st0 = 0 ∧ cap st0 = frames ∧ fs st0 = fs0
    ∧ paused st0 = false ∧ frame_idx st0 = 0.
Proof.
  intros Hfile Hcsv.
  assert (∃ st0, start args true frames fs0 = Running st0
    ∧ zones_of st0 = [] ∧ active_poly st0 = []
    ∧ zone_counter st0 = 0 ∧ cap st0 = frames ∧ fs st0 = fs0
    ∧ paused st0 = false ∧ frame_idx st0 = 0) as (st0 & H & ?).
  { unfold start, load_zones. rewrite Hfile. simpl.
    destruct (args_csv args) as [[|c path]|] eqn:Hc; simpl.
    - by eexists.
    - destruct (decide _) as [Hin|_]; [by destruct (Hcsv _ eq_refl Hin)|].
      by eexists.
    - by eexists. }
  exists st0. split; [done|]. split; [exact (wf_start _ _ _ _ H)|done].
Qed.

(** The [l] key replaces the zones and nothing else of the editor. *)
Lemma load_key args st st' :
  wf st → handle_key args st (ord "l") = Running st' →
  ∃ loaded, load_zones (args_zones args) (fs st) = Ok loaded
    ∧ mapM zone_of loaded = Some (zones_of st')
    ∧ active_poly st' = active_poly st
    ∧ zone_counter st' = zone_counter st
    ∧ fs st' = fs st.
Proof.
  intros Hwf. rewrite handle_key_load.
  destruct (load_zones _ _) as [loaded|] eqn:Hload; [|done].
  destruct (mapM zone_of loaded) as [zs|] eqn:Hm; [|done].
  pose proof (alloc_zones_view (heap st) [] zs) as Hview.
  rewrite app_nil_r in Hview. unfold alloc_zones in *. simpl in Hview.
  intros [= <-]. exists loaded. split; [done|].
  split; [rewrite Hm; f_equal; symmetry; exact Hview|].
  split; [|done]. unfold active_poly. simpl.
  apply lookup_total_app_l, Hwf.
Qed.

(** The [s] key writes the zone file and nothing else. *)
Lemma save_key args st st' :
  handle_key args st (ord "s") = Running st' →
  (args_zones args ∉ unwritable (fs st))
  ∧ files (fs st')
    = <[args_zones args := Document (JArray (json_of_zone <$> zones_of st))]>
        (files (fs st))
  ∧ unwritable (fs st') = unwritable (fs st)
  ∧ zones_of st' = zones_of st ∧ active_poly st' = active_poly st
  ∧ zone_counter st' = zone_counter st
  ∧ stdout st' = stdout st ++ ["Saved zones to " +:+ args_zones args].
Proof.
  rewrite handle_key_save. unfold save_zones.
  destruct (decide _); [done|]. by intros [= <-].
Qed.

(** Boxes in the range of pixels are such boxes. *)
Lemma pixel_box_in_int32 d : pixel_box d → box_in_int32 d.
Proof.
  unfold pixel_box, box_in_int32. change (2 ^ 24) with 16777216.
  change (2 ^ 31) with 2147483648. lia.
Qed.

Lemma pixel_frames_in_int32 frames :
  Forall pixel_frame frames → frames_in_int32 frames.
Proof.
  intros H. eapply Forall_impl; [exact H|]. intros f [_ Hb].
  eapply Forall_impl; [exact Hb|]. apply pixel_box_in_int32.
Qed.


Example format_1f_examples :
  format_1f F64.zero = "0.0" ∧
  format_1f F64.lit_100 = "100.0" ∧
  format_1f (S754_finite false 6946802425218990 (-49)) = "12.3" ∧
  format_1f (S754_finite false 7205759403792794 (-57)) = "0.1" ∧
  format_1f (S754_finite false 4503599627370496 (-54)) = "0.2" ∧
  format_1f (S754_finite false 6305039478318694 (-54)) = "0.3" ∧
  format_1f (S754_finite false 7033355980557517 (-46)) = "100.0" ∧
  format_1f (S754_finite true 5764607523034235 (-57)) = "-0.0" ∧
  format_1f (S754_finite false 4691249611844267 (-47)) = "33.3".
Proof. vm_compute. done. Qed.

(** ** The drawing calls *)

Lemma ends_bind {A B} (P : A → Prop) (P' : B → Prop) (Q : exn → Prop)
    (m : result A) (f : A → result B) :
  ends P Q m → (∀ a, P a → ends P' Q (f a)) → ends P' Q (m ≫= f).
Proof. destruct m as [a|e]; simpl; [|done]. intros Ha Hf. by apply Hf. Qed.

(** The program's drawing code raises nothing of its own: an exception of
    [overlay_info] or [draw_zones] is one of an OpenCV call. *)
Lemma draw_circles_ends cv pts :
  ends (λ _, True) (raised_by cv) (draw_circles cv pts).
Proof.
  apply for_each_ends; [done|]. intros _ p _ _.
  destruct (cv2_circle cv p) as [u|e] eqn:Hc; [done|].
  right. left. by exists p.
Qed.

Lemma polylines_ends cv pts closed :
  ends (λ _, True) (raised_by cv) (cv2_polylines cv pts closed).
Proof.
  destruct (cv2_polylines cv pts closed) as [u|e] eqn:Hp; [done|].
  left. by exists pts, closed.
Qed.

Lemma putText_ends cv s p :
  ends (λ _, True) (raised_by cv) (cv2_putText cv s p).
Proof.
  destruct (cv2_putText cv s p) as [u|e] eqn:Hp; [done|].
  right. right. left. by exists s, p.
Qed.

Lemma rectangle_ends cv p q :
  ends (λ _, True) (raised_by cv) (cv2_rectangle cv p q).
Proof.
  destruct (cv2_rectangle cv p q) as [u|e] eqn:Hp; [done|].
  right. right. right. by exists p, q.
Qed.

Lemma draw_zone_ends cv idx z :
  ends (λ _, True) (raised_by cv) (draw_zone cv idx z).
Proof.
  unfold draw_zone.
  apply (ends_bind (λ _, True)).
  { destruct (2 <=? length (points z))%nat; [apply polylines_ends|done]. }
  intros _ _. apply (ends_bind (λ _, True)); [apply draw_circles_ends|].
  intros _ _. apply putText_ends.
Qed.

Lemma draw_zones_ends cv zones active :
  ends (λ _, True) (raised_by cv) (draw_zones cv zones active).
Proof.
  unfold draw_zones. apply (ends_bind (λ _, True)).
  { apply for_each_ends; [done|]. intros _ iz _ _. apply draw_zone_ends. }
  intros _ _. destruct active as [pts|]; [|done].
  destruct (0 <? length pts)%nat; [|done].
  apply (ends_bind (λ _, True)); [apply polylines_ends|].
  intros _ _. apply draw_circles_ends.
Qed.

Lemma overlay_info_ends cv dets avg zones counts help :
  ends (λ _, True) (raised_by cv) (overlay_info cv dets avg zones counts help).
Proof.
  unfold overlay_info. apply (ends_bind (λ _, True)).
  { apply for_each_ends; [done|]. intros _ d _ _.
    apply (ends_bind (λ _, True)); [apply rectangle_ends|].
    intros _ _. apply putText_ends. }
  intros _ _. apply (ends_bind (λ _, True)); [apply draw_zones_ends|].
  intros _ _. apply (ends_bind (λ _, True)).
  { apply for_each_ends; [done|]. intros _ iz _ _. apply putText_ends. }
  intros _ _. apply (ends_bind (λ _, True)); [apply putText_ends|].
  intros _ _. destruct help; [|done].
  apply (ends_bind (λ _, True)); [|done].
  apply for_each_ends; [done|]. intros y ln _ _.
  apply (ends_bind (λ _, True)); [apply putText_ends|done].
Qed.

Lemma draw_frame_ends cv dets avg counts st :
  ends (λ _, True) (raised_by cv) (draw_frame cv dets avg counts st).
Proof.
  unfold draw_frame. apply (ends_bind (λ _, True)); [apply overlay_info_ends|].
  intros _ _. destruct (0 <? length (active_poly st))%nat; [|done].
  apply draw_zones_ends.
Qed.

(** On geometry in the range of pixels every drawing call is one that the
    canvas takes. *)
Lemma for_each_tt {A} (body : unit → A → result unit) xs :
  (∀ x, x ∈ xs → body tt x = Ok tt) → for_each body tt xs = Ok tt.
Proof.
  induction xs as [|x xs IH]; intros H; [done|].
  cbn [for_each]. rewrite (H x) by left. rewrite bind_ok.
  apply IH. intros y Hy. apply H. by right.
Qed.

Lemma elem_of_enumerate {A} (xs : list A) i x :
  (i, x) ∈ enumerate xs → x ∈ xs.
Proof.
  intros Hin. apply list_elem_of_lookup in Hin as [k Hk].
  unfold enumerate in Hk. rewrite list_lookup_imap in Hk.
  destruct (xs !! k) as [y|] eqn:Hy; [|done].
  injection Hk as _ <-. by eapply list_elem_of_lookup_2.
Qed.

Section Pixels.

Variable cv : Canvas.
Hypothesis Hcv : accepts_pixels cv.

Lemma draw_circles_pixel pts :
  Forall pixel_point pts → draw_circles cv pts = Ok tt.
Proof.
  intros Hpts. apply for_each_tt. intros p Hp.
  apply Hcv. rewrite Forall_forall in Hpts. by apply Hpts.
Qed.

Lemma label_pos_pixel z idx :
  pixel_zone z → points z ≠ [] → pixel_point (label_pos z idx).
Proof.
  unfold pixel_zone, label_pos. destruct (points z) as [|p pts]; [done|].
  intros Hz _. by apply Forall_cons in Hz as [? _].
Qed.

Lemma draw_zone_pixel idx z :
  pixel_zone z → points z ≠ [] → draw_zone cv idx z = Ok tt.
Proof.
  intros Hz Hne. unfold draw_zone.
  assert ((if (2 <=? length (points z))%nat
           then cv2_polylines cv (points z) true else Ok tt) = Ok tt) as ->.
  { destruct (2 <=? length (points z))%nat; [by apply Hcv|done]. }
  rewrite bind_ok, draw_circles_pixel, bind_ok by done.
  apply Hcv. by apply label_pos_pixel.
Qed.

Lemma draw_zones_pixel zones active :
  Forall pixel_zone zones → Forall (λ z, points z ≠ []) zones →
  Forall pixel_point (default [] active) →
  draw_zones cv zones active = Ok tt.
Proof.
  intros Hz Hne Ha. unfold draw_zones.
  rewrite for_each_tt; [rewrite bind_ok|].
  - destruct active as [pts|]; [|done]. simpl in Ha.
    destruct (0 <? length pts)%nat; [|done].
    destruct Hcv as (Hpoly & _). rewrite Hpoly, bind_ok by done.
    by apply draw_circles_pixel.
  - intros [i z] Hin. apply elem_of_enumerate in Hin. simpl.
    rewrite Forall_forall in Hz. rewrite Forall_forall in Hne.
    apply draw_zone_pixel; auto.
Qed.

Lemma overlay_info_pixel dets avg zones counts help :
  Forall pixel_box dets → Forall pixel_zone zones →
  Forall (λ z, points z ≠ []) zones →
  overlay_info cv dets avg zones counts help = Ok tt.
Proof.
  intros Hd Hz Hne. unfold overlay_info.
  destruct Hcv as (Hpoly & Hcirc & Hput & Hrect).
  assert (for_each (λ _ d,
            _ ← cv2_rectangle cv (det_x d, det_y d)
                  (det_x d + det_w d, det_y d + det_h d);
            cv2_putText cv (format_2f (det_conf d)) (det_x d, det_y d - 5))
          tt dets = Ok tt) as ->.
  { apply for_each_tt. intros d Hin. rewrite Forall_forall in Hd.
    destruct (Hd d Hin) as (Hx & Hy & Hw & Hh).
    change (2 ^ 24) with 16777216 in *.
    rewrite Hrect, bind_ok;
      [|split; simpl; change (2 ^ 25) with 33554432; lia..].
    apply Hput. split; simpl; change (2 ^ 25) with 33554432; lia. }
  rewrite bind_ok, draw_zones_pixel, bind_ok by done. cbv zeta.
  assert (for_each (λ _ iz,
            cv2_putText cv (name iz.2 +:+ ": "
                        +:+ str (default 0 (counts !! name iz.2)))
              (label_pos iz.2 iz.1))
          tt (enumerate zones) = Ok tt) as ->.
  { apply for_each_tt. intros [i z] Hin. apply elem_of_enumerate in Hin.
    simpl. rewrite Forall_forall in Hz. rewrite Forall_forall in Hne.
    apply Hput. apply label_pos_pixel; auto. }
  rewrite bind_ok, Hput, bind_ok by (split; reflexivity).
  destruct help; [|done]. unfold help_lines. cbn [for_each].
  repeat (rewrite Hput by (split; reflexivity); rewrite !bind_ok).
  done.
Qed.

Lemma draw_frame_pixel dets avg counts st :
  Forall pixel_box dets → pixel_state st →
  Forall (λ z, points z ≠ []) (zones_of st) →
  draw_frame cv dets avg counts st = Ok tt.
Proof.
  intros Hd (Ha & Hz & _) Hne. unfold draw_frame.
  rewrite overlay_info_pixel, bind_ok by done.
  destruct (0 <? length (active_poly st))%nat; [|done].
  by apply draw_zones_pixel.
Qed.

End Pixels.

(** ** The loop with its drawing calls *)

Section DrawnRun.

Variable np_mean : list spec_float → spec_float.
Variable cv : Canvas.
Variable args : Args.

(** The block with its drawing calls ends as the block without them does,
    unless a drawing call raises. *)
Lemma process_frame_drawn_cases st :
  process_frame_drawn np_mean cv args st = process_frame np_mean args st
  ∨ ∃ frame rest avg values counts e,
      cap st = frame :: rest
      ∧ compute_motion_percent np_mean (shape frame) (fgmask frame)
          (detections frame) (args_bs_thresh args)
        = Ok (avg, values, fgmask frame)
      ∧ zone_counts (detections frame) (zones_of st) = Ok counts
      ∧ draw_frame cv (detections frame) avg counts st = Raise e
      ∧ process_frame_drawn np_mean cv args st = Crashed e.
Proof.
  unfold process_frame_drawn, process_frame.
  destruct (cap st) as [|frame rest]; [by left|].
  pose proof (compute_motion_percent_raises np_mean (shape frame)
                (fgmask frame) (detections frame) (args_bs_thresh args)) as Hm.
  destruct (compute_motion_percent _ _ _ _ _) as [[[avg values] mask]|]
    eqn:Hc; [|by left].
  simpl in Hm. destruct Hm as [-> _].
  destruct (zone_counts _ _) as [counts|] eqn:Hz; [|by left].
  destruct (draw_frame cv (detections frame) avg counts st) as [u|e] eqn:Hd;
    [by left|].
  right. by exists frame, rest, avg, values, counts, e.
Qed.

Lemma iteration_drawn_cases st p :
  iteration_drawn np_mean cv args st p = iteration np_mean args st p
  ∨ ∃ frame rest avg values counts e,
      paused st = false
      ∧ cap st = frame :: rest
      ∧ compute_motion_percent np_mean (shape frame) (fgmask frame)
          (detections frame) (args_bs_thresh args)
        = Ok (avg, values, fgmask frame)
      ∧ zone_counts (detections frame) (zones_of st) = Ok counts
      ∧ draw_frame cv (detections frame) avg counts st = Raise e
      ∧ iteration_drawn np_mean cv args st p = Crashed e.
Proof.
  unfold iteration_drawn, iteration.
  destruct (paused st) eqn:Hp; [by left|].
  destruct (process_frame_drawn_cases st)
    as [->|(frame & rest & avg & values & counts & e & ? & ? & ? & ? & ->)];
    [by left|].
  right. by exists frame, rest, avg, values, counts, e.
Qed.

(** A run that ends without an exception is a run of the loop without the
    drawing calls, so that what holds of the states the latter reaches
    holds of those of [main]. *)
Lemma main_loop_drawn_run st polls st' :
  state_of (main_loop_drawn np_mean cv args st polls) = Some st' →
  main_loop_drawn np_mean cv args st polls = main_loop np_mean args st polls.
Proof.
  revert st. induction polls as [|p polls IH]; intros st H; [done|].
  cbn [main_loop_drawn main_loop] in *.
  destruct (iteration_drawn_cases st p)
    as [Hit|(? & ? & ? & ? & ? & e & _ & _ & _ & _ & _ & Hit)];
    rewrite Hit in *; [|done].
  destruct (iteration np_mean args st p); try done. by apply IH.
Qed.

(** What ends a pass with an exception. *)
Lemma iteration_drawn_crash st p e :
  iteration_drawn np_mean cv args st p = Crashed e →
  (paused st = false ∧ process_frame np_mean args st = Crashed e
   ∧ e = OverflowError)
  ∨ (paused st = false
     ∧ (∃ frame rest avg values counts,
          cap st = frame :: rest
          ∧ compute_motion_percent np_mean (shape frame) (fgmask frame)
              (detections frame) (args_bs_thresh args)
            = Ok (avg, values, fgmask frame)
          ∧ zone_counts (detections frame) (zones_of st) = Ok counts
          ∧ draw_frame cv (detections frame) avg counts st = Raise e)
     ∧ raised_by cv e)
  ∨ (key_of p = ord "s" ∧ e = OSError
     ∧ args_zones args ∈ unwritable (fs st))
  ∨ (key_of p = ord "l" ∧ load_zones (args_zones args) (fs st) = Raise e).
Proof.
  intros H.
  destruct (iteration_drawn_cases st p)
    as [Hit|(frame & rest & avg & values & counts & e' & ? & ? & ? & ? & Hd
             & Hit)].
  - rewrite Hit in H. apply iteration_crash in H as [?|[?|?]]; auto.
  - rewrite Hit in H. injection H as ->. right. left.
    split; [done|]. split; [by exists frame, rest, avg, values, counts|].
    pose proof (draw_frame_ends cv (detections frame) avg counts st) as He.
    by rewrite Hd in He.
Qed.

Hypothesis Hcv : accepts_pixels cv.

(** On pixel data no drawing call raises. *)
Lemma iteration_drawn_pixel st p :
  pixel_state st → Forall (λ z, points z ≠ []) (zones_of st) →
  iteration_drawn np_mean cv args st p = iteration np_mean args st p.
Proof.
  intros Hpx Hne.
  destruct (iteration_drawn_cases st p)
    as [Hit|(frame & rest & avg & values & counts & e & _ & Hc & _ & _ & Hd
             & _)]; [done|].
  rewrite (draw_frame_pixel cv Hcv) in Hd; try done.
  destruct Hpx as (_ & _ & Hcap). rewrite Hc in Hcap.
  by apply Forall_cons in Hcap as [[_ ?] _].
Qed.

Lemma main_loop_drawn_pixel st polls :
  wf st → pixel_state st → Forall (λ z, points z ≠ []) (zones_of st) →
  Forall (λ p, pixel_poll p ∧ key_of p ≠ ord "l") polls →
  (args_zones args ∉ unwritable (fs st)) →
  ∃ st', state_of (main_loop_drawn np_mean cv args st polls) = Some st'.
Proof.
  intros Hwf Hpx Hne Hpolls. revert st Hwf Hpx Hne.
  induction Hpolls as [|p polls [Hp Hl] _ IH]; intros st Hwf Hpx Hne Hw.
  { by eexists. }
  cbn [main_loop_drawn]. rewrite iteration_drawn_pixel by done.
  destruct (iteration_pixel np_mean args st p Hwf Hpx Hp Hl Hw)
    as (st1 & Hit & Hpx1).
  destruct (iteration_zones np_mean args st p st1 Hwf Hl Hit)
    as (Hwf1 & Hf1 & _ & new & Hz & _ & _ & Hnew).
  destruct (iteration np_mean args st p) as [st2|st2| |];
    try discriminate Hit.
  - injection Hit as ->. apply IH; [done..| |by rewrite Hf1].
    rewrite Hz. apply Forall_app. split; [done|].
    eapply Forall_impl; [exact Hnew|]. intros z (_ & _ & Hlen).
    intros Hnil. rewrite Hnil in Hlen. simpl in Hlen. lia.
  - by eexists.
Qed.

End DrawnRun.

(** ** The properties *)

(** X1. [inside_polygon] never divides by zero and never indexes out of
    range: whatever the integers, the only exception it can raise is the
    [OverflowError] of an int too large for a float. *)
Theorem inside_polygon_raises_only_overflow (pt : Z * Z)
    (poly : list (Z * Z)) (err : exn)
    (H : inside_polygon pt poly = Raise err) :
  err = OverflowError.
Proof. pose proof (inside_polygon_raises pt poly) as He. by rewrite H in He. Qed.

Lemma inside_polygon_raises_only_overflow_witness :
  inside_polygon (0, 0) far_polygon = Raise OverflowError
  ∧ OverflowError = OverflowError.
Proof.
  split; [vm_compute; reflexivity|].
  apply (inside_polygon_raises_only_overflow (0, 0) far_polygon).
  vm_compute. reflexivity.
Defined.

(** X2. On an axis-aligned rectangle with corners [(a, b)] and [(c, d)]
    in pixel range, [inside_polygon] is exact for every integer point: the
    point is inside when it lies between the horizontal sides and between
    the vertical sides, the sides at the smaller coordinate included and
    those at the larger one excluded. *)
Theorem inside_polygon_rectangle (a b c d x y : Z)
    (Ha : Z.abs a < 2 ^ 25) (Hb : Z.abs b < 2 ^ 25)
    (Hc : Z.abs c < 2 ^ 25) (Hd : Z.abs d < 2 ^ 25) :
  inside_polygon (x, y) (rectangle a b c d)
  = Ok (xorb (b >? y) (d >? y) && xorb (x <? a) (x <? c))
  ∧ (a < c → b < d →
     inside_polygon (x, y) (rectangle a b c d)
     = Ok (bool_decide (a ≤ x < c ∧ b ≤ y < d))).
Proof.
  split; [by apply inside_polygon_rectangle_eq|]. intros Hac Hbd.
  rewrite inside_polygon_rectangle_eq by done. f_equal.
  rewrite !Z.gtb_ltb.
  destruct (Z.ltb_spec y b), (Z.ltb_spec y d), (Z.ltb_spec x a),
    (Z.ltb_spec x c); simpl; symmetry;
    (apply bool_decide_eq_true_2 || apply bool_decide_eq_false_2); lia.
Qed.

Lemma inside_polygon_rectangle_witness :
  (Z.abs 0 < 2 ^ 25 ∧ Z.abs 10 < 2 ^ 25)
  ∧ inside_polygon (0, 0) (rectangle 0 0 10 10) = Ok true
  ∧ inside_polygon (10, 10) (rectangle 0 0 10 10) = Ok false.
Proof.
  split; [split; reflexivity|]. split.
  - apply (proj2 (inside_polygon_rectangle 0 0 10 10 0 0 eq_refl eq_refl
                    eq_refl eq_refl)); reflexivity.
  - apply (proj2 (inside_polygon_rectangle 0 0 10 10 10 10 eq_refl eq_refl
                    eq_refl eq_refl)); reflexivity.
Defined.

(** X3. For a polygon of at least 3 points and a query point, all in
    pixel range, [inside_polygon] returns, and it returns [True] exactly
    when the number of edges whose test toggles the flag is odd: the order
    in which the edges are visited does not matter. *)
Theorem inside_polygon_crossing_parity (pt : Z * Z) (poly : list (Z * Z))
    (Hn : (3 ≤ length poly)%nat) (Hpt : pixel_point pt)
    (Hpoly : Forall pixel_point poly) :
  inside_polygon pt poly
  = Ok (Nat.odd (length (filter (λ ed, toggles pt ed = true) (edges poly)))).
Proof. by apply inside_polygon_toggles. Qed.

Lemma inside_polygon_crossing_parity_witness :
  (3 ≤ length square10)%nat
  ∧ inside_polygon (5, 5) square10
    = Ok (Nat.odd (length (filter (λ ed, toggles (5, 5) ed = true)
                             (edges square10)))).
Proof.
  split; [vm_compute; lia|].
  apply (inside_polygon_crossing_parity (5, 5) square10).
  - vm_compute. lia.
  - split; reflexivity.
  - repeat constructor.
Defined.

(** X4. Which point of a polygon is listed first does not matter: on
    pixel-range coordinates [inside_polygon] gives the same answer for
    every rotation of the point list. *)
Theorem inside_polygon_rotation (pt : Z * Z) (poly : list (Z * Z)) (k : nat)
    (Hpt : pixel_point pt) (Hpoly : Forall pixel_point poly) :
  inside_polygon pt (rotate k poly) = inside_polygon pt poly.
Proof. by apply inside_polygon_rotate. Qed.

Lemma inside_polygon_rotation_witness :
  inside_polygon (5, 5) (rotate 3 square10) = inside_polygon (5, 5) square10.
Proof.
  apply (inside_polygon_rotation (5, 5) square10 3).
  - split; reflexivity.
  - repeat constructor.
Defined.

(** X5. A point that is not below any vertex ([y] at least every vertex's
    [y]) or strictly below all of them is outside, for any integers
    whatever: no edge is considered and no arithmetic is done. *)
Theorem inside_polygon_outside_band (x y : Z) (poly : list (Z * Z))
    (H : Forall (λ p, p.2 ≤ y) poly ∨ Forall (λ p, y < p.2) poly) :
  inside_polygon (x, y) poly = Ok false.
Proof. by apply inside_polygon_band. Qed.

Lemma inside_polygon_outside_band_witness :
  inside_polygon (0, 2 ^ 1024) far_polygon = Ok false.
Proof.
  apply (inside_polygon_outside_band 0 (2 ^ 1024) far_polygon).
  left. repeat constructor; simpl; lia.
Defined.

(** X6. [centroid_of_bbox] can only raise [OverflowError]: [w / 2] never
    divides by zero, and [int(...)] never meets a NaN. *)
Theorem centroid_of_bbox_raises_only_overflow (x y w h : Z) (err : exn)
    (H : centroid_of_bbox x y w h = Raise err) :
  err = OverflowError.
Proof.
  pose proof (centroid_of_bbox_raises x y w h) as He. by rewrite H in He.
Qed.

Lemma centroid_of_bbox_raises_only_overflow_witness :
  centroid_of_bbox (2 ^ 1024) 0 10 10 = Raise OverflowError
  ∧ OverflowError = OverflowError.
Proof.
  split; [vm_compute; reflexivity|].
  apply (centroid_of_bbox_raises_only_overflow (2 ^ 1024) 0 10 10).
  vm_compute. reflexivity.
Defined.

(** X7. The tally never raises [KeyError]: every name it increments was
    entered when the counts were initialised.  It can only raise
    [OverflowError], and when it returns its keys are exactly the zone
    names. *)
Theorem zone_counts_never_key_error (detections : list Detection)
    (zones : list Zone) :
  (∀ err, zone_counts detections zones = Raise err → err = OverflowError)
  ∧ (∀ m, zone_counts detections zones = Ok m →
       ∀ n, is_Some (m !! n) ↔ n ∈ name <$> zones).
Proof.
  pose proof (zone_counts_raises detections zones) as H.
  split; [intros err He|intros m Hm]; by rewrite ?He, ?Hm in H.
Qed.

Lemma zone_counts_never_key_error_witness :
  zone_counts [det_far] [zone_A] = Raise OverflowError
  ∧ zone_counts [det_0_0_10_10] [zone_A; zone_A'] = Ok {[ "A" := 2 ]}
  ∧ (is_Some (({[ "A" := 2 ]} : gmap string Z) !! "A")
     ↔ "A" ∈ name <$> [zone_A; zone_A']).
Proof.
  split; [vm_compute; reflexivity|]. split; [vm_compute; reflexivity|].
  apply (proj2 (zone_counts_never_key_error [det_0_0_10_10] [zone_A; zone_A'])
           {[ "A" := 2 ]}).
  vm_compute. reflexivity.
Defined.

(** X8. What the tally computes: when every centroid is computed and
    every test returns, as on pixel-range boxes and zones, the count under
    a name is the number of pairs of a detection and a zone of that name
    whose polygon holds the detection's centroid.  Zones that overlap are
    each counted, and zones that share a name share a count. *)
Theorem zone_counts_is_occupancy (detections : list Detection)
    (zones : list Zone) :
  (all_return detections zones → tallies_occupancy detections zones)
  ∧ (Forall pixel_box detections → Forall pixel_zone zones →
     tallies_occupancy detections zones).
Proof.
  split.
  - apply zone_counts_occupancy.
  - intros Hd Hz. by apply zone_counts_occupancy, all_return_pixel.
Qed.

Lemma zone_counts_is_occupancy_witness :
  Forall pixel_box [det_0_0_10_10] ∧ Forall pixel_zone [zone_A; zone_B]
  ∧ tallies_occupancy [det_0_0_10_10] [zone_A; zone_B].
Proof.
  assert (Hd : Forall pixel_box [det_0_0_10_10])
    by (repeat constructor).
  assert (Hz : Forall pixel_zone [zone_A; zone_B])
    by (repeat constructor).
  split; [exact Hd|]. split; [exact Hz|].
  exact (proj2 (zone_counts_is_occupancy [det_0_0_10_10] [zone_A; zone_B])
           Hd Hz).
Defined.

(** X9. The tally does not depend on the order of the detections, nor on
    the order of the zones: permuting either list gives the same counts,
    or the same exception. *)
Theorem zone_counts_order_irrelevant (detections detections' : list Detection)
    (zones zones' : list Zone)
    (Hd : detections ≡ₚ detections') (Hz : zones ≡ₚ zones') :
  zone_counts detections zones = zone_counts detections' zones'.
Proof. by apply zone_counts_perm. Qed.

Lemma zone_counts_order_irrelevant_witness :
  zone_counts [det_0_0_10_10; det_1_1_2_2] [zone_A; zone_B]
  = zone_counts [det_1_1_2_2; det_0_0_10_10] [zone_B; zone_A].
Proof.
  apply (zone_counts_order_irrelevant [det_0_0_10_10; det_1_1_2_2]
           [det_1_1_2_2; det_0_0_10_10] [zone_A; zone_B] [zone_B; zone_A]);
    apply perm_swap.
Defined.

(** X10. When the zone names are pairwise distinct, every count of the
    tally lies between 0 and the number of detections. *)
Theorem zone_counts_bounded (detections : list Detection) (zones : list Zone)
    (m : gmap string Z) (n : string) (v : Z)
    (Hnames : NoDup (name <$> zones))
    (Hm : zone_counts detections zones = Ok m) (Hv : m !! n = Some v) :
  0 ≤ v ≤ Z.of_nat (length detections).
Proof.
  destruct (zone_counts_occupancy detections zones) as (m' & Hm' & Hs);
    [by eapply zone_counts_returned|].
  rewrite Hm in Hm'. injection Hm' as <-. rewrite Hs in Hv.
  destruct (decide _); [|done]. injection Hv as <-.
  by apply occupancy_bounds.
Qed.

Lemma zone_counts_bounded_witness :
  NoDup (name <$> [zone_A; zone_B])
  ∧ zone_counts [det_0_0_10_10] [zone_A; zone_B]
    = Ok {[ "A" := 1; "B" := 1 ]}
  ∧ 0 ≤ 1 ≤ Z.of_nat (length [det_0_0_10_10]).
Proof.
  assert (Hn : NoDup (name <$> [zone_A; zone_B])).
  { simpl. apply NoDup_cons. split; [|apply NoDup_singleton].
    intros H%list_elem_of_singleton. discriminate H. }
  split; [exact Hn|]. split; [vm_compute; reflexivity|].
  apply (zone_counts_bounded [det_0_0_10_10] [zone_A; zone_B]
           {[ "A" := 1; "B" := 1 ]} "A" 1 Hn); vm_compute; reflexivity.
Defined.

(** X11. The confidence of a detection plays no part in the metrics: two
    detection lists with the same boxes give the same tally and the same
    motion values. *)
Theorem metrics_ignore_confidence (detections detections' : list Detection)
    (Hbox : box <$> detections = box <$> detections') :
  (∀ zones, zone_counts detections zones = zone_counts detections' zones)
  ∧ (∀ np_mean sh mask thresh,
       compute_motion_percent np_mean sh mask detections thresh
       = compute_motion_percent np_mean sh mask detections' thresh).
Proof.
  split.
  - intros zones. by apply zone_counts_box.
  - intros np_mean sh mask thresh. by apply compute_motion_percent_box.
Qed.

Lemma metrics_ignore_confidence_witness :
  zone_counts [det_0_0_10_10] [zone_A]
  = zone_counts [{| det_x := 0; det_y := 0; det_w := 10; det_h := 10;
                    det_conf := F64.zero |}] [zone_A].
Proof.
  apply (proj1 (metrics_ignore_confidence [det_0_0_10_10]
                  [{| det_x := 0; det_y := 0; det_w := 10; det_h := 10;
                      det_conf := F64.zero |}] eq_refl)).
Defined.

(** X12. On a mask of fewer than 2^52 pixels [compute_motion_percent]
    never raises: it returns one motion value per detection, in order, the
    mask it was given, and as average 0.0 when there is no detection and
    the mean of the values otherwise. *)
Theorem compute_motion_percent_returns
    (np_mean : list spec_float → spec_float) (sh : Z * Z)
    (mask : list (list Z)) (detections : list Detection) (thresh : Z)
    (Hsize : size_of mask < 2 ^ 52) :
  ∃ values,
    compute_motion_percent np_mean sh mask detections thresh
    = Ok (match values with [] => F64.zero | _ => np_mean values end,
          values, mask)
    ∧ length values = length detections
    ∧ Forall2 (λ d v, motion_value sh mask thresh d = Ok v) detections values.
Proof.
  destruct (compute_motion_percent_values np_mean sh mask detections thresh
              Hsize) as (values & Hv & ->).
  exists values. split; [done|]. split; [|done].
  symmetry. by eapply Forall2_length.
Qed.

Lemma compute_motion_percent_returns_witness :
  size_of mask_4x4 < 2 ^ 52
  ∧ ∃ values,
      compute_motion_percent mean_unused (4, 4) mask_4x4
        [det_1_1_2_2; det_left_of_frame] 25
      = Ok (match values with [] => F64.zero | _ => mean_unused values end,
            values, mask_4x4)
      ∧ length values = 2%nat.
Proof.
  assert (Hsize : size_of mask_4x4 < 2 ^ 52) by (vm_compute; reflexivity).
  split; [exact Hsize|].
  destruct (compute_motion_percent_returns mean_unused (4, 4) mask_4x4
              [det_1_1_2_2; det_left_of_frame] 25 Hsize)
    as (values & H1 & H2 & _).
  exists values. split; [exact H1 | exact H2].
Defined.

Lemma int32_id n : - 2 ^ 31 ≤ n < 2 ^ 31 → int32 n = n.
Proof.
  intros Hn. unfold int32. rewrite Z.mod_small; lia.
Qed.

(** Where no sum wraps, the boxes of HOG are treated as those of Python
    ints are. *)
Lemma motion_value_int32_agrees sh mask thresh d :
  - 2 ^ 31 ≤ det_x d + det_w d < 2 ^ 31 →
  - 2 ^ 31 ≤ det_y d + det_h d < 2 ^ 31 →
  motion_value_int32 sh mask thresh d = motion_value sh mask thresh d.
Proof.
  intros Hx Hy. unfold motion_value_int32, motion_value.
  by rewrite !int32_id by done.
Qed.

(** Where one does, they are not: the region of the wrapping box is empty
    for NumPy and 2 x 3 for Python ints. *)
Example motion_value_wraps :
  int32 (det_x det_wrapping + det_w det_wrapping) = - 2 ^ 31
  ∧ motion_value_int32 (4, 4) mask_4x4 25 det_wrapping = Ok F64.zero
  ∧ motion_value (4, 4) mask_4x4 25 det_wrapping = Ok F64.lit_100.
Proof. repeat split; vm_compute; reflexivity. Qed.

(** X13. On a mask of the frame's shape, the region of a detection whose
    far corner [(x + w, y + h)] has its coordinates from 0 to 2^31 - 1 is
    the detection's box clipped to the frame: it holds
    [max(0, y2 - y1) * max(0, x2 - x1)] pixels, and its pixel [(i, j)] is
    the mask's pixel [(y1 + i, x1 + j)].  In that range the two sums do not
    wrap around in NumPy's 32-bit ints, so that this holds of the boxes of
    HOG as of those of YOLO: the value computed with wrapping sums is the
    one computed with Python ints. *)
Theorem motion_region_is_clipped_box (sh : Z * Z) (mask : list (list Z))
    (d : Detection)
    (Hshape : well_shaped sh mask) (Hwidth : 0 ≤ sh.2)
    (Hx : 0 ≤ det_x d + det_w d < 2 ^ 31)
    (Hy : 0 ≤ det_y d + det_h d < 2 ^ 31) :
  let x1 := Z.max 0 (det_x d) in
  let y1 := Z.max 0 (det_y d) in
  let x2 := Z.min (sh.2) (det_x d + det_w d) in
  let y2 := Z.min (sh.1) (det_y d + det_h d) in
  let roi := slice2 y1 y2 x1 x2 mask in
  (int32 (det_x d + det_w d) = det_x d + det_w d
   ∧ int32 (det_y d + det_h d) = det_y d + det_h d
   ∧ ∀ thresh, motion_value_int32 sh mask thresh d
               = motion_value sh mask thresh d)
  ∧ size_of roi = Z.max 0 (y2 - y1) * Z.max 0 (x2 - x1)
  ∧ ∀ i j : nat, Z.of_nat i < y2 - y1 → Z.of_nat j < x2 - x1 →
      pixel roi i j = pixel mask (Z.to_nat y1 + i) (Z.to_nat x1 + j).
Proof.
  intros x1 y1 x2 y2 roi. subst roi. split.
  { split; [apply int32_id; lia|]. split; [apply int32_id; lia|].
    intros thresh. apply motion_value_int32_agrees; lia. }
  assert (0 ≤ sh.1) by (destruct Hshape as [<- _]; lia).
  apply (slice2_inner sh); try done; subst x1 y1 x2 y2; lia.
Qed.

Lemma motion_region_is_clipped_box_witness :
  well_shaped (4, 4) mask_4x4
  ∧ motion_value_int32 (4, 4) mask_4x4 25 det_1_1_2_2
    = motion_value (4, 4) mask_4x4 25 det_1_1_2_2
  ∧ size_of (slice2 1 3 1 3 mask_4x4) = 4
  ∧ pixel (slice2 1 3 1 3 mask_4x4) 1 1 = pixel mask_4x4 2 2.
Proof.
  assert (Hs : well_shaped (4, 4) mask_4x4)
    by (split; [reflexivity | repeat constructor]).
  split; [exact Hs|].
  destruct (motion_region_is_clipped_box (4, 4) mask_4x4 det_1_1_2_2 Hs)
    as ((_ & _ & H0) & H1 & H2); [simpl; lia..|].
  split; [exact (H0 25)|].
  split; [exact H1|]. apply (H2 1%nat 1%nat); simpl; lia.
Defined.

(** X14. Where nothing moves the motion is 0.0: on a mask with no pixel
    above the threshold (and fewer than 2^52 pixels) every detection gets
    the value 0.0, wherever its box lies. *)
Theorem motion_value_of_still_mask (sh : Z * Z) (mask : list (list Z))
    (thresh : Z) (d : Detection)
    (Hsize : size_of mask < 2 ^ 52) (Hstill : still thresh mask) :
  motion_value sh mask thresh d = Ok F64.zero.
Proof. by apply motion_value_still. Qed.

Lemma motion_value_of_still_mask_witness :
  size_of mask_still < 2 ^ 52 ∧ still 25 mask_still
  ∧ motion_value (4, 4) mask_still 25 det_1_1_2_2 = Ok F64.zero.
Proof.
  assert (Hsize : size_of mask_still < 2 ^ 52) by (vm_compute; reflexivity).
  assert (Hstill : still 25 mask_still)
    by (repeat constructor; simpl; lia).
  split; [exact Hsize|]. split; [exact Hstill|].
  exact (motion_value_of_still_mask (4, 4) mask_still 25 det_1_1_2_2
           Hsize Hstill).
Defined.

(** X15. [detect_people_hog] never raises, not even when the detector
    hands out fewer weights than rectangles: it returns one detection per
    rectangle, in order and with the rectangle as its box, whose
    confidence is the weight at the rectangle's index, or 1.0 when there
    is none. *)
Theorem detect_people_hog_picks (rects : list (Z * Z * Z * Z))
    (weights : list spec_float) :
  ∃ picks, detect_people_hog rects weights = Ok picks
    ∧ box <$> picks = rects
    ∧ ∀ (i : nat) d, picks !! i = Some d →
        det_conf d = default lit_1 (weights !! i).
Proof.
  destruct (hog_picks_spec weights rects 0 []) as (picks & H & Hb & Hw).
  exists picks. split; [exact H|]. split; [exact Hb|]. exact Hw.
Qed.

(** X16. [detect_people_yolo] returns no detection when there is no
    result or the first result has no boxes; otherwise, when it returns,
    its detections are, in order, those built from the rows of
    [zip(xyxy, confs, clss)] whose class truncates to 0: corners truncated
    towards zero, width and height subtracted in single precision before
    truncation.  There are at most as many as the shortest of the three
    arrays has rows. *)
Theorem detect_people_yolo_persons (results : list YoloResult)
    (dets : list Detection)
    (H : detect_people_yolo results = Ok dets) :
  match results with
  | [] => dets = []
  | r :: _ =>
      match boxes r with
      | None => dets = []
      | Some b =>
          Forall2 (λ row d, yolo_row row = Ok (Some d))
            (filter (λ row, person_row row = true) (yolo_rows b)) dets
          ∧ (length dets ≤
               Nat.min (Nat.min (length (default [] (xyxy b)))
                                (length (default [] (conf b))))
                       (length (default [] (cls b))))%nat
      end
  end.
Proof.
  unfold detect_people_yolo in H. destruct results as [|r rest].
  { by injection H as <-. }
  destruct (boxes r) as [b|]; [|by injection H as <-].
  apply yolo_loop_spec in H as (new & -> & Hnew). simpl.
  split; [done|]. rewrite <- yolo_rows_length.
  apply Forall2_length in Hnew. rewrite <- Hnew. apply length_filter.
Qed.

Lemma detect_people_yolo_persons_witness :
  detect_people_yolo [yolo_example]
  = Ok [{| det_x := 10; det_y := 10; det_w := 40; det_h := 40;
           det_conf := F32.widen f32_0_9 |}]
  ∧ (length [{| det_x := 10; det_y := 10; det_w := 40; det_h := 40;
                det_conf := F32.widen f32_0_9 |}] ≤ 2)%nat.
Proof.
  assert (H : detect_people_yolo [yolo_example]
              = Ok [{| det_x := 10; det_y := 10; det_w := 40; det_h := 40;
                       det_conf := F32.widen f32_0_9 |}])
    by (vm_compute; reflexivity).
  split; [exact H|].
  exact (proj2 (detect_people_yolo_persons [yolo_example] _ H)).
Defined.

(** X17. Left clicks append their points to the active polygon in the
    order they arrive, other mouse events do nothing, and no click touches
    a zone, the zone counter or the files. *)
Theorem clicks_append_in_order (st : State) (ms : list MouseEvent)
    (Hwf : wf st) :
  active_poly (foldl on_mouse st ms) = active_poly st ++ clicked ms
  ∧ zones_of (foldl on_mouse st ms) = zones_of st
  ∧ zone_counter (foldl on_mouse st ms) = zone_counter st
  ∧ fs (foldl on_mouse st ms) = fs st
  ∧ wf (foldl on_mouse st ms).
Proof.
  destruct (on_mouse_all st ms Hwf) as (? & ? & ? & ? & ? & _). done.
Qed.

Lemma clicks_append_in_order_witness :
  wf st_plain
  ∧ active_poly (foldl on_mouse st_plain
                   [click 1 2; {| mouse_event := 0; mouse_x := 9; mouse_y := 9 |};
                    click 3 4])
    = [(1, 2); (3, 4)].
Proof.
  split; [exact wf_st_plain|].
  exact (proj1 (clicks_append_in_order st_plain
                  [click 1 2; {| mouse_event := 0; mouse_x := 9; mouse_y := 9 |};
                   click 3 4] wf_st_plain)).
Defined.

(** X18. The [z] key undoes a click exactly: after a click and [z] the
    whole state is what it was before the click.  On an empty active
    polygon [z] does nothing (the guard keeps [pop] from raising). *)
Theorem undo_reverts_click (args : Args) (st : State) (Hwf : wf st) :
  (∀ p, handle_key args (add_point st p) (ord "z") = Running st)
  ∧ (active_poly st = [] → handle_key args st (ord "z") = Running st).
Proof.
  split; [intros p; by apply undo_add_point|].
  intros Ha. rewrite handle_key_undo. by rewrite Ha.
Qed.

Lemma undo_reverts_click_witness :
  wf st_plain
  ∧ handle_key args_plain (add_point st_plain (3, 4)) (ord "z")
    = Running st_plain
  ∧ handle_key args_plain st_plain (ord "z") = Running st_plain.
Proof.
  split; [exact wf_st_plain|]. split.
  - exact (proj1 (undo_reverts_click args_plain st_plain wf_st_plain) (3, 4)).
  - exact (proj2 (undo_reverts_click args_plain st_plain wf_st_plain) eq_refl).
Defined.

(** X19. While the loop is paused, and until [p] is pressed, no frame is
    read, the frame index stands still and nothing is written to the log,
    however many passes the loop makes. *)
Theorem paused_loop_reads_nothing (np_mean : list spec_float → spec_float)
    (args : Args) (st st' : State) (polls : list Poll)
    (Hpaused : paused st = true)
    (Hkeys : Forall (λ p, key_of p ≠ ord "p") polls)
    (Hrun : state_of (main_loop np_mean args st polls) = Some st') :
  paused st' = true ∧ frame_idx st' = frame_idx st ∧ cap st' = cap st
  ∧ csv_f st' = csv_f st.
Proof. by eapply main_loop_paused. Qed.

Lemma paused_loop_reads_nothing_witness :
  paused (set_paused true st_logging) = true
  ∧ ∃ st', state_of (main_loop mean_unused args_logging
                       (set_paused true st_logging) polls_draw_zone)
           = Some st'
      ∧ frame_idx st' = 0 ∧ csv_f st' = csv_f st_logging.
Proof.
  split; [reflexivity|]. eexists. split; [vm_compute; reflexivity|].
  match goal with |- frame_idx ?s = _ ∧ _ =>
    destruct (paused_loop_reads_nothing mean_unused args_logging
                (set_paused true st_logging) s polls_draw_zone)
      as (_ & H1 & _ & H2)
  end; [reflexivity | | vm_compute; reflexivity | ].
  - repeat constructor; vm_compute; discriminate.
  - split; [exact H1 | exact H2].
Defined.

(** X20. The frame index counts the frames read: along any run the frames
    still to come are a suffix of those there were, and the index has
    advanced by the number of frames consumed. *)
Theorem frame_index_counts_frames (np_mean : list spec_float → spec_float)
    (args : Args) (st st' : State) (polls : list Poll)
    (Hrun : state_of (main_loop np_mean args st polls) = Some st') :
  ∃ read, cap st = read ++ cap st'
          ∧ frame_idx st' = frame_idx st + Z.of_nat (length read).
Proof. by eapply main_loop_frames. Qed.

Lemma frame_index_counts_frames_witness :
  ∃ st', state_of (main_loop mean_unused args_logging st_logging
                     polls_draw_zone) = Some st'
    ∧ ∃ read, cap st_logging = read ++ cap st'
              ∧ frame_idx st' = frame_idx st_logging + Z.of_nat (length read).
Proof.
  eexists. split; [vm_compute; reflexivity|].
  apply (frame_index_counts_frames mean_unused args_logging st_logging _
           polls_draw_zone).
  vm_compute. reflexivity.
Defined.

(** X21. Along a run in which [l] is never pressed the zone list only
    grows at its end: the zones there were stay in place, and the zones
    drawn since have at least 3 points and the names "Zone c+1",
    "Zone c+2", ... after the counter [c] at the start, which advances by
    their number.  In particular the new zones' names are pairwise
    distinct. *)
Theorem drawn_zones_are_numbered (np_mean : list spec_float → spec_float)
    (args : Args) (st st' : State) (polls : list Poll)
    (Hwf : wf st) (Hkeys : Forall (λ p, key_of p ≠ ord "l") polls)
    (Hrun : state_of (main_loop np_mean args st polls) = Some st') :
  ∃ new, zones_of st' = zones_of st ++ new
    ∧ zone_counter st' = zone_counter st + Z.of_nat (length new)
    ∧ (∀ (i : nat) z, new !! i = Some z →
         name z = "Zone " +:+ pretty (zone_counter st + Z.of_nat i + 1)
         ∧ (3 ≤ length (points z))%nat)
    ∧ NoDup (name <$> new).
Proof.
  destruct (main_loop_zones np_mean args st polls st' Hwf Hkeys Hrun)
    as (new & Hz & Hc & Hn).
  exists new. split; [done|]. split; [done|]. split; [done|].
  apply NoDup_alt. intros i j nm Hi Hj.
  rewrite list_lookup_fmap in Hi. rewrite list_lookup_fmap in Hj.
  destruct (new !! i) as [zi|] eqn:Hzi; [|done].
  destruct (new !! j) as [zj|] eqn:Hzj; [|done].
  destruct (Hn i zi Hzi) as [Ei _]. destruct (Hn j zj Hzj) as [Ej _].
  simpl in Hi, Hj. injection Hi as <-. injection Hj as Hj.
  rewrite Ei, Ej in Hj. apply (inj (String.app "Zone ")) in Hj.
  apply (inj pretty) in Hj. lia.
Qed.

Lemma drawn_zones_are_numbered_witness :
  wf st_logging
  ∧ ∃ st', state_of (main_loop mean_unused args_logging st_logging
                       polls_draw_zone) = Some st'
      ∧ ∃ new, zones_of st' = zones_of st_logging ++ new
               ∧ zone_counter st' = zone_counter st_logging
                                    + Z.of_nat (length new).
Proof.
  assert (Hwf : wf st_logging).
  { split; [simpl; lia | constructor]. }
  split; [exact Hwf|]. eexists. split; [vm_compute; reflexivity|].
  match goal with |- ∃ new, zones_of ?s = _ ∧ _ =>
    destruct (drawn_zones_are_numbered mean_unused args_logging st_logging s
                polls_draw_zone Hwf) as (new & H1 & H2 & _)
  end; [| vm_compute; reflexivity |].
  - repeat constructor; vm_compute; discriminate.
  - exists new. split; [exact H1 | exact H2].
Defined.

(** X22. The [l] key replaces the zones by those of the file and leaves
    the rest of the editor as it was: the active polygon keeps its points
    and the zone counter is not reset to the number of zones loaded, as it
    is at start-up. *)
Theorem load_key_keeps_editor (args : Args) (st st' : State)
    (Hwf : wf st) (Hkey : handle_key args st (ord "l") = Running st') :
  (∃ loaded, load_zones (args_zones args) (fs st) = Ok loaded
             ∧ mapM zone_of loaded = Some (zones_of st'))
  ∧ active_poly st' = active_poly st
  ∧ zone_counter st' = zone_counter st
  ∧ fs st' = fs st.
Proof.
  destruct (load_key args st st' Hwf Hkey) as (loaded & ? & ? & ? & ? & ?).
  split; [by exists loaded | done].
Qed.

Lemma load_key_keeps_editor_witness :
  wf (with_fs fs_zone_2)
  ∧ ∃ st', handle_key args_plain (with_fs fs_zone_2) (ord "l") = Running st'
      ∧ name <$> zones_of st' = ["Zone 2"]
      ∧ zone_counter st' = 0.
Proof.
  assert (Hwf : wf (with_fs fs_zone_2)).
  { split; [simpl; lia | constructor]. }
  split; [exact Hwf|]. eexists. split; [vm_compute; reflexivity|].
  split; [vm_compute; reflexivity|].
  match goal with |- zone_counter ?s = _ =>
    destruct (load_key_keeps_editor args_plain (with_fs fs_zone_2) s Hwf)
      as (_ & _ & H & _)
  end; [vm_compute; reflexivity|]. exact H.
Defined.

(** X23. The [s] key succeeds exactly when the zone path can be written;
    it then writes the zones to that path and changes nothing else: every
    other file, the zones, the active polygon and the counter stay, and a
    later [l] brings the same zones back.  When the path cannot be written
    the [OSError] leaves [main]. *)
Theorem save_key_writes_zone_file (args : Args) (st : State) :
  (args_zones args ∈ unwritable (fs st) →
   handle_key args st (ord "s") = Crashed OSError)
  ∧ (args_zones args ∉ unwritable (fs st) →
     ∃ st', handle_key args st (ord "s") = Running st'
       ∧ files (fs st')
         = <[args_zones args :=
               Document (JArray (json_of_zone <$> zones_of st))]>
             (files (fs st))
       ∧ zones_of st' = zones_of st ∧ active_poly st' = active_poly st
       ∧ zone_counter st' = zone_counter st
       ∧ ∃ st'', handle_key args st' (ord "l") = Running st''
                 ∧ zones_of st'' = zones_of st).
Proof.
  split; intros Hw.
  - rewrite handle_key_save. unfold save_zones. by rewrite decide_True.
  - assert (∃ st', handle_key args st (ord "s") = Running st') as [st' H].
    { rewrite handle_key_save. unfold save_zones. rewrite decide_False by done.
      by eexists. }
    exists st'. split; [done|].
    destruct (save_key args st st' H) as (_ & ? & _ & ? & ? & ? & _).
    do 4 (split; [done|]). by apply save_then_load.
Qed.

Lemma save_key_writes_zone_file_witness :
  (args_zones args_plain ∉ unwritable (fs st_plain))
  ∧ ∃ st', handle_key args_plain st_plain (ord "s") = Running st'
      ∧ zones_of st' = zones_of st_plain.
Proof.
  assert (Hw : args_zones args_plain ∉ unwritable (fs st_plain)).
  { simpl. apply not_elem_of_empty. }
  split; [exact Hw|].
  destruct (proj2 (save_key_writes_zone_file args_plain st_plain) Hw)
    as (st' & H1 & _ & H2 & _).
  exists st'. split; [exact H1 | exact H2].
Defined.

(** X24. What can end a pass of the loop with an exception, among the
    program's own computations and its drawing calls (the calls that read,
    convert, blend or show the image and the write to the open log are
    taken to return), the frame with its mask and detections being given
    and the boxes' sums within 32 bits: an [OverflowError] of the frame's
    metrics, an exception that one of the calls [cv2.polylines],
    [cv2.circle], [cv2.putText] or [cv2.rectangle] of [overlay_info] and
    [draw_zones] raises, an [OSError] at the [s] key when the zone path
    cannot be written, or whatever [load_zones] raises at the [l] key.
    Nothing else does; in particular no key but [s] and [l] can. *)
Theorem iteration_crash_causes (np_mean : list spec_float → spec_float)
    (cv : Canvas) (args : Args) (st : State) (p : Poll) (err : exn)
    (Hboxes : frames_in_int32 (cap st))
    (Hcrash : iteration_drawn np_mean cv args st p = Crashed err) :
  (paused st = false ∧ process_frame np_mean args st = Crashed err
   ∧ err = OverflowError)
  ∨ (paused st = false
     ∧ (∃ frame rest avg values counts,
          cap st = frame :: rest
          ∧ compute_motion_percent np_mean (shape frame) (fgmask frame)
              (detections frame) (args_bs_thresh args)
            = Ok (avg, values, fgmask frame)
          ∧ zone_counts (detections frame) (zones_of st) = Ok counts
          ∧ draw_frame cv (detections frame) avg counts st = Raise err)
     ∧ raised_by cv err)
  ∨ (key_of p = ord "s" ∧ err = OSError
     ∧ args_zones args ∈ unwritable (fs st))
  ∨ (key_of p = ord "l"
     ∧ load_zones (args_zones args) (fs st) = Raise err).
Proof. by apply iteration_drawn_crash. Qed.

Lemma iteration_crash_causes_witness :
  frames_in_int32 (cap st_far_zone)
  ∧ iteration_drawn mean_unused canvas_int32 args_plain st_far_zone
    {| mouse := []; wait_key := -1 |} = Crashed OverflowError
  ∧ (∃ st, iteration mean_unused args_plain st_far_zone
             {| mouse := []; wait_key := -1 |} = Running st)
  ∧ raised_by canvas_int32 OverflowError.
Proof.
  assert (H : iteration_drawn mean_unused canvas_int32 args_plain st_far_zone
                {| mouse := []; wait_key := -1 |} = Crashed OverflowError).
  { vm_compute. reflexivity. }
  assert (Hb : frames_in_int32 (cap st_far_zone)) by (repeat constructor).
  split; [exact Hb|].
  split; [exact H|]. split; [eexists; vm_compute; reflexivity|].
  destruct (iteration_crash_causes mean_unused canvas_int32 args_plain
              st_far_zone {| mouse := []; wait_key := -1 |} OverflowError
              Hb H)
    as [(_ & Hp & _)|[(_ & _ & Hr)|[(Hk & _)|(Hk & _)]]].
  - vm_compute in Hp. discriminate Hp.
  - exact Hr.
  - vm_compute in Hk. discriminate Hk.
  - vm_compute in Hk. discriminate Hk.
Defined.

(** X25. [main] does not raise on pixel data, as far as the OpenCV drawing
    calls take every geometry in the range of pixels (and the calls that
    read, convert, blend or show the image and the write to the open log
    return): started without a zone file, with writable zone and log
    paths, frames whose masks have fewer than 2^52 pixels and whose boxes
    are in pixel range, clicks in pixel range and any keys but [l], the run
    of [main] with its drawing calls goes on or ends by itself, whatever is
    drawn, undone, finalized or saved on the way; it is the run of the loop
    without them, and no sum of a box's fields leaves the 32-bit range on
    the way. *)
Theorem main_runs_on_pixel_data (np_mean : list spec_float → spec_float)
    (cv : Canvas) (args : Args) (frames : list Frame) (fs0 : FS)
    (polls : list Poll)
    (Hcv : accepts_pixels cv)
    (Hfile : files fs0 !! args_zones args = None)
    (Hzones : args_zones args ∉ unwritable fs0)
    (Hcsv : ∀ path, args_csv args = Some path → path ∉ unwritable fs0)
    (Hframes : Forall pixel_frame frames)
    (Hpolls : Forall (λ p, pixel_poll p ∧ key_of p ≠ ord "l") polls) :
  ∃ st, state_of (main_drawn np_mean cv args true frames fs0 polls) = Some st
        ∧ main_drawn np_mean cv args true frames fs0 polls
          = main np_mean args true frames fs0 polls
        ∧ frames_in_int32 frames.
Proof.
  destruct (start_fresh args frames fs0 Hfile Hcsv)
    as (st0 & Hs & Hwf & Hz & Ha & _ & Hc & Hf & _).
  unfold main_drawn, main. rewrite Hs.
  destruct (main_loop_drawn_pixel np_mean cv args Hcv st0 polls) as [st Hst];
    try done.
  - split; [by rewrite Ha|]. split; [by rewrite Hz|by rewrite Hc].
  - by rewrite Hz.
  - by rewrite Hf.
  - exists st. split; [done|].
    split; [by eapply main_loop_drawn_run|by apply pixel_frames_in_int32].
Qed.

Lemma main_runs_on_pixel_data_witness :
  accepts_pixels canvas_blank
  ∧ ∃ st, state_of (main_drawn mean_unused canvas_blank args_logging true
                      [empty_frame; empty_frame] fs_empty polls_draw_zone)
          = Some st.
Proof.
  assert (Hcv : accepts_pixels canvas_blank) by (by repeat split).
  split; [exact Hcv|].
  destruct (main_runs_on_pixel_data mean_unused canvas_blank args_logging
              [empty_frame; empty_frame] fs_empty polls_draw_zone Hcv)
    as (st & Hst & _).
  - reflexivity.
  - simpl. apply not_elem_of_empty.
  - intros path _. simpl. apply not_elem_of_empty.
  - repeat constructor; vm_compute; reflexivity.
  - repeat constructor; vm_compute; try reflexivity; discriminate.
  - exists st. exact Hst.
Defined.

(** X26. In every state that [main] reaches no zone shares its point list
    with the active polygon, so that no click, however many follow, alters
    a zone that was loaded or finalized. *)
Theorem zones_never_alias_active (np_mean : list spec_float → spec_float)
    (args : Args) (opened : bool) (frames : list Frame) (fs0 : FS)
    (polls : list Poll) (st : State)
    (Hrun : state_of (main np_mean args opened frames fs0 polls) = Some st) :
  wf st ∧ ∀ ms, zones_of (foldl on_mouse st ms) = zones_of st.
Proof.
  assert (Hwf : wf st).
  { unfold main in Hrun. destruct opened.
    - destruct (start args true frames fs0) as [st0|st0| |] eqn:Hs;
        try discriminate Hrun.
      + eapply wf_main_loop; [|exact Hrun]. by eapply wf_start.
      + exfalso. revert Hs. unfold start. simpl.
        destruct (load_zones _ _) as [loaded|]; [|done].
        destruct (mapM zone_of loaded) as [zs|]; [|done].
        destruct (args_csv args) as [[|ch path]|]; simpl; try done.
        by destruct (decide _).
    - injection Hrun as <-. split; [simpl; lia | constructor]. }
  split; [done|]. intros ms. by destruct (on_mouse_all st ms Hwf) as (_ & _ & ? & _).
Qed.

Lemma zones_never_alias_active_witness :
  ∃ st, state_of (main mean_unused args_logging true
                    [empty_frame; empty_frame] fs_empty polls_draw_zone)
        = Some st
    ∧ zones_of (foldl on_mouse st [click 7 7]) = zones_of st.
Proof.
  eexists. split; [vm_compute; reflexivity|].
  match goal with |- zones_of (foldl on_mouse ?s _) = _ =>
    apply (proj2 (zones_never_alias_active mean_unused args_logging true
                    [empty_frame; empty_frame] fs_empty polls_draw_zone s
                    ltac:(vm_compute; reflexivity)))
  end.
Defined.

(** The state in which the loop starts. *)
Lemma start_state args frames fs0 st0 :
  start args true frames fs0 = Running st0 →
  (∃ loaded, load_zones (args_zones args) fs0 = Ok loaded
             ∧ mapM zone_of loaded = Some (zones_of st0))
  ∧ zone_counter st0 = Z.of_nat (length (zones_of st0))
  ∧ active_poly st0 = [] ∧ cap st0 = frames ∧ frame_idx st0 = 0
  ∧ paused st0 = false ∧ fs st0 = fs0.
Proof.
  unfold start. simpl.
  destruct (load_zones _ _) as [loaded|] eqn:Hl; [|done].
  destruct (mapM zone_of loaded) as [zs|] eqn:Hm; [|done].
  pose proof (alloc_zones_view [] [[]] zs) as Hview.
  unfold alloc_zones in Hview. simpl in Hview.
  assert (Ha : ((points <$> zs) ++ [[]]) !!! length (points <$> zs)
               = ([] : list (Z * Z))).
  { rewrite lookup_total_app_r by lia. by rewrite Nat.sub_diag. }
  intros Hstart.
  assert (Hst : zones_of st0 = zs ∧ zone_counter st0 = Z.of_nat (length zs)
                ∧ active_poly st0 = [] ∧ cap st0 = frames ∧ frame_idx st0 = 0
                ∧ paused st0 = false ∧ fs st0 = fs0).
  { destruct (args_csv args) as [[|ch path]|]; simpl in Hstart;
      try destruct (decide _); try discriminate Hstart;
      injection Hstart as <-; by repeat split. }
  destruct Hst as (-> & ? & ? & ? & ? & ? & ?).
  split; [by exists loaded | done].
Qed.

(** X27. At start-up the zones are those of the zone file, the zone
    counter is their number, the active polygon is empty and no frame has
    been read. *)
Theorem start_counts_loaded_zones (args : Args) (frames : list Frame)
    (fs0 : FS) (st0 : State)
    (Hstart : start args true frames fs0 = Running st0) :
  (∃ loaded, load_zones (args_zones args) fs0 = Ok loaded
             ∧ mapM zone_of loaded = Some (zones_of st0))
  ∧ zone_counter st0 = Z.of_nat (length (zones_of st0))
  ∧ active_poly st0 = [] ∧ cap st0 = frames ∧ frame_idx st0 = 0
  ∧ paused st0 = false ∧ fs st0 = fs0.
Proof. by apply start_state. Qed.

Lemma start_counts_loaded_zones_witness :
  ∃ st0, start args_plain true [] fs_zone_2 = Running st0
    ∧ zone_counter st0 = Z.of_nat (length (zones_of st0))
    ∧ name <$> zones_of st0 = ["Zone 2"].
Proof.
  eexists. split; [vm_compute; reflexivity|].
  split; [|vm_compute; reflexivity].
  match goal with |- zone_counter ?s = _ =>
    apply (proj1 (proj2 (start_counts_loaded_zones args_plain [] fs_zone_2 s
                           ltac:(vm_compute; reflexivity))))
  end.
Defined.

(** A record without a name is named by its position. *)
Lemma load_zone_nameless i pts :
  load_zone i (nameless_record pts)
  = Ok (loaded_of {| name := "Zone " +:+ pretty (i + 1); points := pts |}).
Proof.
  unfold load_zone, nameless_record, loaded_of, map_result.
  change (dict_get "name" _) with (@None json).
  change (dict_get "points" _) with (Some (JArray (json_of_point <$> pts))).
  simpl.
  by rewrite (map_enumerate_fmap _ _ (λ p : Z * Z, [JInt p.1; JInt p.2])).
Qed.

Lemma load_nameless_records i polys :
  ∃ zs, map_enumerate load_zone i (nameless_record <$> polys)
        = Ok (loaded_of <$> zs)
    ∧ points <$> zs = polys
    ∧ ∀ (k : nat) z, zs !! k = Some z →
        name z = "Zone " +:+ pretty (i + Z.of_nat k + 1).
Proof.
  revert i. induction polys as [|pts polys IH]; intros i.
  { exists []. by repeat split. }
  destruct (IH (i + 1)) as (zs & Hl & Hp & Hn).
  exists ({| name := "Zone " +:+ pretty (i + 1); points := pts |} :: zs).
  split; [|split].
  - rewrite fmap_cons. cbn [map_enumerate].
    by rewrite load_zone_nameless, bind_ok, Hl.
  - csimpl. by rewrite Hp.
  - intros [|k] z Hz.
    + injection Hz as <-. simpl. do 2 f_equal. lia.
    + rewrite (Hn k z Hz). do 2 f_equal. lia.
Qed.

(** X28. Records without a name get the default names "Zone 1",
    "Zone 2", ... by their position in the file, with the points they
    hold; after start-up on such a file the name that the next finalized
    zone gets is not among them. *)
Theorem load_zones_default_names (path : string) (fs0 : FS)
    (polys : list (list (Z * Z)))
    (Hfile : files fs0 !! path
             = Some (Document (JArray (nameless_record <$> polys)))) :
  ∃ loaded zs, load_zones path fs0 = Ok loaded
    ∧ mapM zone_of loaded = Some zs
    ∧ points <$> zs = polys
    ∧ (∀ (k : nat) z, zs !! k = Some z →
         name z = "Zone " +:+ pretty (Z.of_nat k + 1))
    ∧ ∀ args frames st0,
        args_zones args = path → start args true frames fs0 = Running st0 →
        zones_of st0 = zs ∧ default_name st0 ∉ name <$> zs.
Proof.
  destruct (load_nameless_records 0 polys) as (zs & Hl & Hp & Hn).
  assert (Hload : load_zones path fs0 = Ok (loaded_of <$> zs)).
  { unfold load_zones. rewrite Hfile. simpl. exact Hl. }
  exists (loaded_of <$> zs), zs. split; [done|].
  split; [apply mapM_zone_of_loaded|]. split; [done|]. split; [done|].
  intros args frames st0 Hpath Hstart.
  destruct (start_state args frames fs0 st0 Hstart)
    as ((loaded & Hl' & Hm') & Hc & _).
  rewrite Hpath, Hload in Hl'. injection Hl' as <-.
  rewrite mapM_zone_of_loaded in Hm'. injection Hm' as Hzs.
  split; [done|]. unfold default_name. rewrite Hc, <- Hzs.
  intros Hin. apply list_elem_of_fmap in Hin as (z & Hz & Hin).
  apply list_elem_of_lookup in Hin as [k Hk].
  pose proof (lookup_lt_Some _ _ _ Hk) as Hlt.
  rewrite (Hn k z Hk) in Hz. apply (inj (String.app "Zone ")) in Hz.
  apply (inj pretty) in Hz. lia.
Qed.

Lemma load_zones_default_names_witness :
  ∃ loaded zs,
    load_zones "zones.json"
      (file_of (JArray (nameless_record <$> [square10; square20])))
    = Ok loaded
    ∧ mapM zone_of loaded = Some zs
    ∧ points <$> zs = [square10; square20].
Proof.
  destruct (load_zones_default_names "zones.json"
              (file_of (JArray (nameless_record <$> [square10; square20])))
              [square10; square20] eq_refl)
    as (loaded & zs & H1 & H2 & H3 & _).
  exists loaded, zs. split; [exact H1|]. split; [exact H2 | exact H3].
Defined.

(** X29. A zone file that conforms to the persisted format is never
    rejected: [load_zones] returns, what it returns are zones as declared,
    and the [l] key leaves the loop running on them. *)
Theorem conforming_file_loads (path : string) (fs0 : FS) (j : json)
    (Hfile : files fs0 !! path = Some (Document j))
    (Hconf : conforms j = true) :
  ∃ loaded zs, load_zones path fs0 = Ok loaded
    ∧ mapM zone_of loaded = Some zs
    ∧ ∀ args st, args_zones args = path → fs st = fs0 → wf st →
        ∃ st', handle_key args st (ord "l") = Running st'
               ∧ zones_of st' = zs.
Proof.
  destruct (load_zones_conforming path fs0 j Hfile Hconf)
    as (loaded & zs & Hl & Hm).
  exists loaded, zs. split; [done|]. split; [done|].
  intros args st Hpath Hfs Hwf.
  assert (∃ st', handle_key args st (ord "l") = Running st') as [st' Hk].
  { rewrite handle_key_load, Hpath, Hfs, Hl, Hm.
    destruct (alloc_zones (heap st) zs). by eexists. }
  exists st'. split; [done|].
  destruct (load_key args st st' Hwf Hk) as (loaded' & Hl' & Hm' & _).
  rewrite Hpath, Hfs, Hl in Hl'. injection Hl' as <-.
  rewrite Hm in Hm'. by injection Hm' as ->.
Qed.

Lemma conforming_file_loads_witness :
  conforms (JArray [json_of_zone zone_A; nameless_record square10]) = true
  ∧ ∃ loaded zs,
      load_zones "zones.json"
        (file_of (JArray [json_of_zone zone_A; nameless_record square10]))
      = Ok loaded
      ∧ mapM zone_of loaded = Some zs.
Proof.
  assert (Hc : conforms (JArray [json_of_zone zone_A; nameless_record square10])
               = true) by (vm_compute; reflexivity).
  split; [exact Hc|].
  destruct (conforming_file_loads "zones.json"
              (file_of (JArray [json_of_zone zone_A; nameless_record square10]))
              _ eq_refl Hc) as (loaded & zs & H1 & H2 & _).
  exists loaded, zs. split; [exact H1 | exact H2].
Defined.


